(** * claude-zip-watcher: a model of [watcher.py] and its specification

    The watcher looks at one folder for [.zip] files, waits until the
    synchronising process has released each file, extracts it below the
    destination folder, deletes the archive and records a section in a
    task document.

    The development follows the source file top to bottom:
    - paths ([pathlib.Path] as a list of components, [suffix], [stem]);
    - the file system, the environment and the world the functions act on;
    - a state-and-exception monad for the functions that touch the world;
    - Python's numbers, as far as [time.sleep], [*] and [int] look at them;
    - [wait_for_file_ready], [resolve_extract_path], [add_todo_entry],
      [process_zip_file], [ZipEventHandler] and the scans of [main];
    - the properties of the specification. *)

From Stdlib Require Import QArith Ascii SpecFloat.
From stdpp Require Import gmap strings list pretty sorting.

Open Scope string_scope.
Open Scope nat_scope.
Open Scope list_scope.

(** ** Paths

    A [pathlib.Path] is its sequence of components; [destination / name]
    adds one component.  The names joined by the watcher are stems of file
    names and hold no separator.  A [str] is the sequence of the bytes of
    its UTF-8 encoding: the functions below look for ASCII characters only,
    which UTF-8 writes as themselves and uses for nothing else. *)

Abbreviation Path := (list string).

Definition joinpath (p : Path) (name : string) : Path := p ++ [name].

Infix "//" := joinpath (at level 40, left associativity).

(** [Path.name]: the last component, empty for the empty path. *)
Definition name (p : Path) : string := List.last p "".

(** ** The file system

    A flat map from paths to nodes.  A regular file holds a text, a
    readable archive with its members in order, or bytes that are neither.
    Directories inside an extracted tree are implicit in the member paths:
    only the paths the watcher itself tests with [exists] carry a [Dir]. *)

Inductive member :=
  | Member (arcname : Path) (data : string)
  | Unsupported (arcname : Path).

Inductive file_data :=
  | Text (content : string)
  | Zip (members : list member)
  | Corrupt.

Inductive node :=
  | Dir
  | File (d : file_data).

Global Instance member_eq_dec : EqDecision member.
Proof. solve_decision. Defined.
Global Instance file_data_eq_dec : EqDecision file_data.
Proof. solve_decision. Defined.
Global Instance node_eq_dec : EqDecision node.
Proof. solve_decision. Defined.

(** [Path.exists()] *)
Definition exists_ (files : gmap Path node) (p : Path) : bool :=
  bool_decide (is_Some (files !! p)).

(** ** [resolve_extract_path]

    [f"{folder_name}_{counter}"]: the decimal numeral of the counter after an
    underscore. *)
Definition suffixed (folder_name : string) (counter : nat) : string :=
  folder_name +:+ "_" +:+ pretty counter.

(** The [while] loop.  It stops at the first counter whose name is free.
    The file system is finite, so [S (size files)] rounds are enough: the fuel
    never runs out before a free name is met (lemma [resolve_loop_free]). *)
Fixpoint resolve_loop (files : gmap Path node) (destination : Path)
    (folder_name : string) (fuel counter : nat) : nat :=
  match fuel with
  | 0 => counter
  | S fuel' =>
      if exists_ files (destination // suffixed folder_name counter)
      then resolve_loop files destination folder_name fuel' (S counter)
      else counter
  end.

Definition resolve_extract_path (files : gmap Path node) (destination : Path)
    (folder_name : string) : Path :=
  let extract_to := destination // folder_name in
  if negb (exists_ files extract_to) then extract_to
  else
    let counter :=
      resolve_loop files destination folder_name (S (size files)) 2 in
    destination // suffixed folder_name counter.

(** ** File names: [suffix], [stem], [lower]

    [PurePath.suffix] and [PurePath.stem] look for the last dot of the name;
    the dot counts only when it is neither the first nor the last character. *)

(** [str.rfind('.')]: the index of the last dot, [None] for Python's [-1]. *)
Fixpoint rfind_dot (s : string) : option nat :=
  match s with
  | "" => None
  | String c s' =>
      match rfind_dot s' with
      | Some i => Some (S i)
      | None => if Ascii.eqb c "."%char then Some 0 else None
      end
  end.

Definition suffix_of_name (n : string) : string :=
  match rfind_dot n with
  | Some i =>
      if (0 <? i) && (i <? String.length n - 1)
      then String.substring i (String.length n - i) n
      else ""
  | None => ""
  end.

Definition stem_of_name (n : string) : string :=
  match rfind_dot n with
  | Some i =>
      if (0 <? i) && (i <? String.length n - 1)
      then String.substring 0 i n
      else n
  | None => n
  end.

Definition suffix (p : Path) : string := suffix_of_name (name p).
Definition stem (p : Path) : string := stem_of_name (name p).

(** [str.lower()] as far as [_handle] looks at it: the ASCII capitals are
    lowered and the other bytes stay as they are.  The lowered suffix is
    only compared with [.zip], and no character outside ASCII lowers to one
    of these four (the dotted capital I lowers to two characters). *)
Definition lower_ascii (c : ascii) : ascii :=
  let n := nat_of_ascii c in
  if (65 <=? n) && (n <=? 90) then ascii_of_nat (n + 32) else c.

Fixpoint lower (s : string) : string :=
  match s with
  | "" => ""
  | String c s' => String (lower_ascii c) (lower s')
  end.

(** The line feed, and the parent of a path. *)
Definition LF : ascii := ascii_of_nat 10.
Definition nl : string := String LF "".

Definition parent (p : Path) : Path := removelast p.

(** ** Durations

    The time a sleep takes: a non-negative fraction [dur_num / dur_den] of
    seconds.  What [time.sleep] makes of its argument, a Python number that
    may be negative, infinite or no number at all, comes further down. *)

Record duration := { dur_num : N; dur_den : positive }.

Definition seconds (d : duration) : Q := Z.of_N (dur_num d) # dur_den d.

Definition whole_seconds (n : N) : duration := {| dur_num := n; dur_den := 1 |}.

Global Instance duration_eq_dec : EqDecision duration.
Proof. solve_decision. Defined.

(** ** Exceptions, log lines and effects

    Every exception of the model derives from Python's [Exception]. *)

Inductive exn :=
  | BadZipFile
  | NotImplementedError
  | FileNotFoundError
  | FileExistsError
  | PermissionError
  | UnicodeDecodeError
  | ValueError
  | OverflowError
  | OSError (errno : nat).

Inductive log_msg :=
  | TIMEOUT (file_path : Path) (timeout : Z)
  | EXTRACTED (file_path extract_to : Path)
  | DELETED (file_path : Path)
  | TODO (folder_name : string)
  | ERROR (file_path : Path) (e : exn)
  | DETECTED (change_type : string) (file_path : Path)
  | FOUND_EXISTING (zip_path : Path)
  | POLL (zip_path : Path).

(** What a call does to the outside, in the order it does it. *)
Inductive effect :=
  | Probe (p : Path) (opened : bool)
  | Sleep (d : duration)
  | Mkdir (p : Path)
  | Write (p : Path) (data : string)
  | Unlink (p : Path)
  | Append (p : Path) (text : string)
  | Log (m : log_msg).

Global Instance exn_eq_dec : EqDecision exn.
Proof. solve_decision. Defined.
Global Instance log_msg_eq_dec : EqDecision log_msg.
Proof. solve_decision. Defined.
Global Instance effect_eq_dec : EqDecision effect.
Proof. solve_decision. Defined.

(** ** The world and its environment

    The world is what the watcher changes: the file system, and the trace of
    its effects (log lines included).  [tick] counts the system calls made so
    far.  The environment is what the watcher does not control: whether
    another process holds a file open at a given tick, whether the
    operating system fails the call made at that tick, and which numbers of
    seconds are beyond the range of the platform's clock (that range is not
    the same in every version of the interpreter). *)

Record world := {
  fs : gmap Path node;
  trace : list effect;
  tick : nat;
}.

Record environment := {
  locked : Path → nat → bool;
  io_error : nat → option exn;
  out_of_time_range : Q → bool;
}.

(** The lines logged so far. *)
Definition log (w : world) : list log_msg :=
  omap (λ ev, match ev with Log m => Some m | _ => None end) (trace w).

(** ** Computations: state and exceptions *)

Inductive outcome (A : Type) :=
  | Ok (a : A)
  | Raise (e : exn).
Arguments Ok {A} a.
Arguments Raise {A} e.

Definition M (A : Type) : Type := world → outcome A * world.

Global Instance M_ret : MRet M := λ A a w, (Ok a, w).

Global Instance M_bind : MBind M := λ A B f m w,
  match m w with
  | (Ok a, w') => f a w'
  | (Raise e, w') => (Raise e, w')
  end.

Definition raise {A} (e : exn) : M A := λ w, (Raise e, w).

(** [try: body except Exception as e: handler(e)] *)
Definition try_except {A} (body : M A) (handler : exn → M A) : M A := λ w,
  match body w with
  | (Ok a, w') => (Ok a, w')
  | (Raise e, w') => handler e w'
  end.

Definition gets {A} (f : world → A) : M A := λ w, (Ok (f w), w).

Definition set_fs (f : gmap Path node → gmap Path node) : M unit := λ w,
  (Ok tt, {| fs := f (fs w); trace := trace w; tick := tick w |}).

Definition emit (ev : effect) : M unit := λ w,
  (Ok tt, {| fs := fs w; trace := trace w ++ [ev]; tick := tick w |}).

Definition next_tick : M nat := λ w,
  (Ok (tick w), {| fs := fs w; trace := trace w; tick := S (tick w) |}).

(** [for x in l: body(x)] *)
Fixpoint for_each {A} (l : list A) (body : A → M unit) : M unit :=
  match l with
  | [] => mret tt
  | x :: l' => body x;; for_each l' body
  end.

(** [logger.info]: the logging module swallows the errors of its handlers. *)
Definition logger_info (m : log_msg) : M unit := emit (Log m).

(** The result of an expression that may raise. *)
Definition returning {A} (o : outcome A) : M A := λ w, (o, w).

(** ** Numbers

    The delays and the retry count come from the configuration: a count is
    an [int]; a delay is an [int] (as the defaults are) or a [float], an
    IEEE 754 double, which may be negative, an infinity or a NaN.  Doubles
    are the [spec_float]s of precision 53 and maximal exponent 1024, with the
    operations of the standard library, which round to nearest, ties to
    even. *)

Inductive number :=
  | PyInt (z : Z)
  | PyFloat (f : spec_float).

Definition float_mul : spec_float → spec_float → spec_float := SFmul 53 1024.
Definition float_div : spec_float → spec_float → spec_float := SFdiv 53 1024.

(** The double nearest to an integer, an infinity when the integer is too
    large. *)
Definition nearest_float (z : Z) : spec_float := binary_normalize 53 1024 z 0 false.

(** The conversion of an [int] operand of a float operation: an integer
    too large for a double is an error. *)
Definition float_of_int (z : Z) : outcome spec_float :=
  match nearest_float z with
  | S754_infinity _ => Raise OverflowError
  | f => Ok f
  end.

(** [lock_retries * lock_delay]: exact on two [int]s; on an [int] and a
    [float] the product of two doubles, rounded. *)
Definition retries_times_delay (lock_retries : Z) (lock_delay : number)
    : outcome number :=
  match lock_delay with
  | PyInt z => Ok (PyInt (lock_retries * z))
  | PyFloat f =>
      match float_of_int lock_retries with
      | Ok r => Ok (PyFloat (float_mul r f))
      | Raise e => Raise e
      end
  end.

(** The value of a finite double, [(-1)^s * m * 2^e]. *)
Definition finite_value (s : bool) (m : positive) (e : Z) : Q :=
  let n := if s then Z.neg m else Z.pos m in
  match e with
  | Z.neg k => n # (2 ^ k)%positive
  | _ => inject_Z (n * 2 ^ e)
  end.

(** A fraction without its fractional part, toward zero. *)
Definition truncate (q : Q) : Z := Z.quot (Qnum q) (Z.pos (Qden q)).

(** [int(x)]: an [int] is itself; a [float] loses its fraction, and an
    infinity or a NaN is an error. *)
Definition int (x : number) : outcome Z :=
  match x with
  | PyInt z => Ok z
  | PyFloat S754_nan => Raise ValueError
  | PyFloat (S754_infinity _) => Raise OverflowError
  | PyFloat (S754_zero _) => Ok 0%Z
  | PyFloat (S754_finite s m e) => Ok (truncate (finite_value s m e))
  end.

(** A non-negative fraction as a duration. *)
Definition duration_of (q : Q) : duration :=
  {| dur_num := Z.to_N (Qnum q); dur_den := Qden q |}.

(** ** System calls

    Each call to the operating system takes one tick; the environment may
    fail it with an error of its own.  The calls below then fail as the
    platform does on a missing file, a directory in place of a file, or a
    file in place of a directory. *)

Section system.
Context (env : environment).

(** What [time.sleep] makes of its argument.  A NaN is a [ValueError]; a
    number beyond the range of the clock, an infinity among them, is an
    [OverflowError]; any other negative number is a [ValueError] ("sleep
    length must be non-negative"); what is left is the time to sleep. *)
Definition in_time_range (q : Q) : outcome duration :=
  if out_of_time_range env q then Raise OverflowError
  else if (Qnum q <? 0)%Z then Raise ValueError
  else Ok (duration_of q).

Definition sleep_length (secs : number) : outcome duration :=
  match secs with
  | PyInt z => in_time_range (inject_Z z)
  | PyFloat S754_nan => Raise ValueError
  | PyFloat (S754_infinity _) => Raise OverflowError
  | PyFloat (S754_zero _) => in_time_range 0
  | PyFloat (S754_finite s m e) => in_time_range (finite_value s m e)
  end.

(** [time.sleep] *)
Definition sleep (secs : number) : M unit :=
  match sleep_length secs with
  | Ok d => emit (Sleep d)
  | Raise e => raise e
  end.

Definition syscall : M unit :=
  t ← next_tick;
  match io_error env t with
  | Some e => raise e
  | None => mret tt
  end.

(** [CreateFileW(path, GENERIC_READ, FILE_SHARE_NONE, None, OPEN_EXISTING,
    FILE_ATTRIBUTE_NORMAL, None)]: a handle when the file exists, is a
    regular file and no other process has it open; [INVALID_HANDLE]
    otherwise.  It returns an error value and raises nothing. *)
Inductive handle :=
  | INVALID_HANDLE
  | Handle (p : Path).

Definition exclusive_open (files : gmap Path node) (p : Path) (t : nat)
    : handle :=
  match files !! p with
  | Some (File _) => if locked env p t then INVALID_HANDLE else Handle p
  | _ => INVALID_HANDLE
  end.

Definition is_handle (h : handle) : bool :=
  match h with Handle _ => true | INVALID_HANDLE => false end.

Definition CreateFileW (p : Path) : M handle :=
  t ← next_tick;
  h ← gets (λ w, exclusive_open (fs w) p t);
  emit (Probe p (is_handle h));;
  mret h.

Definition CloseHandle (h : handle) : M unit := mret tt.

(** [Path.mkdir(parents=True, exist_ok=True)]: walks down the components,
    creating what is missing; a regular file on the way is an error. *)
Fixpoint mkdirs (above : Path) (below : list string) : M unit :=
  match below with
  | [] => mret tt
  | c :: below' =>
      let q := above // c in
      node ← gets (λ w, fs w !! q);
      match node with
      | Some Dir => mret tt
      | Some (File _) => raise FileExistsError
      | None => set_fs (insert q Dir);; emit (Mkdir q)
      end;;
      mkdirs q below'
  end.

Definition mkdir (p : Path) : M unit := syscall;; mkdirs [] p.

(** [zipfile.ZipFile(path, "r")]: the members of a readable archive. *)
Definition ZipFile (p : Path) : M (list member) :=
  syscall;;
  node ← gets (λ w, fs w !! p);
  match node with
  | Some (File (Zip ms)) => mret ms
  | Some (File _) => raise BadZipFile
  | Some Dir => raise PermissionError
  | None => raise FileNotFoundError
  end.

(** [ZipFile.extractall(target)]: the members in archive order, each written
    at its own relative path below the target; it stops at the first member
    that fails and leaves the earlier ones in place.  A member that the
    operating system refuses to write, the disk being full or the path of
    the member running through a regular file, is a call that fails: that
    is the environment's to say. *)
Fixpoint extractall (ms : list member) (target : Path) : M unit :=
  match ms with
  | [] => mret tt
  | m :: ms' =>
      syscall;;
      match m with
      | Member arcname data =>
          set_fs (insert (target ++ arcname) (File (Text data)));;
          emit (Write (target ++ arcname) data)
      | Unsupported _ => raise NotImplementedError
      end;;
      extractall ms' target
  end.

(** [Path.unlink()] *)
Definition unlink (p : Path) : M unit :=
  syscall;;
  node ← gets (λ w, fs w !! p);
  match node with
  | Some (File _) => set_fs (delete p);; emit (Unlink p)
  | Some Dir => raise PermissionError
  | None => raise FileNotFoundError
  end.

(** [Path.read_text(encoding="utf-8")] *)
Definition read_text (p : Path) : M string :=
  syscall;;
  node ← gets (λ w, fs w !! p);
  match node with
  | Some (File (Text content)) => mret content
  | Some (File _) => raise UnicodeDecodeError
  | Some Dir => raise PermissionError
  | None => raise FileNotFoundError
  end.

(** [with open(p, "a", encoding="utf-8") as f: f.write(text)]: one append at
    the end of the file, which is created when missing. *)
Definition append_text (p : Path) (text : string) : M unit :=
  syscall;;
  node ← gets (λ w, fs w !! p);
  match node with
  | Some (File (Text content)) =>
      set_fs (insert p (File (Text (content +:+ text))))
  | Some (File _) => set_fs (insert p (File Corrupt))
  | Some Dir => raise PermissionError
  | None => set_fs (insert p (File (Text text)))
  end;;
  emit (Append p text).

(** ** [wait_for_file_ready] *)

Fixpoint wait_loop (file_path : Path) (n : nat) (delay : number) : M bool :=
  match n with
  | 0 => mret false
  | S n' =>
      h ← CreateFileW file_path;
      match h with
      | Handle _ => CloseHandle h;; mret true
      | INVALID_HANDLE => sleep delay;; wait_loop file_path n' delay
      end
  end.

(** [range(retries)] runs [max 0 retries] times. *)
Definition wait_for_file_ready (file_path : Path) (retries : Z)
    (delay : number) : M bool :=
  wait_loop file_path (Z.to_nat retries) delay.

End system.

(** ** The heading pattern of [add_todo_entry]

    The pattern [(?m)^## \[.*\]\(<escaped name>/?\)] uses four constructs: a
    literal character, [.*], an optional character, and the line anchor of
    multi-line mode.  [re_match] is the backtracking matcher for a sequence
    of the first three; [re_search] tries it at every start of a line. *)

Inductive re_token :=
  | Lit (c : ascii)
  | DotStar
  | Opt (c : ascii).

(** [re.escape] makes every character of the name a literal. *)
Fixpoint re_escape (s : string) : list re_token :=
  match s with
  | "" => []
  | String c s' => Lit c :: re_escape s'
  end.

(** Does a prefix of [s] match [re]?  [.] is any character but the line
    feed. *)
Fixpoint re_match (re : list re_token) (s : string) : bool :=
  match re with
  | [] => true
  | Lit c :: re' =>
      match s with
      | String c' s' => Ascii.eqb c c' && re_match re' s'
      | "" => false
      end
  | Opt c :: re' =>
      match s with
      | String c' s' => (Ascii.eqb c c' && re_match re' s') || re_match re' s
      | "" => re_match re' s
      end
  | DotStar :: re' =>
      (fix star (s : string) : bool :=
         re_match re' s
         || match s with
            | String c' s' => negb (Ascii.eqb c' LF) && star s'
            | "" => false
            end) s
  end.

(** [re.search] with [(?m)^] in front: [bol] tells whether the current
    position starts a line. *)
Fixpoint re_search_from (re : list re_token) (bol : bool) (s : string) : bool :=
  (bol && re_match re s)
  || match s with
     | String c s' => re_search_from re (Ascii.eqb c LF) s'
     | "" => false
     end.

Definition re_search (re : list re_token) (s : string) : bool :=
  re_search_from re true s.

Definition heading_pattern (folder_name : string) : list re_token :=
  re_escape "## [" ++ [DotStar] ++ re_escape "]("
  ++ re_escape folder_name ++ [Opt "/"%char; Lit ")"%char].

(** The text of an entry: a line feed, the heading line, the checklist
    line. *)
Definition heading (folder_name : string) : string :=
  "## [" +:+ folder_name +:+ "](" +:+ folder_name +:+ "/)".

Definition checklist : string := "- [ ] Review and determine next steps".

Definition entry (folder_name : string) : string :=
  nl +:+ heading folder_name +:+ nl +:+ checklist +:+ nl.

(** ** [add_todo_entry], [process_zip_file] *)

Section watcher.
Context (env : environment).

Definition add_todo_entry (todo_file : Path) (folder_name : string) : M unit :=
  present ← gets (λ w, exists_ (fs w) todo_file);
  if negb present then mret tt
  else
    content ← read_text env todo_file;
    if re_search (heading_pattern folder_name) content then mret tt
    else
      append_text env todo_file (entry folder_name);;
      logger_info (TODO folder_name).

(** The body of the [try] statement, lines 160-171. *)
Definition try_block (file_path destination todo_file : Path) : M unit :=
  let folder_name := stem file_path in
  extract_to ← gets (λ w, resolve_extract_path (fs w) destination folder_name);
  mkdir env extract_to;;
  zf ← ZipFile env file_path;
  extractall env zf extract_to;;
  logger_info (EXTRACTED file_path extract_to);;
  unlink env file_path;;
  logger_info (DELETED file_path);;
  add_todo_entry todo_file (name extract_to).

(** The probe and the computation of the timeout, lines 154-155, stand
    before the [try] statement: what they raise leaves the function. *)
Definition process_zip_file (file_path destination todo_file : Path)
    (lock_retries : Z) (lock_delay : number) : M unit :=
  ready ← wait_for_file_ready env file_path lock_retries lock_delay;
  if negb ready then
    product ← returning (retries_times_delay lock_retries lock_delay);
    timeout ← returning (int product);
    logger_info (TIMEOUT file_path timeout)
  else
    try_except
      (try_block file_path destination todo_file)
      (λ e, logger_info (ERROR file_path e)).

(** The extraction step on its own, lines 160-166: the part of the [try]
    block up to the EXTRACTED line.  [try_block] is this step followed by the
    deletion and the task entry (lemma [try_block_after_extraction]). *)
Definition extraction (file_path destination : Path) : M Path :=
  let folder_name := stem file_path in
  extract_to ← gets (λ w, resolve_extract_path (fs w) destination folder_name);
  mkdir env extract_to;;
  zf ← ZipFile env file_path;
  extractall env zf extract_to;;
  logger_info (EXTRACTED file_path extract_to);;
  mret extract_to.

(** ** [ZipEventHandler] *)

Record config := {
  poll_interval_seconds : number;
  file_lock_retries : Z;
  file_lock_retry_delay_seconds : number;
  fsw_settle_delay_seconds : number;
}.

Record ZipEventHandler := {
  handler_destination : Path;
  handler_todo_file : Path;
  handler_config : config;
}.

Definition settle_delay (self : ZipEventHandler) : number :=
  fsw_settle_delay_seconds (handler_config self).

(** A watchdog event. *)
Record fs_event := {
  is_directory : bool;
  src_path : Path;
  dest_path : Path;
}.

Definition _handle (self : ZipEventHandler) (file_path : Path)
    (change_type : string) : M unit :=
  if negb (String.eqb (lower (suffix file_path)) ".zip") then mret tt
  else
    logger_info (DETECTED change_type file_path);;
    sleep env (settle_delay self);;
    process_zip_file file_path (handler_destination self)
      (handler_todo_file self)
      (file_lock_retries (handler_config self))
      (file_lock_retry_delay_seconds (handler_config self)).

Definition on_created (self : ZipEventHandler) (event : fs_event) : M unit :=
  if negb (is_directory event) then _handle self (src_path event) "Created"
  else mret tt.

Definition on_moved (self : ZipEventHandler) (event : fs_event) : M unit :=
  if negb (is_directory event) then _handle self (dest_path event) "Renamed"
  else mret tt.

(** ** The scans of [main]

    [watch_folder.glob("*.zip")] lists the entries of the watch folder,
    files and directories alike, whose name matches the pattern; on Windows,
    the only platform the module loads on, the pattern is compiled with
    [re.IGNORECASE].  Under that flag [z] and [p] match their capitals and
    nothing else, and [i] matches four characters: [i], [I], the dotted
    capital I (U+0130) and the dotless small i (U+0131), which UTF-8 writes
    as the bytes C4 B0 and C4 B1. *)

Definition ends_with (suf s : string) : bool :=
  (String.length suf <=? String.length s)
  && String.eqb
       (String.substring (String.length s - String.length suf)
          (String.length suf) s) suf.

Definition dotted_capital_I : string :=
  String (ascii_of_nat 196) (String (ascii_of_nat 176) "").
Definition dotless_small_i : string :=
  String (ascii_of_nat 196) (String (ascii_of_nat 177) "").

(** The endings that match [.zip] with one of the two other [i]s. *)
Definition other_i_endings : list string :=
  z ← [".z"; ".Z"]; i ← [dotted_capital_I; dotless_small_i]; p ← ["p"; "P"];
  [z +:+ i +:+ p].

Definition ends_with_other_i (n : string) : bool :=
  existsb (λ suf, ends_with suf n) other_i_endings.

Definition fnmatch_star_zip (n : string) : bool :=
  ends_with ".zip" (lower n) || ends_with_other_i n.

Definition is_child (watch_folder p : Path) : bool :=
  bool_decide (p ≠ [] ∧ parent p = watch_folder).

Definition glob_star_zip (files : gmap Path node) (watch_folder : Path)
    : list Path :=
  filter (λ p, is_child watch_folder p && fnmatch_star_zip (name p) = true)
    (map_to_list files).*1.

(** [sorted] compares Windows paths by their lowered components; the
    paths of one listing differ in their names only, and the order of the
    bytes of UTF-8 is the order of the characters.  The capitals outside
    ASCII are not lowered here, so that the order is the interpreter's on
    the names whose letters outside ASCII are small ones.  The statements on
    the scans hold for every order of the listing, and the names of the
    examples are ASCII. *)
Definition path_le (p q : Path) : Prop :=
  String.le (lower (name p)) (lower (name q)).

Global Instance path_le_dec : RelDecision path_le.
Proof. intros p q. unfold path_le. apply _. Defined.

Definition sorted (l : list Path) : list Path := merge_sort path_le l.

(** Lines 235-242: the files found at start-up. *)
Definition startup_scan (watch_folder destination todo_file : Path)
    (cfg : config) : M (list Path) :=
  existing ← gets (λ w, sorted (glob_star_zip (fs w) watch_folder));
  for_each existing (λ zip_path,
    logger_info (FOUND_EXISTING zip_path);;
    process_zip_file zip_path destination todo_file
      (file_lock_retries cfg) (file_lock_retry_delay_seconds cfg));;
  mret existing.

(** Lines 267-273: one round of the polling loop, after its sleep. *)
Definition poll_sweep (watch_folder destination todo_file : Path)
    (cfg : config) : M (list Path) :=
  found ← gets (λ w, sorted (glob_star_zip (fs w) watch_folder));
  for_each found (λ zip_path,
    logger_info (POLL zip_path);;
    process_zip_file zip_path destination todo_file
      (file_lock_retries cfg) (file_lock_retry_delay_seconds cfg));;
  mret found.

End watcher.

(** ** Predicates of the statements *)

(** The operating system fails no call. *)
Definition no_io_errors (env : environment) : Prop :=
  ∀ t, io_error env t = None.

(** The file system is a tree: what lies above an entry is a directory. *)
Definition tree (files : gmap Path node) : Prop :=
  map_Forall (λ p _, parent p = [] ∨ files !! parent p = Some Dir) files.

Global Instance tree_dec files : Decision (tree files).
Proof. unfold tree. apply _. Defined.

(** The file cannot be opened exclusively at any of the next [n] ticks. *)
Definition never_ready (env : environment) (w : world) (p : Path) (n : nat)
    : Prop :=
  ∀ i, i < n → exclusive_open env (fs w) p (tick w + i) = INVALID_HANDLE.

Definition supported (m : member) : bool :=
  match m with Member _ _ => true | Unsupported _ => false end.

Definition arcname_of (m : member) : Path :=
  match m with Member a _ | Unsupported a => a end.

(** The effects of extracting the members of an archive below [target]. *)
Definition writes (target : Path) (ms : list member) : list effect :=
  omap (λ m, match m with
             | Member a d => Some (Write (target ++ a) d)
             | Unsupported _ => None
             end) ms.

Definition changes_files (ev : effect) : bool :=
  match ev with
  | Mkdir _ | Write _ _ | Unlink _ | Append _ _ => true
  | Probe _ _ | Sleep _ | Log _ => false
  end.

Definition probe_or_sleep (ev : effect) : bool :=
  match ev with
  | Probe _ _ | Sleep _ => true
  | _ => false
  end.

Definition append_or_log (ev : effect) : bool :=
  match ev with
  | Append _ _ | Log _ => true
  | _ => false
  end.

Definition mkdir_or_write (ev : effect) : bool :=
  match ev with
  | Mkdir _ | Write _ _ => true
  | _ => false
  end.

(** The file system after the members of an archive are written below
    [target], in archive order. *)
Definition extracted (target : Path) (files : gmap Path node)
    (ms : list member) : gmap Path node :=
  foldl (λ files m,
           match m with
           | Member a d => <[target ++ a := File (Text d)]> files
           | Unsupported _ => files
           end) files ms.

Definition deletes_or_appends (ev : effect) : bool :=
  match ev with
  | Unlink _ | Append _ _ => true
  | _ => false
  end.

(** The effects of [n] failed attempts of the readiness probe. *)
Definition failed_attempts (p : Path) (d : duration) (n : nat) : list effect :=
  mjoin (replicate n [Probe p false; Sleep d]).

(** The total length of the sleeps of a trace. *)
Definition slept (tr : list effect) : Q :=
  foldr (λ ev acc, match ev with Sleep d => (seconds d + acc)%Q | _ => acc end)
    0%Q tr.

(** A name without a line feed, as every file name on the platform is. *)
Fixpoint no_LF (s : string) : bool :=
  match s with
  | "" => true
  | String c s' => negb (Ascii.eqb c LF) && no_LF s'
  end.

(** [str.split("\n")]: the lines of a text. *)
Fixpoint lines (s : string) : list string :=
  match s with
  | "" => [""]
  | String c s' =>
      if Ascii.eqb c LF then "" :: lines s'
      else match lines s' with
           | l :: ls => String c l :: ls
           | [] => [String c ""]
           end
  end.

(** Some line equal to [h] comes right after an empty line. *)
Fixpoint blank_line_before (h : string) (ls : list string) : bool :=
  match ls with
  | [] => false
  | l :: rest =>
      match rest with
      | l' :: _ => (String.eqb l "" && String.eqb l' h)
                   || blank_line_before h rest
      | [] => false
      end
  end.

(** At the start of some line the text reads [## [<text>](<name>)] or
    [## [<text>](<name>/)], for a text without line feed. *)
Definition heading_line_for (folder_name content : string) : Prop :=
  ∃ before text slash after,
    content = before +:+ "## [" +:+ text +:+ "](" +:+ folder_name
              +:+ slash +:+ ")" +:+ after
    ∧ (before = "" ∨ ∃ b, before = b +:+ nl)
    ∧ no_LF text = true
    ∧ (slash = "" ∨ slash = "/").
Definition fs_three_taken : gmap Path node :=
  <[ ["C:"; "Dev"; "site"] := Dir ]>
  (<[ ["C:"; "Dev"; "site_2"] := Dir ]>
  (<[ ["C:"; "Dev"; "site_3"] := File (Text "notes") ]>
  (<[ ["C:"; "Dev"] := Dir ]> ∅))).


(** ** Concrete worlds for the examples

    The watch folder [G:\Claude Files] holds an archive, a corrupt file and a
    directory whose name ends in [.zip]; the destination [C:\Dev] holds the
    task document and an earlier extraction of [site]. *)

Definition watch_folder : Path := ["G:"; "Claude Files"].
Definition destination_folder : Path := ["C:"; "Dev"].
Definition todo_md : Path := ["C:"; "Dev"; "todo.md"].
Definition site_zip : Path := ["G:"; "Claude Files"; "site.zip"].
Definition broken_zip : Path := ["G:"; "Claude Files"; "broken.zip"].
Definition photos_zip : Path := ["G:"; "Claude Files"; "photos.zip"].

Definition site_members : list member :=
  [Member ["index.html"] "<html></html>"; Member ["css"; "site.css"] "body {}"].

Definition example_fs : gmap Path node :=
  <[ site_zip := File (Zip site_members) ]>
  (<[ broken_zip := File Corrupt ]>
  (<[ photos_zip := Dir ]>
  (<[ watch_folder := Dir ]>
  (<[ ["G:"] := Dir ]>
  (<[ todo_md := File (Text "# Projects") ]>
  (<[ ["C:"; "Dev"; "site"] := Dir ]>
  (<[ destination_folder := Dir ]>
  (<[ ["C:"] := Dir ]> ∅)))))))).

Definition example_world : world :=
  {| fs := example_fs; trace := []; tick := 0 |}.

(** The clock of CPython 3.11 and later counts nanoseconds in 64 bits:
    a number of seconds is in its range when it is one of nanoseconds
    between [-2^63] and [2^63 - 1]. *)
Definition beyond_64_bit_nanoseconds (q : Q) : bool :=
  negb (Qle_bool (- (2 ^ 63)) (q * 10 ^ 9)
        && Qle_bool (q * 10 ^ 9) (2 ^ 63 - 1)).

(** No other process holds a file, and no call fails. *)
Definition quiet_env : environment :=
  {| locked := λ _ _, false; io_error := λ _, None;
     out_of_time_range := beyond_64_bit_nanoseconds |}.

(** The synchronising process never lets go. *)
Definition busy_env : environment :=
  {| locked := λ _ _, true; io_error := λ _, None;
     out_of_time_range := beyond_64_bit_nanoseconds |}.

(** The synchronising process lets go after two probes. *)
Definition settling_env : environment :=
  {| locked := λ _ t, t <? 2; io_error := λ _, None;
     out_of_time_range := beyond_64_bit_nanoseconds |}.

(** The float [a / b] of two small integers, which is the float that the
    decimal numeral of the fraction denotes: [float_ratio 7 10] is [0.7]. *)
Definition float_ratio (a b : Z) : spec_float :=
  float_div (nearest_float a) (nearest_float b).

(** [0.5], and [2] as the default configuration has it. *)
Definition half_second : number := PyFloat (float_ratio 1 2).
Definition two_seconds : number := PyInt 2.

Definition example_config : config :=
  {| poll_interval_seconds := PyInt 600;
     file_lock_retries := 30;
     file_lock_retry_delay_seconds := two_seconds;
     fsw_settle_delay_seconds := PyInt 3 |}.

Definition example_handler : ZipEventHandler :=
  {| handler_destination := destination_folder;
     handler_todo_file := todo_md;
     handler_config := example_config |}.

(** A task document that already lists [site], under another title and
    without the trailing slash. *)
Definition listed_todo : string :=
  "# Projects" +:+ nl +:+ "## [My old site](site)" +:+ nl
  +:+ "- [x] Review and determine next steps" +:+ nl.

Definition listed_world : world :=
  {| fs := <[ todo_md := File (Text listed_todo) ]> example_fs;
     trace := []; tick := 0 |}.

(** The world after a first, successful run on [site.zip]. *)
Definition after_first_run : world :=
  (process_zip_file quiet_env site_zip destination_folder todo_md
     30 two_seconds example_world).2.

(** ** Further definitions

    [check_drive_mounted]: the anchor of an absolute path is its first
    component, the root of the drive. *)

Definition anchor (p : Path) : Path := take 1 p.

Definition check_drive_mounted (files : gmap Path node) (watch_folder : Path)
    : bool :=
  exists_ files (anchor watch_folder).



(** The runs of [add_todo_entry] for the folder names of successive
    archives. *)
Definition add_todo_entries (env : environment) (todo_file : Path)
    (folder_names : list string) : M unit :=
  for_each folder_names (add_todo_entry env todo_file).

(** The entries of a list of names, one after the other. *)
Definition entries (folder_names : list string) : string :=
  foldr (λ n acc, entry n +:+ acc) "" folder_names.

(** A name without a dot. *)
Fixpoint no_dot (s : string) : bool :=
  match s with
  | "" => true
  | String c s' => negb (Ascii.eqb c "."%char) && no_dot s'
  end.

(** The operating system refuses to delete, at the tick [t] and only
    then. *)
Definition denied_at (t : nat) : environment :=
  {| locked := λ _ _, false;
     io_error := λ t', if t' =? t then Some PermissionError else None;
     out_of_time_range := beyond_64_bit_nanoseconds |}.

(** The disk is full at the tick [t]: the call made then fails with
    [OSError] 28, "No space left on device". *)
Definition disk_full_at (t : nat) : environment :=
  {| locked := λ _ _, false;
     io_error := λ t', if t' =? t then Some (OSError 28) else None;
     out_of_time_range := beyond_64_bit_nanoseconds |}.

(** [int(lock_retries * lock_delay)], the number of the TIMEOUT line. *)
Definition timeout_seconds (lock_retries : Z) (lock_delay : number)
    : outcome Z :=
  match retries_times_delay lock_retries lock_delay with
  | Ok product => int product
  | Raise e => Raise e
  end.

(** The value of a double that is a number. *)
Definition float_value (f : spec_float) : option Q :=
  match f with
  | S754_zero _ => Some 0%Q
  | S754_finite s m e => Some (finite_value s m e)
  | S754_infinity _ | S754_nan => None
  end.

(** The member of an archive that is the last one of its name: the one
    whose data the file has when all members are written in order. *)
Definition last_of_its_name (ms : list member) (a : Path) (d : string) : Prop :=
  ∃ i, ms !! i = Some (Member a d)
       ∧ ∀ j m, i < j → ms !! j = Some m → arcname_of m ≠ a.

(** The paths from below [above] down to [above ++ below], in the order
    in which [mkdir(parents=True)] meets them; those that do not exist are
    the directories it makes. *)
Fixpoint descents (above : Path) (below : list string) : list Path :=
  match below with
  | [] => []
  | c :: below' => (above // c) :: descents (above // c) below'
  end.

Definition missing (files : gmap Path node) (l : list Path) : list Path :=
  filter (λ q, files !! q = None) l.

(** No regular file stands where a directory is needed: at the path or
    above it. *)
Definition no_file_above (files : gmap Path node) (p : Path) : Prop :=
  ∀ q d, q ∈ descents [] p → files !! q ≠ Some (File d).

(** The world after one more log line. *)
Definition logged (w : world) (m : log_msg) : world :=
  {| fs := fs w; trace := trace w ++ [Log m]; tick := tick w |}.

Definition is_mkdir (ev : effect) : bool :=
  match ev with Mkdir _ => true | _ => false end.

(** The ways a call [process_zip_file p destination todo_file] can return,
    from the world [w] to the world [w'], with the extraction target [t]:
    what the file system and the trace are in each of them. *)
Inductive run_ends (w : world) (p todo_file t : Path) (timeout : outcome Z)
    (w' : world) : Prop :=
  | ends_timeout tr0 seconds :
      timeout = Ok seconds →
      Forall (λ ev, probe_or_sleep ev = true) tr0 →
      fs w' = fs w →
      trace w' = trace w ++ tr0 ++ [Log (TIMEOUT p seconds)] →
      run_ends w p todo_file t timeout w'
  | ends_extraction_error tr0 tr e :
      Forall (λ ev, probe_or_sleep ev = true) tr0 →
      Forall (λ ev, mkdir_or_write ev = true) tr →
      (∀ q, is_Some (fs w !! q) → (∀ a, q ≠ t ++ a) →
            fs w' !! q = fs w !! q) →
      (∀ q, is_Some (fs w !! q) → is_Some (fs w' !! q)) →
      trace w' = trace w ++ tr0 ++ tr ++ [Log (ERROR p e)] →
      run_ends w p todo_file t timeout w'
  | ends_deletion_error tr0 tr1 ms files1 e :
      Forall (λ ev, probe_or_sleep ev = true) tr0 →
      Forall (λ ev, is_mkdir ev = true) tr1 →
      Forall (λ m, supported m = true) ms →
      files1 !! p = Some (File (Zip ms)) →
      (∀ q, is_Some (fs w !! q) → files1 !! q = fs w !! q) →
      fs w' = extracted t files1 ms →
      trace w' = trace w ++ tr0 ++ tr1 ++ writes t ms
                 ++ [Log (EXTRACTED p t); Log (ERROR p e)] →
      run_ends w p todo_file t timeout w'
  | ends_deleted tr0 tr1 ms files1 rest :
      Forall (λ ev, probe_or_sleep ev = true) tr0 →
      Forall (λ ev, is_mkdir ev = true) tr1 →
      Forall (λ m, supported m = true) ms →
      files1 !! p = Some (File (Zip ms)) →
      (∀ q, is_Some (fs w !! q) → files1 !! q = fs w !! q) →
      trace w' = trace w ++ tr0 ++ tr1 ++ writes t ms
                 ++ [Log (EXTRACTED p t); Unlink p; Log (DELETED p)] ++ rest →
      (rest = [] ∧ fs w' = delete p (extracted t files1 ms)
       ∨ (∃ e, rest = [Log (ERROR p e)]
               ∧ fs w' = delete p (extracted t files1 ms))
       ∨ (∃ content,
            delete p (extracted t files1 ms) !! todo_file
            = Some (File (Text content))
            ∧ rest = [Append todo_file (entry (name t)); Log (TODO (name t))]
            ∧ fs w' = <[todo_file := File (Text (content +:+ entry (name t)))]>
                        (delete p (extracted t files1 ms)))) →
      run_ends w p todo_file t timeout w'.

(** The log lines of a trace. *)
Definition logs (tr : list effect) : list log_msg :=
  omap (λ ev, match ev with Log m => Some m | _ => None end) tr.

(** The world after the event handler has announced a path and let the
    settle delay pass. *)
Definition detected (w : world) (change_type : string) (file_path : Path)
    (settle : duration) : world :=
  {| fs := fs w;
     trace := trace w ++ [Log (DETECTED change_type file_path); Sleep settle];
     tick := tick w |}.

(** ** [load_config]

    The configuration is a dictionary from keys to JSON values.  [file] is
    the JSON object found at the configuration path, [None] when the path
    does not exist; [dict.update] lets the bindings of the file replace
    those of the defaults and adds the others. *)

Inductive json :=
  | JString (s : string)
  | JInt (z : Z)
  | JFloat (q : Q)
  | JBool (b : bool)
  | JNull
  | JOther.

Definition defaults : gmap string json :=
  list_to_map
    [("watch_folder", JString "G:\My Drive\Claude Files");
     ("destination_folder", JString "C:\Dev");
     ("todo_file", JString "C:\Dev\todo.md");
     ("poll_interval_seconds", JInt 600);
     ("file_lock_retries", JInt 30);
     ("file_lock_retry_delay_seconds", JInt 2);
     ("fsw_settle_delay_seconds", JInt 3)].

Definition load_config (file : option (gmap string json))
    : gmap string json :=
  match file with
  | Some loaded => loaded ∪ defaults
  | None => defaults
  end.

(** Lines 212-213 of [main]: [--poll-interval] replaces the interval. *)
Definition override_poll_interval (poll_interval : option Z)
    (config : gmap string json) : gmap string json :=
  match poll_interval with
  | Some n => <["poll_interval_seconds" := JInt n]> config
  | None => config
  end.

(** The keys that [main] and [ZipEventHandler] read. *)
Definition config_keys : list string :=
  ["watch_folder"; "destination_folder"; "todo_file";
   "poll_interval_seconds"; "file_lock_retries";
   "file_lock_retry_delay_seconds"; "fsw_settle_delay_seconds"].
Section resolve_facts.
Context (files : gmap Path node) (destination : Path) (folder_name : string).

Lemma exists_true p : exists_ files p = true ↔ is_Some (files !! p).
Proof. unfold exists_. by rewrite bool_decide_eq_true. Qed.

Lemma exists_false p : exists_ files p = false ↔ files !! p = None.
Proof.
  unfold exists_. rewrite bool_decide_eq_false. by rewrite eq_None_not_Some.
Qed.

Lemma joinpath_inj p : Inj (=) (=) (joinpath p).
Proof. intros a b H. unfold joinpath in H. by simplify_list_eq. Qed.

Lemma suffixed_inj : Inj (=) (=) (suffixed folder_name).
Proof.
  intros a b H. unfold suffixed in H.
  apply (inj (String.app folder_name)) in H.
  apply (inj (String.app "_")) in H.
  by apply (inj pretty) in H.
Qed.

(** Every counter the loop passed over names an existing entry. *)
Lemma resolve_loop_passed fuel c j :
  c ≤ j < resolve_loop files destination folder_name fuel c →
  is_Some (files !! (destination // suffixed folder_name j)).
Proof.
  revert c. induction fuel as [|fuel IH]; intros c; simpl; [lia|].
  destruct (exists_ files (destination // suffixed folder_name c)) eqn:E; [|lia].
  intros [Hc Hj]. destruct (decide (j = c)) as [->|Hne].
  - by apply exists_true.
  - apply (IH (S c)). lia.
Qed.

Lemma resolve_loop_bounds fuel c :
  c ≤ resolve_loop files destination folder_name fuel c ≤ c + fuel.
Proof.
  revert c. induction fuel as [|fuel IH]; intros c; simpl; [lia|].
  destruct (exists_ files _); [|lia]. specialize (IH (S c)). lia.
Qed.

(** The loop ends on a free name, or it used all its fuel. *)
Lemma resolve_loop_stop fuel c :
  files !! (destination // suffixed folder_name
           (resolve_loop files destination folder_name fuel c)) = None
  ∨ resolve_loop files destination folder_name fuel c = c + fuel.
Proof.
  revert c. induction fuel as [|fuel IH]; intros c; simpl; [right; lia|].
  destruct (exists_ files (destination // suffixed folder_name c)) eqn:E.
  - destruct (IH (S c)) as [H|H]; [by left|right; lia].
  - left. by apply exists_false.
Qed.

(** Pigeonhole: [n] distinct names cannot all be entries of a file system
    with fewer than [n] entries. *)
Lemma occupied_run_short c n :
  (∀ j, c ≤ j < c + n →
        is_Some (files !! (destination // suffixed folder_name j))) →
  n ≤ size files.
Proof.
  intros Hocc.
  set (l := (λ j, destination // suffixed folder_name j) <$> seq c n).
  assert (NoDup l) as Hnd.
  { apply NoDup_fmap_2; [|apply NoDup_seq].
    intros a b H. apply joinpath_inj in H. by apply suffixed_inj in H. }
  assert (list_to_set l ⊆ dom files) as Hsub.
  { intros p. rewrite elem_of_list_to_set. unfold l.
    rewrite list_elem_of_fmap. intros (j & -> & Hj).
    apply elem_of_seq in Hj. apply elem_of_dom, Hocc. lia. }
  apply subseteq_size in Hsub.
  rewrite size_list_to_set in Hsub by done.
  rewrite size_dom in Hsub. unfold l in Hsub.
  by rewrite length_fmap, length_seq in Hsub.
Qed.

Lemma resolve_loop_free c :
  files !! (destination // suffixed folder_name
           (resolve_loop files destination folder_name (S (size files)) c)) = None.
Proof.
  destruct (resolve_loop_stop (S (size files)) c) as [H|H]; [done|].
  exfalso. assert (S (size files) ≤ size files); [|lia].
  apply (occupied_run_short c). intros j Hj.
  apply (resolve_loop_passed (S (size files)) c). lia.
Qed.
End resolve_facts.

(** The path returned is free, and it is a name below the destination. *)
Lemma resolve_extract_path_free (files : gmap Path node) destination n :
  files !! resolve_extract_path files destination n = None.
Proof.
  unfold resolve_extract_path.
  destruct (exists_ files (destination // n)) eqn:E; cbn [negb]; cbv zeta.
  - apply resolve_loop_free.
  - by apply exists_false.
Qed.

Lemma resolve_extract_path_below (files : gmap Path node) destination n :
  ∃ c, resolve_extract_path files destination n = destination // c.
Proof.
  unfold resolve_extract_path.
  destruct (negb (exists_ files (destination // n))); by eexists.
Qed.

(** C1. [resolve_extract_path] returns [destination/n] when that name is
    free; otherwise it returns [destination/n_k] for the least [k >= 2] whose
    name is free.  The path it returns never names an existing entry, and with
    [n], [n_2] and [n_3] taken (and [n_4] free) it returns [n_4]. *)
Theorem resolve_extract_path_least_free
    (files : gmap Path node) (destination : Path) (n : string) :
  (files !! (destination // n) = None →
     resolve_extract_path files destination n = destination // n)
  ∧ (is_Some (files !! (destination // n)) →
     ∃ k, 2 ≤ k
       ∧ resolve_extract_path files destination n = destination // suffixed n k
       ∧ files !! (destination // suffixed n k) = None
       ∧ ∀ j, 2 ≤ j < k → is_Some (files !! (destination // suffixed n j)))
  ∧ files !! resolve_extract_path files destination n = None
  ∧ (is_Some (files !! (destination // n)) →
     is_Some (files !! (destination // (n +:+ "_2"))) →
     is_Some (files !! (destination // (n +:+ "_3"))) →
     files !! (destination // (n +:+ "_4")) = None →
     resolve_extract_path files destination n = destination // (n +:+ "_4")).
Proof.
  assert (is_Some (files !! (destination // n)) →
     ∃ k, 2 ≤ k
       ∧ resolve_extract_path files destination n = destination // suffixed n k
       ∧ files !! (destination // suffixed n k) = None
       ∧ ∀ j, 2 ≤ j < k → is_Some (files !! (destination // suffixed n j)))
    as Htaken.
  { intros Hn. apply exists_true in Hn.
    exists (resolve_loop files destination n (S (size files)) 2).
    unfold resolve_extract_path. rewrite Hn. cbn [negb]. cbv zeta.
    split.
    { pose proof (resolve_loop_bounds files destination n (S (size files)) 2). lia. }
    split; [done|].
    split; [apply resolve_loop_free|].
    intros j Hj. by apply (resolve_loop_passed _ _ _ (S (size files)) 2). }
  assert (files !! (destination // n) = None →
     resolve_extract_path files destination n = destination // n) as Hfree.
  { intros Hn. apply exists_false in Hn.
    unfold resolve_extract_path. by rewrite Hn. }
  split; [done|]. split; [done|]. split; [apply resolve_extract_path_free|].
  intros Hn H2 H3 H4.
  {
    destruct (Htaken Hn) as (k & Hk & -> & Hfreek & Hpassed).
    change (n +:+ "_4") with (suffixed n 4).
    destruct (decide (k = 4)) as [->|Hne]; [done|]. exfalso.
    destruct (decide (k < 4)).
    + assert (k = 2 ∨ k = 3) as [->| ->] by lia.
      * change (suffixed n 2) with (n +:+ "_2") in Hfreek.
        rewrite Hfreek in H2. by destruct H2.
      * change (suffixed n 3) with (n +:+ "_3") in Hfreek.
        rewrite Hfreek in H3. by destruct H3.
    + destruct (Hpassed 4) as [x Hx]; [lia|].
      change (suffixed n 4) with (n +:+ "_4") in Hx. congruence. }
Qed.

Lemma resolve_extract_path_least_free_witness :
  resolve_extract_path fs_three_taken ["C:"; "Dev"] "site"
  = ["C:"; "Dev"; "site_4"].
Proof.
  apply (proj2 (proj2 (proj2
    (resolve_extract_path_least_free fs_three_taken ["C:"; "Dev"] "site")))).
  - apply exists_true. vm_compute. reflexivity.
  - apply exists_true. vm_compute. reflexivity.
  - apply exists_true. vm_compute. reflexivity.
  - vm_compute. reflexivity.
Defined.

(** ** Running computations *)

Ltac red_world := cbv beta iota zeta; cbn [fs trace tick fst snd].

Ltac run := unfold logger_info, CloseHandle, mbind, M_bind, mret, M_ret,
  gets, emit, set_fs, next_tick, raise, returning; cbn.

Lemma bind_ok {A B} (m : M A) (f : A → M B) w a w1 :
  m w = (Ok a, w1) → (m ≫= f) w = f a w1.
Proof. intros H. unfold mbind, M_bind. by rewrite H. Qed.

Lemma bind_raise {A B} (m : M A) (f : A → M B) w e w1 :
  m w = (Raise e, w1) → (m ≫= f) w = (Raise e, w1).
Proof. intros H. unfold mbind, M_bind. by rewrite H. Qed.

Lemma bind_assoc {A B C} (m : M A) (f : A → M B) (g : B → M C) w :
  ((m ≫= f) ≫= g) w = (m ≫= (λ a, f a ≫= g)) w.
Proof. unfold mbind, M_bind. by destruct (m w) as [[a|e] w1]. Qed.

Lemma bind_ext {A B} (m : M A) (f g : A → M B) w :
  (∀ a w', f a w' = g a w') → (m ≫= f) w = (m ≫= g) w.
Proof.
  intros H. unfold mbind, M_bind. by destruct (m w) as [[a|e] w1].
Qed.

Lemma log_app w tr :
  omap (λ ev, match ev with Log m => Some m | _ => None end) (trace w ++ tr)
  = log w ++ omap (λ ev, match ev with Log m => Some m | _ => None end) tr.
Proof. unfold log. by rewrite omap_app. Qed.

(** ** Numbers *)

(** A sleep that is accepted takes the time asked for. *)
Lemma in_time_range_seconds env q d :
  in_time_range env q = Ok d → (0 <= q)%Q ∧ (seconds d == q)%Q.
Proof.
  unfold in_time_range. destruct (out_of_time_range env q); [done|].
  destruct (Qnum q <? 0)%Z eqn:E; [done|]. intros [= <-].
  apply Z.ltb_ge in E. destruct q as [n den].
  unfold seconds, duration_of, Qle, Qeq. cbn in *.
  rewrite Z2N.id by done. lia.
Qed.

Lemma sleep_length_int env z d :
  sleep_length env (PyInt z) = Ok d →
  (0 ≤ z)%Z ∧ d = whole_seconds (Z.to_N z).
Proof.
  cbn. unfold in_time_range. destruct (out_of_time_range env _); [done|].
  cbn. destruct (z <? 0)%Z eqn:E; [done|]. intros [= <-].
  apply Z.ltb_ge in E. done.
Qed.

Lemma sleep_length_float env f d :
  sleep_length env (PyFloat f) = Ok d →
  ∃ q, float_value f = Some q ∧ (0 <= q)%Q ∧ (seconds d == q)%Q.
Proof.
  destruct f as [s| | |s m e]; cbn; try done; intros H;
    apply in_time_range_seconds in H; by eexists.
Qed.

(** [time.sleep], by what it makes of its argument. *)
Lemma sleep_ok env secs d w :
  sleep_length env secs = Ok d →
  sleep env secs w
  = (Ok tt, {| fs := fs w; trace := trace w ++ [Sleep d]; tick := tick w |}).
Proof. intros H. unfold sleep. by rewrite H. Qed.

Lemma sleep_raise env secs e w :
  sleep_length env secs = Raise e → sleep env secs w = (Raise e, w).
Proof. intros H. unfold sleep. by rewrite H. Qed.

(** The integer part lies between zero and the number. *)
Lemma truncate_bounds q :
  (0 <= q)%Q →
  (inject_Z (truncate q) <= q)%Q ∧ (q < inject_Z (truncate q + 1))%Q.
Proof.
  destruct q as [n den]. unfold truncate, Qle, Qlt. cbn.
  rewrite !Z.mul_1_r. intros Hn.
  rewrite Z.quot_div_nonneg by lia.
  pose proof (Z.mul_div_le n (Z.pos den) ltac:(lia)).
  pose proof (Z.mul_succ_div_gt n (Z.pos den) ltac:(lia)).
  lia.
Qed.

(** The number of the TIMEOUT line: the exact product of two [int]s; with
    a [float] delay, what is left of the rounded product of two doubles. *)
Lemma timeout_seconds_int retries z :
  timeout_seconds retries (PyInt z) = Ok (retries * z)%Z.
Proof. done. Qed.

Lemma timeout_seconds_float retries f t :
  timeout_seconds retries (PyFloat f) = Ok t →
  ∃ r q, float_of_int retries = Ok r
         ∧ float_value (float_mul r f) = Some q
         ∧ t = truncate q.
Proof.
  unfold timeout_seconds, retries_times_delay.
  destruct (float_of_int retries) as [r|e]; [|done]. cbn [int].
  destruct (float_mul r f) as [s| | |s m e] eqn:E; try done; intros [= <-];
    eexists _, _; by rewrite E.
Qed.

(** [0.7] and [0.57] are no doubles; the doubles next to them are a
    little smaller.  Ten sleeps of [0.7] seconds take a little less than
    seven seconds, the product rounds to the double 7 and is reported as 7;
    a hundred sleeps of [0.57] take a little less than 57 seconds, the
    product rounds to a double below 57 and is reported as 56. *)
Lemma timeout_seconds_rounds :
  timeout_seconds 10 (PyFloat (float_ratio 7 10)) = Ok 7%Z
  ∧ (∃ q, float_value (float_ratio 7 10) = Some q ∧ (10 * q < 7)%Q)
  ∧ timeout_seconds 100 (PyFloat (float_ratio 57 100)) = Ok 56%Z
  ∧ (∃ q, float_value (float_ratio 57 100) = Some q ∧ (100 * q < 57)%Q)
  ∧ timeout_seconds 3 (PyFloat (float_ratio 1 2)) = Ok 1%Z.
Proof.
  split; [vm_compute; reflexivity|]. split.
  { eexists. split; [vm_compute; reflexivity|]. vm_compute. reflexivity. }
  split; [vm_compute; reflexivity|]. split.
  { eexists. split; [vm_compute; reflexivity|]. vm_compute. reflexivity. }
  vm_compute. reflexivity.
Qed.

(** ** [wait_for_file_ready] *)

Section wait_facts.
Context (env : environment) (p : Path) (d : duration).

Lemma failed_attempts_quiet n :
  Forall (λ ev, changes_files ev = false) (failed_attempts p d n).
Proof.
  induction n as [|n IH]; [constructor|].
  unfold failed_attempts. cbn. by repeat constructor.
Qed.

Lemma failed_attempts_log n :
  omap (λ ev, match ev with Log m => Some m | _ => None end)
    (failed_attempts p d n) = [].
Proof. induction n as [|n IH]; [done|]. unfold failed_attempts. by cbn. Qed.

Lemma failed_attempts_slept n :
  (slept (failed_attempts p d n) == inject_Z (Z.of_nat n) * seconds d)%Q.
Proof.
  induction n as [|n IH]; [by cbn|].
  unfold failed_attempts. cbn [replicate mjoin list_join app slept foldr].
  fold (slept (mjoin (replicate n [Probe p false; Sleep d]))).
  fold (failed_attempts p d n). rewrite IH.
  rewrite Nat2Z.inj_succ. unfold Z.succ. rewrite inject_Z_plus. ring.
Qed.

(** A file that cannot be opened uses up the whole budget: one probe and one
    sleep per attempt, and the answer is [False]. *)
Lemma wait_loop_never_ready delay n w :
  (0 < n → sleep_length env delay = Ok d) →
  never_ready env w p n →
  wait_loop env p n delay w
  = (Ok false, {| fs := fs w; trace := trace w ++ failed_attempts p d n;
                  tick := tick w + n |}).
Proof.
  revert w. induction n as [|n IH]; intros w Hsleep Hnever.
  - cbn. unfold mret, M_ret. destruct w; cbn.
    by rewrite app_nil_r, Nat.add_0_r.
  - cbn [wait_loop]. unfold CreateFileW. run.
    pose proof (Hnever 0 ltac:(lia)) as H0. rewrite Nat.add_0_r in H0.
    rewrite H0. cbn.
    rewrite (sleep_ok _ _ d) by (apply Hsleep; lia). red_world.
    rewrite IH.
    + cbn. f_equal. f_equal; [|lia].
      unfold failed_attempts. cbn. by rewrite <- !app_assoc.
    + intros _. apply Hsleep. lia.
    + intros i Hi. cbn. specialize (Hnever (S i) ltac:(lia)).
      by replace (S (tick w + i)) with (tick w + S i) by lia.
Qed.

End wait_facts.

(** The probe touches no file; when it answers [True] the path is a
    regular file; it raises what [time.sleep] raises, and nothing when the
    delay is one that [time.sleep] accepts. *)
Lemma wait_loop_run env p delay n w :
  ∃ o tr k,
    wait_loop env p n delay w
    = (o, {| fs := fs w; trace := trace w ++ tr; tick := tick w + k |})
    ∧ Forall (λ ev, probe_or_sleep ev = true) tr
    ∧ k ≤ n
    ∧ (o = Ok true → ∃ data, fs w !! p = Some (File data))
    ∧ (∀ e, o = Raise e → sleep_length env delay = Raise e)
    ∧ (∀ d, sleep_length env delay = Ok d → ∃ b, o = Ok b).
Proof.
  revert w. induction n as [|n IH]; intros w.
  - exists (Ok false), [], 0. cbn. unfold mret, M_ret. destruct w; cbn.
    rewrite app_nil_r, Nat.add_0_r. split; [done|]. split; [done|].
    split; [done|]. split; [done|]. split; [done|].
    intros d _. by eexists.
  - cbn [wait_loop]. unfold CreateFileW. run.
    destruct (exclusive_open env (fs w) p (tick w)) as [|q] eqn:E; cbn.
    + destruct (sleep_length env delay) as [d|e] eqn:Hsleep.
      * rewrite (sleep_ok _ _ d) by done. red_world.
        destruct (IH {| fs := fs w;
                        trace := (trace w ++ [Probe p false]) ++ [Sleep d];
                        tick := S (tick w) |})
          as (o & tr & k & -> & Hq & Hk & Hb & He & Hd).
        exists o, (Probe p false :: Sleep d :: tr), (S k). cbn.
        split; [|split; [by repeat constructor|split; [lia|done]]].
        f_equal. f_equal; [|lia]. by rewrite <- !app_assoc.
      * rewrite (sleep_raise _ _ e) by done.
        exists (Raise e), [Probe p false], 1.
        split; [f_equal; f_equal; lia|]. split; [by repeat constructor|].
        split; [lia|]. split; [done|]. split; [by intros e' [= <-]|done].
    + exists (Ok true), [Probe p true], 1. split; [f_equal; f_equal; lia|].
      split; [by repeat constructor|]. split; [lia|]. split.
      * intros _. unfold exclusive_open in E.
        destruct (fs w !! p) as [[|data]|]; try done. by exists data.
      * split; [done|]. intros d _. by eexists.
Qed.

(** ** [process_zip_file] on a file that is never ready *)

(** Lines 155-156. *)
Lemma timeout_run p retries delay w :
  (product ← returning (retries_times_delay retries delay);
   timeout ← returning (int product);
   logger_info (TIMEOUT p timeout)) w
  = match timeout_seconds retries delay with
    | Ok t => (Ok tt, logged w (TIMEOUT p t))
    | Raise e => (Raise e, w)
    end.
Proof.
  unfold timeout_seconds. run.
  destruct (retries_times_delay retries delay) as [x|e]; [|done].
  by destruct (int x).
Qed.

Lemma process_zip_file_never_ready
    env w p destination todo_file retries delay d :
  (0 < Z.to_nat retries → sleep_length env delay = Ok d) →
  never_ready env w p (Z.to_nat retries) →
  process_zip_file env p destination todo_file retries delay w
  = match timeout_seconds retries delay with
    | Ok t =>
        (Ok tt,
         {| fs := fs w;
            trace := trace w ++ failed_attempts p d (Z.to_nat retries)
                     ++ [Log (TIMEOUT p t)];
            tick := tick w + Z.to_nat retries |})
    | Raise e =>
        (Raise e,
         {| fs := fs w;
            trace := trace w ++ failed_attempts p d (Z.to_nat retries);
            tick := tick w + Z.to_nat retries |})
    end.
Proof.
  intros Hsleep Hnever. unfold process_zip_file, wait_for_file_ready.
  erewrite bind_ok by by apply wait_loop_never_ready.
  cbn [negb]. rewrite timeout_run.
  destruct (timeout_seconds retries delay); [|done].
  unfold logged. cbn. by rewrite <- app_assoc.
Qed.

(** A missing file is never ready, whatever the environment does. *)
Lemma absent_never_ready env w p n :
  fs w !! p = None → never_ready env w p n.
Proof. intros H i _. unfold exclusive_open. by rewrite H. Qed.

(** The first failed attempt, before a delay that [time.sleep] rejects. *)
Lemma process_zip_file_rejected_delay
    env w p destination todo_file retries delay e :
  (0 < retries)%Z →
  exclusive_open env (fs w) p (tick w) = INVALID_HANDLE →
  sleep_length env delay = Raise e →
  process_zip_file env p destination todo_file retries delay w
  = (Raise e, {| fs := fs w; trace := trace w ++ [Probe p false];
                 tick := S (tick w) |}).
Proof.
  intros Hr Hfail Hsleep. unfold process_zip_file, wait_for_file_ready.
  destruct (Z.to_nat retries) as [|n] eqn:E; [lia|].
  cbn [wait_loop]. unfold CreateFileW. run. rewrite Hfail. cbn.
  by rewrite (sleep_raise _ _ e).
Qed.

(** C5, as amended.  A file that cannot be opened exclusively at any attempt
    of the budget is left alone, for a delay that [time.sleep] accepts and a
    product that [int] converts: [process_zip_file] returns normally, the
    file system is unchanged, and its only effects are the failed probes with
    their sleeps, [retries × delay] seconds in all, and one TIMEOUT line.
    The line reports [int(retries * delay)] as the interpreter computes it:
    with an [int] delay the product itself, which is the time slept; with a
    [float] delay the product of two doubles, rounded to a double, without
    its fraction. *)
Theorem process_zip_file_timeout
    env w p destination todo_file retries delay d t :
  never_ready env w p (Z.to_nat retries) →
  sleep_length env delay = Ok d →
  timeout_seconds retries delay = Ok t →
  ∃ w',
    process_zip_file env p destination todo_file retries delay w = (Ok tt, w')
    ∧ fs w' = fs w
    ∧ trace w' = trace w ++ failed_attempts p d (Z.to_nat retries)
                 ++ [Log (TIMEOUT p t)]
    ∧ Forall (λ ev, changes_files ev = false)
        (failed_attempts p d (Z.to_nat retries))
    ∧ log w' = log w ++ [TIMEOUT p t]
    ∧ ((0 ≤ retries)%Z →
       (slept (failed_attempts p d (Z.to_nat retries))
        == inject_Z retries * seconds d)%Q)
    ∧ (∀ z, delay = PyInt z →
            t = (retries * z)%Z
            ∧ ((0 ≤ retries)%Z →
               (slept (failed_attempts p d (Z.to_nat retries))
                == inject_Z t)%Q))
    ∧ (∀ f, delay = PyFloat f →
            ∃ r q s,
              float_of_int retries = Ok r
              ∧ float_value (float_mul r f) = Some q
              ∧ t = truncate q
              ∧ ((0 <= q)%Q →
                 (inject_Z t <= q)%Q ∧ (q < inject_Z (t + 1))%Q)
              ∧ float_value f = Some s
              ∧ (seconds d == s)%Q).
Proof.
  intros Hnever Hsleep Htimeout. eexists.
  split.
  { rewrite (process_zip_file_never_ready _ _ _ _ _ _ _ d) by done.
    by rewrite Htimeout. }
  cbn. split; [done|]. split; [done|].
  split; [apply failed_attempts_quiet|].
  split.
  { unfold log at 1. cbn. rewrite log_app, omap_app, failed_attempts_log.
    done. }
  assert ((0 ≤ retries)%Z →
          (slept (failed_attempts p d (Z.to_nat retries))
           == inject_Z retries * seconds d)%Q) as Hslept.
  { intros Hr. rewrite failed_attempts_slept. by rewrite Z2Nat.id. }
  split; [done|]. split.
  - intros z ->. rewrite timeout_seconds_int in Htimeout.
    injection Htimeout as <-. split; [done|]. intros Hr.
    rewrite (Hslept Hr).
    apply sleep_length_int in Hsleep as [Hz ->].
    unfold seconds, whole_seconds. cbn. rewrite Z2N.id by done.
    rewrite inject_Z_mult. reflexivity.
  - intros f ->.
    apply timeout_seconds_float in Htimeout as (r & q & Hr & Hq & ->).
    apply sleep_length_float in Hsleep as (s & Hs & _ & Hd).
    exists r, q, s. split; [done|]. split; [done|]. split; [done|].
    split; [apply truncate_bounds|done].
Qed.

Lemma process_zip_file_timeout_witness :
  ∃ w', process_zip_file busy_env site_zip destination_folder todo_md
          3 half_second example_world = (Ok tt, w')
        ∧ fs w' = example_fs
        ∧ log w' = [TIMEOUT site_zip 1].
Proof.
  destruct (process_zip_file_timeout busy_env example_world site_zip
              destination_folder todo_md 3 half_second
              {| dur_num := 4503599627370496; dur_den := 9007199254740992 |}
              1%Z)
    as (w' & Hrun & Hfs & _ & _ & Hlog & _).
  - intros i _. unfold exclusive_open.
    assert (fs example_world !! site_zip = Some (File (Zip site_members)))
      as -> by (vm_compute; reflexivity).
    reflexivity.
  - vm_compute. reflexivity.
  - vm_compute. reflexivity.
  - exists w'. split; [exact Hrun|]. split; [exact Hfs|].
    rewrite Hlog. vm_compute. reflexivity.
Defined.

(** C5, as stated, fails: with three attempts half a second apart the
    call sleeps one second and a half, which is [retries × delay], and the
    line reports 1 second. *)
Lemma timeout_report_is_not_the_product :
  never_ready busy_env example_world site_zip (Z.to_nat 3)
  ∧ log (process_zip_file busy_env site_zip destination_folder todo_md
           3 half_second example_world).2 = [TIMEOUT site_zip 1]
  ∧ (slept (trace (process_zip_file busy_env site_zip destination_folder
                     todo_md 3 half_second example_world).2) == 3 # 2)%Q
  ∧ ¬ (inject_Z 1 == 3 # 2)%Q.
Proof.
  split; [|split; [|split]].
  - intros i _. unfold exclusive_open.
    assert (fs example_world !! site_zip = Some (File (Zip site_members)))
      as -> by (vm_compute; reflexivity).
    reflexivity.
  - vm_compute. reflexivity.
  - vm_compute. reflexivity.
  - unfold Qeq. vm_compute. discriminate.
Qed.

(** C7, as amended.  On a path whose file is gone, [process_zip_file]
    changes no file or directory, whatever the delay: all it does is to
    probe and to sleep.  For a delay that [time.sleep] accepts and a product
    that [int] converts it returns normally after probing and sleeping
    through the whole retry budget, and logs one TIMEOUT line. *)
Theorem process_zip_file_absent
    env w p destination todo_file retries delay :
  fs w !! p = None →
  ∃ o w' tr,
    process_zip_file env p destination todo_file retries delay w = (o, w')
    ∧ fs w' = fs w
    ∧ trace w' = trace w ++ tr
    ∧ Forall (λ ev, changes_files ev = false) tr
    ∧ ∀ d t,
        sleep_length env delay = Ok d →
        timeout_seconds retries delay = Ok t →
        o = Ok tt
        ∧ tr = failed_attempts p d (Z.to_nat retries) ++ [Log (TIMEOUT p t)]
        ∧ Forall (λ ev, changes_files ev = false)
            (failed_attempts p d (Z.to_nat retries))
        ∧ log w' = log w ++ [TIMEOUT p t].
Proof.
  intros Habsent.
  destruct (sleep_length env delay) as [d|e] eqn:Hsleep.
  - rewrite (process_zip_file_never_ready _ _ _ _ _ _ _ d)
      by (done || by apply absent_never_ready).
    destruct (timeout_seconds retries delay) as [t|e] eqn:Htimeout.
    + eexists _, _, _. split; [done|]. cbn. split; [done|]. split; [done|].
      split.
      { apply Forall_app. split; [apply failed_attempts_quiet|].
        by repeat constructor. }
      intros d' t' [= <-] [= <-]. split; [done|]. split; [done|].
      split; [apply failed_attempts_quiet|].
      unfold log at 1. cbn. by rewrite log_app, omap_app, failed_attempts_log.
    + eexists _, _, _. split; [done|]. cbn. split; [done|]. split; [done|].
      split; [apply failed_attempts_quiet|]. by intros d' t' _ [=].
  - destruct (decide (0 < retries)%Z) as [Hr|Hr].
    + rewrite (process_zip_file_rejected_delay _ _ _ _ _ _ _ e); [|done| |done].
      * eexists _, _, _. split; [done|]. cbn. split; [done|]. split; [done|].
        split; [by repeat constructor|]. by intros d t [=].
      * unfold exclusive_open. by rewrite Habsent.
    + rewrite (process_zip_file_never_ready _ _ _ _ _ _ _ (whole_seconds 0)).
      2:{ intros H0. lia. }
      2:{ by apply absent_never_ready. }
      destruct (timeout_seconds retries delay) as [t|e'];
        eexists _, _, _; (split; [done|]); cbn; (split; [done|]);
        (split; [done|]); replace (Z.to_nat retries) with 0 by lia; cbn;
        (split; [by repeat constructor|]); by intros d t' [=].
Qed.

Lemma process_zip_file_absent_witness :
  ∃ w', process_zip_file quiet_env site_zip destination_folder todo_md
          30 two_seconds after_first_run = (Ok tt, w')
        ∧ fs w' = fs after_first_run
        ∧ log w' = log after_first_run ++ [TIMEOUT site_zip 60].
Proof.
  destruct (process_zip_file_absent quiet_env after_first_run site_zip
              destination_folder todo_md 30 two_seconds)
    as (o & w' & tr & Hrun & Hfs & _ & _ & Hvalid).
  - vm_compute. reflexivity.
  - destruct (Hvalid (whole_seconds 2) 60%Z) as (-> & _ & _ & Hlog);
      [vm_compute; reflexivity..|].
    exists w'. split; [exact Hrun|]. split; [exact Hfs|]. exact Hlog.
Defined.

(** C7, as stated, fails.  After a first run has extracted and deleted
    [site.zip], a second run on the same path is not without effect: it
    probes and sleeps through the whole budget, sixty seconds here, and adds
    a TIMEOUT line to the log. *)
Lemma second_run_is_not_a_no_op :
  fs after_first_run !! site_zip = None
  ∧ (process_zip_file quiet_env site_zip destination_folder todo_md
       30 two_seconds after_first_run).2 ≠ after_first_run
  ∧ log after_first_run
    = [EXTRACTED site_zip ["C:"; "Dev"; "site_2"]; DELETED site_zip;
       TODO "site_2"]
  ∧ log (process_zip_file quiet_env site_zip destination_folder todo_md
           30 two_seconds after_first_run).2
    = [EXTRACTED site_zip ["C:"; "Dev"; "site_2"]; DELETED site_zip;
       TODO "site_2"; TIMEOUT site_zip 60].
Proof.
  split; [vm_compute; reflexivity|]. split.
  - intros H. apply (f_equal (λ w, length (trace w))) in H.
    vm_compute in H. discriminate.
  - split; vm_compute; reflexivity.
Qed.

(** ** What leaves [process_zip_file] *)

(** The call, by the outcome of the probe. *)
Lemma process_zip_file_by_probe env w p destination todo_file retries delay :
  ∃ o w1 tr0,
    wait_for_file_ready env p retries delay w = (o, w1)
    ∧ fs w1 = fs w
    ∧ trace w1 = trace w ++ tr0
    ∧ Forall (λ ev, probe_or_sleep ev = true) tr0
    ∧ (∀ e, o = Raise e → sleep_length env delay = Raise e)
    ∧ (∀ d, sleep_length env delay = Ok d → ∃ b, o = Ok b)
    ∧ process_zip_file env p destination todo_file retries delay w
      = match o with
        | Ok true =>
            match try_block env p destination todo_file w1 with
            | (Ok _, w2) => (Ok tt, w2)
            | (Raise e, w2) => (Ok tt, logged w2 (ERROR p e))
            end
        | Ok false =>
            match timeout_seconds retries delay with
            | Ok t => (Ok tt, logged w1 (TIMEOUT p t))
            | Raise e => (Raise e, w1)
            end
        | Raise e => (Raise e, w1)
        end.
Proof.
  unfold process_zip_file, wait_for_file_ready.
  destruct (wait_loop_run env p delay (Z.to_nat retries) w)
    as (o & tr0 & k & Hwait & Htr0 & _ & _ & He & Hd).
  eexists o, _, tr0. split; [exact Hwait|]. cbn [fs trace].
  split; [done|]. split; [done|]. split; [done|]. split; [done|].
  split; [done|].
  destruct o as [[]|e].
  - erewrite bind_ok by exact Hwait. cbn [negb]. unfold try_except.
    by destruct (try_block env p destination todo_file _) as [[[]|e] w2].
  - erewrite bind_ok by exact Hwait. cbn [negb]. apply timeout_run.
  - by erewrite bind_raise by exact Hwait.
Qed.

Lemma log_of_probes tr :
  Forall (λ ev, probe_or_sleep ev = true) tr →
  omap (λ ev, match ev with Log m => Some m | _ => None end) tr = [].
Proof.
  induction 1 as [|ev tr Hev _ IH]; [done|]. cbn. rewrite IH. by destruct ev.
Qed.

(** C4, as amended.  [process_zip_file] returns normally whenever the
    delay is one that [time.sleep] accepts and [int] converts the product of
    the retry count and the delay: an exception of the [try] block is caught
    and logged in an ERROR line with the exception.  An exception that does
    leave the call is that of [time.sleep] or that of the conversion, and it
    leaves before any file is touched and any line is logged. *)
Theorem process_zip_file_never_raises
    env w p destination todo_file retries delay :
  (∀ d t,
     sleep_length env delay = Ok d →
     timeout_seconds retries delay = Ok t →
     ∃ w',
       process_zip_file env p destination todo_file retries delay w
       = (Ok tt, w')
       ∧ ∀ w1 e w2,
           wait_for_file_ready env p retries delay w = (Ok true, w1) →
           try_block env p destination todo_file w1 = (Raise e, w2) →
           w' = {| fs := fs w2; trace := trace w2 ++ [Log (ERROR p e)];
                   tick := tick w2 |})
  ∧ (∀ e w',
       process_zip_file env p destination todo_file retries delay w
       = (Raise e, w') →
       (sleep_length env delay = Raise e
        ∨ timeout_seconds retries delay = Raise e)
       ∧ fs w' = fs w
       ∧ log w' = log w).
Proof.
  destruct (process_zip_file_by_probe env w p destination todo_file retries
              delay)
    as (o & w1 & tr0 & Hwait & Hfs1 & Htr1 & Hq0 & He & Hd & ->).
  assert (log w1 = log w) as Hlog1.
  { unfold log at 1. by rewrite Htr1, log_app, log_of_probes, app_nil_r. }
  split.
  - intros d t Hsleep Htimeout. destruct (Hd d Hsleep) as [b ->].
    rewrite Htimeout. destruct b.
    + destruct (try_block env p destination todo_file w1) as [[[]|e] w2]
        eqn:Hbody.
      * eexists. split; [done|]. intros w1' e w2'. rewrite Hwait.
        intros [= <-]. by rewrite Hbody.
      * eexists. split; [done|]. intros w1' e' w2'. rewrite Hwait.
        intros [= <-]. rewrite Hbody. by intros [= <- <-].
    + eexists. split; [done|]. intros w1' e w2'. by rewrite Hwait.
  - intros e w'. destruct o as [[]|e'].
    + by destruct (try_block env p destination todo_file w1) as [[[]|e''] w2].
    + destruct (timeout_seconds retries delay) as [t|e'']; [done|].
      intros [= <- <-]. split; [by right|done].
    + intros [= <- <-]. split; [left; by apply He|done].
Qed.

Lemma process_zip_file_never_raises_witness :
  ∃ w', process_zip_file quiet_env broken_zip destination_folder todo_md
          30 two_seconds example_world = (Ok tt, w')
        ∧ log w' = [ERROR broken_zip BadZipFile].
Proof.
  destruct (process_zip_file_never_raises quiet_env example_world broken_zip
              destination_folder todo_md 30 two_seconds)
    as [Hreturns _].
  destruct (Hreturns (whole_seconds 2) 60%Z) as (w' & Hrun & Hcaught);
    [vm_compute; reflexivity..|].
  exists w'. split; [exact Hrun|].
  erewrite Hcaught; [|vm_compute; reflexivity|vm_compute; reflexivity].
  vm_compute. reflexivity.
Defined.

(** C4, as stated, fails.  With a negative delay in the configuration the
    first failed probe is followed by a [time.sleep] that raises
    [ValueError], and the exception leaves [process_zip_file]: line 116 is
    not inside the [try] statement.  Neither is line 155: with no attempt
    to make and a product beyond the doubles, [int] raises
    [OverflowError]. *)
Lemma process_zip_file_raises :
  process_zip_file busy_env site_zip destination_folder todo_md
    30 (PyInt (-2)) example_world
  = (Raise ValueError,
     {| fs := example_fs; trace := [Probe site_zip false]; tick := 1 |})
  ∧ process_zip_file quiet_env site_zip destination_folder todo_md
      (-2) (PyFloat (nearest_float (10 ^ 308))) example_world
    = (Raise OverflowError, example_world).
Proof. split; vm_compute; reflexivity. Qed.

(** ** Strings *)

Lemma string_app_assoc (a b c : string) : (a +:+ b) +:+ c = a +:+ b +:+ c.
Proof.
  induction a as [|x a IH]; [done|].
  change (String x ((a +:+ b) +:+ c) = String x (a +:+ b +:+ c)).
  by rewrite IH.
Qed.

Lemma string_app_nil_r (a : string) : a +:+ "" = a.
Proof.
  induction a as [|x a IH]; [done|].
  change (String x (a +:+ "") = String x a). by rewrite IH.
Qed.

Lemma string_app_nil_l (a : string) : "" +:+ a = a.
Proof. done. Qed.

Lemma string_app_cons (x : ascii) (a b : string) :
  String x a +:+ b = String x (a +:+ b).
Proof. done. Qed.

Ltac str := rewrite ?string_app_nil_l, ?string_app_cons in *.

Lemma ascii_eqb_true (a b : ascii) : Ascii.eqb a b = true ↔ a = b.
Proof. apply Ascii.eqb_eq. Qed.

(** ** The heading pattern *)

Lemma re_match_dotstar_unfold re s :
  re_match (DotStar :: re) s
  = re_match re s
    || match s with
       | String c s' => negb (Ascii.eqb c LF) && re_match (DotStar :: re) s'
       | "" => false
       end.
Proof. by destruct s. Qed.

(** Literals match themselves and nothing else. *)
Lemma re_match_escape x re s :
  re_match (re_escape x ++ re) s = true
  ↔ ∃ t, s = x +:+ t ∧ re_match re t = true.
Proof.
  revert s. induction x as [|c x IH]; intros s; cbn; str.
  - split; [intros H; by exists s|by intros (t & -> & H)].
  - destruct s as [|c' s]; cbn.
    + split; [done|by intros (t & ? & _)].
    + rewrite andb_true_iff, ascii_eqb_true, IH. split.
      * intros (-> & t & -> & H). by exists t.
      * intros (t & [= -> ->] & H). split; [done|by exists t].
Qed.

(** [.*] takes any run of characters without a line feed. *)
Lemma re_match_dotstar re s :
  re_match (DotStar :: re) s = true
  ↔ ∃ u t, s = u +:+ t ∧ no_LF u = true ∧ re_match re t = true.
Proof.
  induction s as [|c s IH]; rewrite re_match_dotstar_unfold.
  - rewrite orb_false_r. split.
    + intros H. by exists "", "".
    + intros (u & t & Hs & _ & H). destruct u; [|done]. str. by subst t.
  - rewrite orb_true_iff, andb_true_iff, IH. split.
    + intros [H|(Hc & u & t & -> & Hu & H)].
      * by exists "", (String c s).
      * exists (String c u), t. cbn. str. by rewrite Hc, Hu.
    + intros (u & t & Hs & Hu & H). destruct u as [|c' u]; str.
      * left. by subst t.
      * right. injection Hs as -> ->. cbn in Hu.
        apply andb_true_iff in Hu as [Hc Hu]. split; [done|by exists u, t].
Qed.

(** The end of the pattern: an optional slash and the closing parenthesis. *)
Lemma re_match_slash_paren s :
  re_match [Opt "/"%char; Lit ")"%char] s = true
  ↔ ∃ slash after, s = slash +:+ ")" +:+ after ∧ (slash = "" ∨ slash = "/").
Proof.
  split.
  - destruct s as [|c s]; cbn [re_match]; [done|].
    rewrite orb_true_iff, !andb_true_iff, !ascii_eqb_true.
    intros [[<- H]|[<- _]].
    + destruct s as [|c' s]; [done|]. cbn [re_match] in H.
      rewrite andb_true_r in H. apply ascii_eqb_true in H as <-.
      exists "/", s. by split; [|right].
    + exists "", s. by split; [|left].
  - intros (slash & after & -> & [-> | ->]); str; by vm_compute.
Qed.

Lemma re_match_heading_pattern folder_name s :
  re_match (heading_pattern folder_name) s = true
  ↔ ∃ text slash after,
      s = "## [" +:+ text +:+ "](" +:+ folder_name +:+ slash +:+ ")" +:+ after
      ∧ no_LF text = true ∧ (slash = "" ∨ slash = "/").
Proof.
  unfold heading_pattern. rewrite re_match_escape. split.
  - intros (t1 & -> & H). change ([DotStar] ++ ?l) with (DotStar :: l) in H.
    apply re_match_dotstar in H as (text & t2 & -> & Htext & H).
    apply re_match_escape in H as (t3 & -> & H).
    apply re_match_escape in H as (t4 & -> & H).
    apply re_match_slash_paren in H as (slash & after & -> & Hslash).
    by exists text, slash, after.
  - intros (text & slash & after & -> & Htext & Hslash).
    eexists. split; [done|]. change ([DotStar] ++ ?l) with (DotStar :: l).
    apply re_match_dotstar. exists text. eexists. split; [done|].
    split; [done|]. apply re_match_escape. eexists. split; [done|].
    apply re_match_escape. eexists. split; [done|].
    apply re_match_slash_paren. by exists slash, after.
Qed.

(** The search tries the pattern at the start of the text and after every
    line feed. *)
Lemma re_search_from_spec re bol s :
  re_search_from re bol s = true
  ↔ (bol = true ∧ re_match re s = true)
    ∨ ∃ b t, s = b +:+ nl +:+ t ∧ re_match re t = true.
Proof.
  revert bol. induction s as [|c s IH]; intros bol; cbn [re_search_from].
  - rewrite orb_false_r, andb_true_iff. split; [by left|].
    intros [H|(b & t & Hs & _)]; [done|]. by destruct b.
  - rewrite orb_true_iff, andb_true_iff, IH. split.
    + intros [H|[[Hc H]|(b & t & -> & H)]].
      * by left.
      * right. apply ascii_eqb_true in Hc as ->. by exists "", s.
      * right. by exists (String c b), t.
    + intros [H|(b & t & Hs & H)]; [by left|]. right.
      destruct b as [|c' b]; str.
      * injection Hs as -> ->. left. split; [|done]. by apply ascii_eqb_true.
      * injection Hs as -> ->. right. by exists b, t.
Qed.

(** The check of [add_todo_entry] succeeds exactly on the texts with a
    heading line for the name. *)
Lemma re_search_heading folder_name content :
  re_search (heading_pattern folder_name) content = true
  ↔ heading_line_for folder_name content.
Proof.
  unfold re_search, heading_line_for.
  rewrite re_search_from_spec. split.
  - intros [[_ H]|(b & t & -> & H)];
      apply re_match_heading_pattern in H
        as (text & slash & after & -> & Htext & Hslash).
    + exists "", text, slash, after. by split; [|split; [left|]].
    + exists (b +:+ nl), text, slash, after.
      rewrite string_app_assoc. split; [done|]. split; [right; by exists b|done].
  - intros (before & text & slash & after & -> & Hbefore & Htext & Hslash).
    assert (re_match (heading_pattern folder_name)
              ("## [" +:+ text +:+ "](" +:+ folder_name +:+ slash +:+ ")" +:+ after)
            = true) as Hm.
    { apply re_match_heading_pattern. by exists text, slash, after. }
    destruct Hbefore as [->|(b & ->)].
    + by left.
    + right. exists b. eexists. split; [|exact Hm]. by rewrite string_app_assoc.
Qed.

(** The entry that [add_todo_entry] writes is found by its own check. *)
Lemma entry_is_found folder_name content :
  no_LF folder_name = true →
  re_search (heading_pattern folder_name) (content +:+ entry folder_name) = true.
Proof.
  intros Hname. apply re_search_heading.
  exists (content +:+ nl), folder_name, "/", (nl +:+ checklist +:+ nl).
  split; [|split; [right; by exists content|by split; [|right]]].
  unfold entry, heading. by rewrite !string_app_assoc.
Qed.

(** ** [add_todo_entry] *)

Lemma exists__Some (files : gmap Path node) p x :
  files !! p = Some x → exists_ files p = true.
Proof. intros H. apply exists_true. by exists x. Qed.

(** The function, case by case. *)
Lemma add_todo_entry_unfold env todo_file folder_name w :
  add_todo_entry env todo_file folder_name w
  = match fs w !! todo_file with
    | None => (Ok tt, w)
    | Some node =>
        let w1 := {| fs := fs w; trace := trace w; tick := S (tick w) |} in
        match io_error env (tick w) with
        | Some e => (Raise e, w1)
        | None =>
            match node with
            | Dir => (Raise PermissionError, w1)
            | File (Text content) =>
                if re_search (heading_pattern folder_name) content
                then (Ok tt, w1)
                else
                  match io_error env (S (tick w)) with
                  | Some e =>
                      (Raise e, {| fs := fs w; trace := trace w;
                                   tick := S (S (tick w)) |})
                  | None =>
                      (Ok tt,
                       {| fs := <[todo_file :=
                                    File (Text (content +:+ entry folder_name))]>
                                  (fs w);
                          trace := trace w ++ [Append todo_file (entry folder_name);
                                               Log (TODO folder_name)];
                          tick := S (S (tick w)) |})
                  end
            | File _ => (Raise UnicodeDecodeError, w1)
            end
        end
    end.
Proof.
  unfold add_todo_entry, read_text, append_text, syscall. run.
  destruct (fs w !! todo_file) as [node|] eqn:Hnode.
  - rewrite (exists__Some _ _ _ Hnode). cbn.
    destruct (io_error env (tick w)); cbn; [done|].
    rewrite Hnode. destruct node as [|[content| |]]; cbn; try done.
    destruct (re_search _ content); cbn; [done|].
    destruct (io_error env (S (tick w))); cbn; [done|].
    rewrite Hnode. cbn. by rewrite <- app_assoc.
  - rewrite (proj2 (exists_false _ _) Hnode). cbn. by destruct w.
Qed.

(** C10.  The check of [add_todo_entry] looks at the link target of the
    headings only: on a readable task document the append is suppressed
    exactly when, at the start of some line, the text reads
    [## [<any text>](<name>)] or [## [<any text>](<name>/)] with the name
    taken literally. *)
Theorem add_todo_entry_keyed_on_link_target
    env w todo_file folder_name content :
  no_io_errors env →
  fs w !! todo_file = Some (File (Text content)) →
  (re_search (heading_pattern folder_name) content = true
   ↔ heading_line_for folder_name content)
  ∧ (heading_line_for folder_name content →
     add_todo_entry env todo_file folder_name w
     = (Ok tt, {| fs := fs w; trace := trace w; tick := S (tick w) |}))
  ∧ (¬ heading_line_for folder_name content →
     add_todo_entry env todo_file folder_name w
     = (Ok tt,
        {| fs := <[todo_file := File (Text (content +:+ entry folder_name))]>
                   (fs w);
           trace := trace w ++ [Append todo_file (entry folder_name);
                                Log (TODO folder_name)];
           tick := S (S (tick w)) |})).
Proof.
  intros Hio Hdoc. split; [apply re_search_heading|].
  rewrite add_todo_entry_unfold, Hdoc, !Hio. red_world.
  split; intros H.
  - apply re_search_heading in H. by rewrite H.
  - destruct (re_search _ content) eqn:E; [|done].
    by apply re_search_heading in E.
Qed.

(** C6.  For a name without line feed: when the task document does not
    exist the call changes nothing at all; a call that returns appended
    nothing or exactly one entry; and a second call with the same name then
    leaves the file system and the trace as they are. *)
Theorem add_todo_entry_idempotent env w todo_file folder_name :
  no_LF folder_name = true →
  (fs w !! todo_file = None →
   add_todo_entry env todo_file folder_name w = (Ok tt, w))
  ∧ ∀ w1,
      add_todo_entry env todo_file folder_name w = (Ok tt, w1) →
      (fs w1 = fs w ∧ trace w1 = trace w
       ∨ ∃ content,
           fs w !! todo_file = Some (File (Text content))
           ∧ fs w1 = <[todo_file := File (Text (content +:+ entry folder_name))]>
                       (fs w)
           ∧ trace w1 = trace w ++ [Append todo_file (entry folder_name);
                                    Log (TODO folder_name)])
      ∧ fs (add_todo_entry env todo_file folder_name w1).2 = fs w1
      ∧ trace (add_todo_entry env todo_file folder_name w1).2 = trace w1.
Proof.
  intros Hname. split.
  { intros Hnone. by rewrite add_todo_entry_unfold, Hnone. }
  intros w1. rewrite add_todo_entry_unfold.
  destruct (fs w !! todo_file) as [node|] eqn:Hnode.
  2:{ intros [= <-]. split; [by left|].
      by rewrite add_todo_entry_unfold, Hnode. }
  red_world. destruct (io_error env (tick w)); [done|].
  destruct node as [|[content| |]]; try done.
  destruct (re_search _ content) eqn:Hfound.
  - intros [= <-]. red_world. split; [by left|].
    rewrite add_todo_entry_unfold. red_world. rewrite Hnode.
    destruct (io_error env (S (tick w))); [done|]. by rewrite Hfound.
  - destruct (io_error env (S (tick w))); [done|].
    intros [= <-]. red_world. split; [right; by exists content|].
    rewrite add_todo_entry_unfold. red_world. rewrite lookup_insert_eq.
    destruct (io_error env (S (S (tick w)))); [done|].
    by rewrite entry_is_found.
Qed.

Lemma add_todo_entry_keyed_on_link_target_witness :
  add_todo_entry quiet_env todo_md "site" listed_world
  = (Ok tt, {| fs := fs listed_world; trace := trace listed_world;
               tick := S (tick listed_world) |}).
Proof.
  destruct (add_todo_entry_keyed_on_link_target quiet_env listed_world
              todo_md "site" listed_todo) as (Hiff & Hsuppressed & _).
  - intros t. reflexivity.
  - vm_compute. reflexivity.
  - apply Hsuppressed, Hiff. vm_compute. reflexivity.
Defined.

Lemma add_todo_entry_idempotent_witness :
  fs (add_todo_entry quiet_env todo_md "site_2"
        (add_todo_entry quiet_env todo_md "site_2" example_world).2).2
  = fs (add_todo_entry quiet_env todo_md "site_2" example_world).2.
Proof.
  destruct (add_todo_entry_idempotent quiet_env example_world todo_md "site_2")
    as [_ Hsecond].
  - vm_compute. reflexivity.
  - destruct (Hsecond (add_todo_entry quiet_env todo_md "site_2"
                         example_world).2) as (_ & Hfs & _).
    + vm_compute. reflexivity.
    + exact Hfs.
Defined.

(** ** The shape of an entry *)

Lemma lines_nonempty s : ∃ l ls, lines s = l :: ls.
Proof.
  induction s as [|c s (l & ls & IH)]; cbn [lines]; [by eexists _, _|].
  destruct (Ascii.eqb c LF); [by eexists _, _|].
  rewrite IH. by eexists _, _.
Qed.

Lemma lines_app_nl a b : lines (a +:+ nl +:+ b) = lines a ++ lines b.
Proof.
  induction a as [|c a IH]; unfold nl in *; str; cbn [lines].
  - by rewrite Ascii.eqb_refl.
  - destruct (Ascii.eqb c LF); [by rewrite IH|].
    rewrite IH. by destruct (lines_nonempty a) as (l & ls & ->).
Qed.

Lemma lines_no_LF h : no_LF h = true → lines h = [h].
Proof.
  induction h as [|c h IH]; [done|]. cbn [no_LF lines].
  intros [Hc Hh]%andb_true_iff. apply negb_true_iff in Hc as ->.
  by rewrite IH.
Qed.

Lemma no_LF_app a b : no_LF (a +:+ b) = no_LF a && no_LF b.
Proof.
  induction a as [|c a IH]; str; [done|]. cbn [no_LF].
  by rewrite IH, andb_assoc.
Qed.

Lemma no_LF_heading folder_name :
  no_LF folder_name = true → no_LF (heading folder_name) = true.
Proof.
  intros H. unfold heading. rewrite !no_LF_app, H. by vm_compute.
Qed.

Lemma blank_line_before_app h pre post :
  blank_line_before h (pre ++ "" :: h :: post) = true.
Proof.
  induction pre as [|l pre IH].
  - cbn [app blank_line_before]. by rewrite !String.eqb_refl.
  - change ((l :: pre) ++ ?r) with (l :: (pre ++ r)).
    cbn [blank_line_before].
    destruct (pre ++ "" :: h :: post) eqn:E; [by destruct pre|].
    rewrite IH. apply orb_true_r.
Qed.

(** The lines of the document after an append: the lines it had, then the
    heading line and the checklist line. *)
Lemma lines_after_entry folder_name content :
  no_LF folder_name = true →
  lines (content +:+ entry folder_name)
  = lines content ++ [heading folder_name; checklist; ""].
Proof.
  intros H. unfold entry.
  rewrite <- (string_app_nil_r (checklist +:+ nl)), string_app_assoc.
  rewrite !lines_app_nl.
  rewrite (lines_no_LF (heading folder_name)) by by apply no_LF_heading.
  by rewrite (lines_no_LF checklist) by by vm_compute.
Qed.

(** C9, as amended.  Whenever [add_todo_entry] appends, what it appends is
    exactly a line feed, the heading line [## [<name>](<name>/)], the
    checklist line, each ended by a line feed.  For a name without line feed
    the document gains these two lines after the lines it had; a blank line
    comes before the heading when the document was empty or ended with a
    line feed. *)
Theorem add_todo_entry_appends_two_lines
    env w todo_file folder_name content :
  fs w !! todo_file = Some (File (Text content)) →
  re_search (heading_pattern folder_name) content = false →
  io_error env (tick w) = None →
  io_error env (S (tick w)) = None →
  ∃ w',
    add_todo_entry env todo_file folder_name w = (Ok tt, w')
    ∧ fs w' = <[todo_file :=
                  File (Text (content +:+ nl
                              +:+ ("## [" +:+ folder_name +:+ "]("
                                   +:+ folder_name +:+ "/)") +:+ nl
                              +:+ "- [ ] Review and determine next steps"
                              +:+ nl))]> (fs w)
    ∧ trace w' = trace w ++ [Append todo_file (entry folder_name);
                             Log (TODO folder_name)]
    ∧ (no_LF folder_name = true →
       lines (content +:+ entry folder_name)
       = lines content ++ [heading folder_name; checklist; ""])
    ∧ (no_LF folder_name = true →
       content = "" ∨ (∃ c, content = c +:+ nl) →
       blank_line_before (heading folder_name)
         (lines (content +:+ entry folder_name)) = true).
Proof.
  intros Hdoc Hnew Hio1 Hio2. eexists.
  rewrite add_todo_entry_unfold, Hdoc. red_world.
  rewrite Hio1, Hnew, Hio2. split; [done|]. red_world.
  split; [done|]. split; [done|].
  split; [apply lines_after_entry|].
  intros Hname Hend. rewrite lines_after_entry by done.
  destruct Hend as [->|(c & ->)].
  - apply (blank_line_before_app _ []).
  - rewrite <- (string_app_nil_r (c +:+ nl)), string_app_assoc, lines_app_nl.
    cbn [lines]. rewrite <- app_assoc. apply blank_line_before_app.
Qed.

Lemma add_todo_entry_appends_two_lines_witness :
  ∃ w',
    add_todo_entry quiet_env todo_md "site_2" example_world = (Ok tt, w')
    ∧ lines ("# Projects" +:+ entry "site_2")
      = ["# Projects"; "## [site_2](site_2/)";
         "- [ ] Review and determine next steps"; ""].
Proof.
  destruct (add_todo_entry_appends_two_lines quiet_env example_world todo_md
              "site_2" "# Projects")
    as (w' & Hrun & _ & _ & Hlines & _);
    [vm_compute; reflexivity..|].
  exists w'. split; [exact Hrun|]. rewrite Hlines by reflexivity.
  vm_compute. reflexivity.
Defined.

(** C9, as stated, fails: on a document that does not end with a line feed
    the line feed written first only ends the last line, and the heading
    comes right after that line, with no blank line between. *)
Lemma entry_not_preceded_by_blank_line :
  fs example_world !! todo_md = Some (File (Text "# Projects"))
  ∧ fs (add_todo_entry quiet_env todo_md "site_2" example_world).2 !! todo_md
    = Some (File (Text ("# Projects" +:+ entry "site_2")))
  ∧ lines ("# Projects" +:+ entry "site_2")
    = ["# Projects"; heading "site_2"; checklist; ""]
  ∧ blank_line_before (heading "site_2")
      (lines ("# Projects" +:+ entry "site_2")) = false.
Proof. repeat split; vm_compute; reflexivity. Qed.

(** ** The file system as a tree *)

Lemma parent_joinpath q c : parent (q // c) = q.
Proof. unfold parent, joinpath. apply removelast_last. Qed.

Lemma name_joinpath q c : name (q // c) = c.
Proof. unfold name, joinpath. apply last_last. Qed.

Lemma joinpath_not_nil q c : q // c ≠ [].
Proof. unfold joinpath. by destruct q. Qed.

(** Above an entry of a tree there are directories only. *)
Lemma tree_ancestors (files : gmap Path node) q r :
  tree files → is_Some (files !! (q ++ r)) → q ≠ [] → r ≠ [] →
  files !! q = Some Dir.
Proof.
  intros Htree. induction r as [|c r IH] using rev_ind; [done|].
  intros [x Hx] Hq _. rewrite app_assoc in Hx.
  apply Htree in Hx. cbn in Hx.
  change ((q ++ r) ++ [c]) with ((q ++ r) // c) in Hx.
  rewrite parent_joinpath in Hx. destruct Hx as [Hx|Hx].
  - by destruct q.
  - destruct r as [|c' r]; [by rewrite app_nil_r in Hx|].
    apply IH; [by eexists|done|done].
Qed.

(** A free path is not above an entry, nor an entry itself. *)
Lemma free_not_above (files : gmap Path node) target q a :
  tree files → files !! target = None → target ≠ [] →
  is_Some (files !! q) → q ≠ target ++ a.
Proof.
  intros Htree Hfree Hne Hq ->. destruct a as [|c a].
  - rewrite app_nil_r in Hq. rewrite Hfree in Hq. by destruct Hq.
  - by rewrite (tree_ancestors files target (c :: a)) in Hfree.
Qed.

(** ** [mkdir] *)

Lemma mkdirs_app above l1 l2 w :
  mkdirs above (l1 ++ l2) w
  = (mkdirs above l1;; mkdirs (above ++ l1) l2) w.
Proof.
  revert above w. induction l1 as [|c l1 IH]; intros above w.
  - cbn. unfold mbind, M_bind, mret, M_ret. by rewrite app_nil_r.
  - cbn [app mkdirs]. rewrite bind_assoc. apply bind_ext. intros node w'.
    rewrite bind_assoc. apply bind_ext. intros [] w''.
    rewrite IH. unfold joinpath. by rewrite <- app_assoc.
Qed.

(** Where every directory exists already, nothing is done. *)
Lemma mkdirs_existing above below w :
  (∀ l1 l2, below = l1 ++ l2 → l1 ≠ [] → fs w !! (above ++ l1) = Some Dir) →
  mkdirs above below w = (Ok tt, w).
Proof.
  revert above. induction below as [|c below IH]; intros above H; [done|].
  cbn [mkdirs]. run. unfold joinpath.
  rewrite (H [c] below) by done. cbn.
  apply IH. intros l1 l2 -> Hl1. rewrite <- app_assoc. by apply (H (c :: l1) l2).
Qed.

(** Below an existing directory of a tree, [mkdir] creates the one missing
    directory. *)
Lemma mkdir_below_directory env w destination c :
  io_error env (tick w) = None →
  tree (fs w) → fs w !! destination = Some Dir →
  fs w !! (destination // c) = None →
  mkdir env (destination // c) w
  = (Ok tt, {| fs := <[destination // c := Dir]> (fs w);
               trace := trace w ++ [Mkdir (destination // c)];
               tick := S (tick w) |}).
Proof.
  intros Hio Htree Hdest Hfree. unfold mkdir, syscall. run. rewrite Hio. cbn.
  unfold joinpath at 1. rewrite mkdirs_app. erewrite bind_ok; cycle 1.
  { apply mkdirs_existing. intros l1 l2 -> Hl1. cbn [fs app].
    destruct l2 as [|c' l2]; [by rewrite app_nil_r in Hdest|].
    apply (tree_ancestors _ l1 (c' :: l2)); [done|by eexists|done|done]. }
  cbn [mkdirs]. run. fold (destination // c). by rewrite Hfree.
Qed.

(** [mkdir] changes no existing entry, and only makes directories. *)
Lemma mkdirs_effects above below w o w' :
  mkdirs above below w = (o, w') →
  tick w' = tick w
  ∧ (∀ q, is_Some (fs w !! q) → fs w' !! q = fs w !! q)
  ∧ ∃ tr, trace w' = trace w ++ tr
          ∧ Forall (λ ev, mkdir_or_write ev = true) tr.
Proof.
  revert above w. induction below as [|c below IH]; intros above w.
  - intros [= <- <-]. split; [done|]. split; [done|].
    exists []. by rewrite app_nil_r.
  - cbn [mkdirs]. run.
    destruct (fs w !! (above // c)) as [[|data]|] eqn:E; cbn.
    + apply IH.
    + intros [= <- <-]. split; [done|]. split; [done|].
      exists []. by rewrite app_nil_r.
    + intros H. apply IH in H as (Htick & Hfs & tr & Htr & Hquiet). cbn in *.
      split; [done|]. split.
      * intros q Hq. rewrite Hfs.
        -- apply lookup_insert_ne. intros <-. rewrite E in Hq. by destruct Hq.
        -- rewrite lookup_insert_ne; [done|].
           intros <-. rewrite E in Hq. by destruct Hq.
      * exists (Mkdir (above // c) :: tr). rewrite Htr, <- app_assoc.
        split; [done|]. by constructor.
Qed.

Lemma mkdir_effects env p w o w' :
  mkdir env p w = (o, w') →
  (∀ q, is_Some (fs w !! q) → fs w' !! q = fs w !! q)
  ∧ ∃ tr, trace w' = trace w ++ tr
          ∧ Forall (λ ev, mkdir_or_write ev = true) tr.
Proof.
  unfold mkdir, syscall. run. destruct (io_error env (tick w)); cbn.
  - intros [= <- <-]. split; [done|]. exists []. by rewrite app_nil_r.
  - intros H. by apply mkdirs_effects in H as (_ & Hfs & Htr).
Qed.

(** ** [extractall] *)

Lemma extracted_other target files ms q :
  (∀ a, q ≠ target ++ a) → extracted target files ms !! q = files !! q.
Proof.
  intros Hq. revert files. induction ms as [|m ms IH]; intros files; [done|].
  cbn. unfold extracted in IH. rewrite IH.
  destruct m as [a d|a]; [|done]. by rewrite lookup_insert_ne.
Qed.

Lemma extracted_not_member target files ms a :
  a ∉ arcname_of <$> ms →
  extracted target files ms !! (target ++ a) = files !! (target ++ a).
Proof.
  revert files. induction ms as [|m ms IH]; intros files Ha; [done|].
  cbn in *. apply not_elem_of_cons in Ha as [Hm Ha].
  unfold extracted in IH. rewrite IH by done.
  destruct m as [a' d|a']; [|done]. cbn in Hm.
  rewrite lookup_insert_ne; [done|]. intros H. by simplify_list_eq.
Qed.

(** Every member of an archive without repeated names is found below the
    target, at its own relative path, with its own data. *)
Lemma extracted_member target files ms a d :
  NoDup (arcname_of <$> ms) → Member a d ∈ ms →
  extracted target files ms !! (target ++ a) = Some (File (Text d)).
Proof.
  revert files. induction ms as [|m ms IH]; intros files Hnd Hin.
  - by apply elem_of_nil in Hin.
  - cbn in Hnd. apply NoDup_cons in Hnd as [Hm Hnd].
    apply elem_of_cons in Hin as [<-|Hin].
    + cbn. fold (extracted target (<[target ++ a:=File (Text d)]> files) ms).
      rewrite extracted_not_member by done. apply lookup_insert_eq.
    + cbn. unfold extracted in IH. by apply IH.
Qed.

(** Without I/O errors, an archive whose members are all supported is
    extracted whole. *)
Lemma extractall_supported env ms target w :
  no_io_errors env → Forall (λ m, supported m = true) ms →
  extractall env ms target w
  = (Ok tt, {| fs := extracted target (fs w) ms;
               trace := trace w ++ writes target ms;
               tick := tick w + length ms |}).
Proof.
  intros Hio. revert w. induction ms as [|m ms IH]; intros w Hms.
  - cbn. unfold mret, M_ret. destruct w; cbn.
    by rewrite app_nil_r, Nat.add_0_r.
  - apply Forall_cons in Hms as [Hm Hms]. destruct m as [a d|a]; [|done].
    cbn [extractall]. unfold syscall. run. rewrite Hio. cbn.
    rewrite IH by done. cbn. f_equal. f_equal; [|lia].
    by rewrite <- app_assoc.
Qed.

(** Whatever happens, [extractall] writes below the target only. *)
Lemma extractall_effects env ms target w o w' :
  extractall env ms target w = (o, w') →
  (∀ q, (∀ a, q ≠ target ++ a) → fs w' !! q = fs w !! q)
  ∧ ∃ tr, trace w' = trace w ++ tr
          ∧ Forall (λ ev, mkdir_or_write ev = true) tr.
Proof.
  revert w. induction ms as [|m ms IH]; intros w.
  - intros [= <- <-]. split; [done|]. exists []. by rewrite app_nil_r.
  - cbn [extractall]. unfold syscall. run.
    destruct (io_error env (tick w)); cbn.
    { intros [= <- <-]. split; [done|]. exists []. by rewrite app_nil_r. }
    destruct m as [a d|a]; cbn.
    + intros H. apply IH in H as (Hfs & tr & Htr & Hquiet). cbn in *.
      split.
      * intros q Hq. rewrite Hfs by done. by rewrite lookup_insert_ne.
      * exists (Write (target ++ a) d :: tr). rewrite Htr, <- app_assoc.
        split; [done|]. by constructor.
    + intros [= <- <-]. split; [done|]. exists []. by rewrite app_nil_r.
Qed.

(** ** The extraction step *)

Lemma try_block_after_extraction env p destination todo_file w :
  try_block env p destination todo_file w
  = (extract_to ← extraction env p destination;
     unlink env p;;
     logger_info (DELETED p);;
     add_todo_entry env todo_file (name extract_to)) w.
Proof.
  unfold try_block, extraction. rewrite bind_assoc.
  apply bind_ext. intros extract_to w1. rewrite bind_assoc.
  apply bind_ext. intros [] w2. rewrite bind_assoc.
  apply bind_ext. intros zf w3. rewrite bind_assoc.
  apply bind_ext. intros [] w4. rewrite bind_assoc.
  apply bind_ext. by intros [] w5.
Qed.

(** An exception of the extraction step leaves the entries that existed
    outside the target as they were; what it did before is to make
    directories and write members. *)
Lemma extraction_raise_effects env p destination w e w' :
  extraction env p destination w = (Raise e, w') →
  (∀ q, is_Some (fs w !! q) →
        (∀ a, q ≠ resolve_extract_path (fs w) destination (stem p) ++ a) →
        fs w' !! q = fs w !! q)
  ∧ ∃ tr, trace w' = trace w ++ tr
          ∧ Forall (λ ev, mkdir_or_write ev = true) tr.
Proof.
  unfold extraction.
  set (target := resolve_extract_path (fs w) destination (stem p)).
  unfold mbind at 1, M_bind, gets. fold target.
  unfold mbind at 1, M_bind.
  destruct (mkdir env target w) as [[[]|e1] w1] eqn:Hmkdir.
  2:{ intros [= <- <-]. apply mkdir_effects in Hmkdir as (Hfs & Htr).
      split; [|done]. intros q Hq _. by apply Hfs. }
  apply mkdir_effects in Hmkdir as (Hfs1 & tr1 & Htr1 & Hq1).
  unfold mbind at 1, M_bind.
  destruct (ZipFile env p w1) as [[zf|e2] w2] eqn:Hzip.
  2:{ intros [= <- <-].
      assert (fs w2 = fs w1 ∧ trace w2 = trace w1) as [-> ->].
      { revert Hzip. unfold ZipFile, syscall. run.
        destruct (io_error env (tick w1)); cbn; [by intros [= _ <-]|].
        by destruct (fs w1 !! p) as [[|[]]|]; intros [= _ <-]. }
      split; [|by exists tr1]. intros q Hq _. by apply Hfs1. }
  assert (fs w2 = fs w1 ∧ trace w2 = trace w1) as [Hfs2 Htr2].
  { revert Hzip. unfold ZipFile, syscall. run.
    destruct (io_error env (tick w1)); cbn; [done|].
    by destruct (fs w1 !! p) as [[|[]]|]; intros [= <- <-]. }
  unfold mbind at 1, M_bind.
  destruct (extractall env zf target w2) as [[[]|e3] w3] eqn:Hext.
  { run. done. }
  intros [= <- <-]. apply extractall_effects in Hext as (Hfs3 & tr3 & Htr3 & Hq3).
  split.
  - intros q Hq Hout. rewrite Hfs3, Hfs2 by done. by apply Hfs1.
  - exists (tr1 ++ tr3). rewrite Htr3, Htr2, Htr1, <- app_assoc.
    split; [done|]. by apply Forall_app.
Qed.

(** ** What is logged *)

Lemma log_of_writes tr :
  Forall (λ ev, mkdir_or_write ev = true) tr →
  omap (λ ev, match ev with Log m => Some m | _ => None end) tr = [].
Proof.
  induction 1 as [|ev tr Hev _ IH]; [done|]. cbn. rewrite IH. by destruct ev.
Qed.

(** A successful probe: the world it leaves differs from the one it found
    by probes and sleeps only, and the path is a regular file. *)
Lemma wait_for_file_ready_true env p retries delay w w1 :
  wait_for_file_ready env p retries delay w = (Ok true, w1) →
  fs w1 = fs w
  ∧ (∃ tr, trace w1 = trace w ++ tr
           ∧ Forall (λ ev, probe_or_sleep ev = true) tr)
  ∧ log w1 = log w
  ∧ ∃ data, fs w !! p = Some (File data).
Proof.
  unfold wait_for_file_ready. intros Hwait.
  destruct (wait_loop_run env p delay (Z.to_nat retries) w)
    as (o & tr & k & Hrun & Htr & _ & Hfile & _).
  rewrite Hwait in Hrun. injection Hrun as <- ->. cbn.
  split; [done|]. split; [by exists tr|]. split; [|by apply Hfile].
  unfold log at 1. cbn. by rewrite log_app, log_of_probes, app_nil_r.
Qed.

(** ** Extraction errors *)

(** C3.  When the extraction step raises, [process_zip_file] catches the
    exception and returns normally after logging one ERROR line that carries
    it.  Nothing is deleted and nothing is appended: beyond the probes, the
    call only made directories and wrote members, and every entry that
    existed before the call, the archive and the task document among them,
    is as it was. *)
Theorem extraction_error_keeps_archive
    env w p destination todo_file retries delay w1 e w2 :
  tree (fs w) →
  wait_for_file_ready env p retries delay w = (Ok true, w1) →
  extraction env p destination w1 = (Raise e, w2) →
  ∃ w' tr,
    process_zip_file env p destination todo_file retries delay w = (Ok tt, w')
    ∧ trace w' = trace w1 ++ tr ++ [Log (ERROR p e)]
    ∧ Forall (λ ev, mkdir_or_write ev = true) tr
    ∧ Forall (λ ev, deletes_or_appends ev = false) (tr ++ [Log (ERROR p e)])
    ∧ log w' = log w ++ [ERROR p e]
    ∧ (∃ data, fs w !! p = Some (File data))
    ∧ ∀ q, is_Some (fs w !! q) → fs w' !! q = fs w !! q.
Proof.
  intros Htree Hwait Hraise.
  pose proof (wait_for_file_ready_true _ _ _ _ _ _ Hwait)
    as (Hfs1 & _ & Hlog1 & Hfile).
  pose proof (extraction_raise_effects _ _ _ _ _ _ Hraise)
    as (Hfs2 & tr & Htr & Hquiet).
  exists {| fs := fs w2; trace := trace w2 ++ [Log (ERROR p e)];
            tick := tick w2 |}, tr.
  split.
  { unfold process_zip_file. erewrite bind_ok by exact Hwait. cbn [negb].
    unfold try_except. rewrite try_block_after_extraction.
    by erewrite bind_raise by exact Hraise. }
  cbn [fs trace]. split; [by rewrite Htr, <- app_assoc|]. split; [done|].
  split.
  { apply Forall_app. split; [|by repeat constructor].
    eapply Forall_impl; [exact Hquiet|]. by intros []. }
  split.
  { unfold log at 1. cbn [trace]. rewrite Htr, <- app_assoc.
    rewrite log_app, omap_app, log_of_writes by done. by rewrite Hlog1. }
  split; [done|].
  intros q Hq. rewrite <- Hfs1 in *. apply Hfs2; [done|].
  destruct (resolve_extract_path_below (fs w1) destination (stem p)) as [c Hc].
  intros a. apply (free_not_above (fs w1)); [done| | |done].
  - apply resolve_extract_path_free.
  - rewrite Hc. apply joinpath_not_nil.
Qed.

Lemma extraction_error_keeps_archive_witness :
  ∃ w',
    process_zip_file settling_env broken_zip destination_folder todo_md
      30 two_seconds example_world = (Ok tt, w')
    ∧ log w' = [ERROR broken_zip BadZipFile]
    ∧ fs w' !! broken_zip = Some (File Corrupt)
    ∧ fs w' !! todo_md = Some (File (Text "# Projects")).
Proof.
  destruct (extraction_error_keeps_archive settling_env example_world
              broken_zip destination_folder todo_md 30 two_seconds
              (wait_for_file_ready settling_env broken_zip 30 two_seconds
                 example_world).2
              BadZipFile
              (extraction settling_env broken_zip destination_folder
                 (wait_for_file_ready settling_env broken_zip 30 two_seconds
                    example_world).2).2)
    as (w' & tr & Hrun & _ & _ & _ & Hlog & _ & Hkept).
  - apply (bool_decide_unpack _). vm_compute. exact I.
  - vm_compute. reflexivity.
  - vm_compute. reflexivity.
  - exists w'. split; [exact Hrun|]. split; [exact Hlog|].
    split; (rewrite Hkept; [vm_compute; reflexivity|]);
      apply exists_true; vm_compute; reflexivity.
Defined.

(** ** The successful run *)

(** On a readable archive with supported members, in a tree where the
    destination is a directory and no call fails, the extraction step makes
    the target directory, writes every member below it and logs the
    EXTRACTED line. *)
Lemma extraction_succeeds env w p destination ms :
  no_io_errors env → tree (fs w) →
  fs w !! destination = Some Dir →
  fs w !! p = Some (File (Zip ms)) →
  Forall (λ m, supported m = true) ms →
  extraction env p destination w
  = (Ok (resolve_extract_path (fs w) destination (stem p)),
     {| fs := extracted (resolve_extract_path (fs w) destination (stem p))
                (<[resolve_extract_path (fs w) destination (stem p) := Dir]>
                   (fs w)) ms;
        trace := trace w
                 ++ [Mkdir (resolve_extract_path (fs w) destination (stem p))]
                 ++ writes (resolve_extract_path (fs w) destination (stem p)) ms
                 ++ [Log (EXTRACTED p
                       (resolve_extract_path (fs w) destination (stem p)))];
        tick := tick w + 2 + length ms |}).
Proof.
  intros Hio Htree Hdest Hp Hms. unfold extraction.
  pose proof (resolve_extract_path_free (fs w) destination (stem p)) as Hfree.
  destruct (resolve_extract_path_below (fs w) destination (stem p)) as [c Hc].
  set (target := resolve_extract_path (fs w) destination (stem p)) in *.
  unfold mbind at 1, M_bind, gets. fold target.
  erewrite bind_ok; cycle 1.
  { rewrite Hc. apply mkdir_below_directory; [apply Hio|done|done|].
    by rewrite <- Hc. }
  rewrite <- Hc.
  erewrite bind_ok; cycle 1.
  { unfold ZipFile, syscall. run. rewrite Hio. cbn.
    rewrite lookup_insert_ne; [by rewrite Hp|].
    intros Heq. rewrite Heq, Hp in Hfree. done. }
  erewrite bind_ok by by apply extractall_supported.
  run. f_equal. f_equal; [|lia]. by rewrite <- !app_assoc.
Qed.

(** What [add_todo_entry] can do: nothing, or one append to a readable
    document that has no heading for the name. *)
Lemma add_todo_entry_effects env todo_file folder_name w o w' :
  add_todo_entry env todo_file folder_name w = (o, w') →
  (fs w' = fs w ∧ trace w' = trace w)
  ∨ (∃ content,
       fs w !! todo_file = Some (File (Text content))
       ∧ o = Ok tt
       ∧ fs w' = <[todo_file := File (Text (content +:+ entry folder_name))]>
                   (fs w)
       ∧ trace w' = trace w ++ [Append todo_file (entry folder_name);
                                Log (TODO folder_name)]).
Proof.
  rewrite add_todo_entry_unfold.
  destruct (fs w !! todo_file) as [node|]; [|intros [= <- <-]; by left].
  red_world. destruct (io_error env (tick w)); [intros [= <- <-]; by left|].
  destruct node as [|[content| |]]; try (intros [= <- <-]; by left).
  destruct (re_search _ content); [intros [= <- <-]; by left|].
  destruct (io_error env (S (tick w))); intros [= <- <-]; [by left|].
  right. by exists content.
Qed.

(** *** [mkdir] with missing parents *)

Lemma descents_app above l1 l2 :
  descents above (l1 ++ l2) = descents above l1 ++ descents (above ++ l1) l2.
Proof.
  revert above. induction l1 as [|c l1 IH]; intros above; cbn.
  - by rewrite app_nil_r.
  - rewrite IH. unfold joinpath. by rewrite <- app_assoc.
Qed.

Lemma elem_of_descents above below q :
  q ∈ descents above below → ∃ l, l ≠ [] ∧ q = above ++ l.
Proof.
  revert above. induction below as [|c below IH]; intros above; cbn.
  - by intros ?%elem_of_nil.
  - intros [->|Hq]%elem_of_cons.
    + by exists [c].
    + destruct (IH _ Hq) as (l & Hl & ->). exists (c :: l).
      unfold joinpath. by rewrite <- app_assoc.
Qed.

Lemma missing_ext (files1 files2 : gmap Path node) l :
  (∀ q, q ∈ l → files1 !! q = files2 !! q) →
  missing files1 l = missing files2 l.
Proof.
  unfold missing. induction l as [|q l IH]; intros H; [done|].
  rewrite !filter_cons, (H q) by left.
  rewrite IH by (intros q' Hq'; apply H; by right). done.
Qed.

(** Where no regular file is in the way, [mkdir] makes the directories that
    are missing, from the top, and leaves what exists. *)
Lemma mkdirs_creates above below w :
  (∀ q d, q ∈ descents above below → fs w !! q ≠ Some (File d)) →
  ∃ w',
    mkdirs above below w = (Ok tt, w')
    ∧ trace w' = trace w ++ (Mkdir <$> missing (fs w) (descents above below))
    ∧ tick w' = tick w
    ∧ (∀ q, q ∈ descents above below → fs w' !! q = Some Dir)
    ∧ (∀ q, is_Some (fs w !! q) → fs w' !! q = fs w !! q)
    ∧ (∀ q, q ∉ descents above below → fs w' !! q = fs w !! q).
Proof.
  revert above w. induction below as [|c below IH]; intros above w Hfree.
  - exists w. cbn. rewrite app_nil_r. split; [done|]. split; [done|].
    split; [done|]. split; [by intros q ?%elem_of_nil|done].
  - cbn [mkdirs descents]. run.
    destruct (fs w !! (above // c)) as [[|data]|] eqn:E; cbn.
    + destruct (IH (above // c) w)
        as (w' & Hrun & Htr & Htick & Hdirs & Hkeep & Hrest).
      { intros q d Hq. apply Hfree. by right. }
      exists w'. split; [done|]. split.
      { rewrite Htr. unfold missing. by rewrite decide_False. }
      split; [done|]. split; [|split; [done|]].
      * intros q [->|Hq]%elem_of_cons; [|by apply Hdirs].
        rewrite Hkeep by by eexists. done.
      * intros q Hq. apply Hrest. intros Hin. apply Hq. by right.
    + exfalso. apply (Hfree (above // c) data); [left|done].
    + destruct (IH (above // c)
                  {| fs := <[above // c := Dir]> (fs w);
                     trace := trace w ++ [Mkdir (above // c)];
                     tick := tick w |})
        as (w' & Hrun & Htr & Htick & Hdirs & Hkeep & Hrest).
      { intros q d Hq. cbn.
        destruct (elem_of_descents _ _ _ Hq) as (l & Hl & ->).
        rewrite lookup_insert_ne.
        - apply Hfree. by right.
        - intros H. apply (f_equal length) in H. rewrite length_app in H.
          destruct l; [done|]. cbn in H. lia. }
      cbn in *. exists w'. split; [done|]. split.
      { rewrite Htr. rewrite decide_True by done.
        rewrite (missing_ext (<[above // c := Dir]> (fs w)) (fs w)).
        - cbn. by rewrite <- app_assoc.
        - intros q Hq. destruct (elem_of_descents _ _ _ Hq) as (l & Hl & ->).
          apply lookup_insert_ne.
          intros H. apply (f_equal length) in H. rewrite length_app in H.
          destruct l; [done|]. cbn in H. lia. }
      split; [done|]. split; [|split].
      * intros q [->|Hq]%elem_of_cons; [|by apply Hdirs].
        rewrite Hkeep; [apply lookup_insert_eq|].
        rewrite lookup_insert_eq. by eexists.
      * intros q Hq. rewrite Hkeep.
        -- apply lookup_insert_ne. intros <-. rewrite E in Hq. by destruct Hq.
        -- rewrite lookup_insert_ne; [done|].
           intros <-. rewrite E in Hq. by destruct Hq.
      * intros q Hq. rewrite Hrest.
        -- apply lookup_insert_ne. intros <-. apply Hq. left.
        -- intros Hin. apply Hq. by right.
Qed.

Lemma elem_of_descents_split above below q :
  q ∈ descents above below →
  ∃ l1 l2, below = l1 ++ l2 ∧ l1 ≠ [] ∧ q = above ++ l1.
Proof.
  revert above. induction below as [|c below IH]; intros above; cbn.
  - by intros ?%elem_of_nil.
  - intros [->|Hq]%elem_of_cons.
    + by exists [c], below.
    + destruct (IH _ Hq) as (l1 & l2 & -> & Hl & ->). exists (c :: l1), l2.
      unfold joinpath. by rewrite <- app_assoc.
Qed.

(** The directories above an existing directory of a tree exist. *)
Lemma dir_no_file_above (files : gmap Path node) p :
  tree files → files !! p = Some Dir → no_file_above files p.
Proof.
  intros Htree Hp q d Hq.
  apply elem_of_descents_split in Hq as (l1 & l2 & -> & Hl1 & ->).
  cbn. destruct l2 as [|c l2].
  - rewrite app_nil_r in Hp. by rewrite Hp.
  - by rewrite (tree_ancestors files l1 (c :: l2)).
Qed.

Lemma no_file_above_target (files : gmap Path node) destination c :
  no_file_above files destination →
  files !! (destination // c) = None →
  no_file_above files (destination // c).
Proof.
  intros Hdest Hfree q d. unfold joinpath. rewrite descents_app.
  intros [Hq|Hq]%elem_of_app; [by apply Hdest|].
  cbn in Hq. apply list_elem_of_singleton in Hq as ->.
  unfold joinpath in *. cbn. by rewrite Hfree.
Qed.

(** The extraction step where the destination may be missing. *)
Lemma extraction_creates env w p destination ms :
  no_io_errors env → tree (fs w) →
  no_file_above (fs w) destination →
  fs w !! p = Some (File (Zip ms)) →
  Forall (λ m, supported m = true) ms →
  ∃ files1,
    extraction env p destination w
    = (Ok (resolve_extract_path (fs w) destination (stem p)),
       {| fs := extracted (resolve_extract_path (fs w) destination (stem p))
                  files1 ms;
          trace := trace w
                   ++ (Mkdir <$> missing (fs w)
                         (descents [] (resolve_extract_path (fs w) destination
                                         (stem p))))
                   ++ writes (resolve_extract_path (fs w) destination (stem p))
                        ms
                   ++ [Log (EXTRACTED p
                         (resolve_extract_path (fs w) destination (stem p)))];
          tick := tick w + 2 + length ms |})
    ∧ (∀ q, is_Some (fs w !! q) → files1 !! q = fs w !! q)
    ∧ (∀ q, q ∉ descents [] (resolve_extract_path (fs w) destination (stem p)) →
            files1 !! q = fs w !! q).
Proof.
  intros Hio Htree Hdest Hp Hms. unfold extraction.
  pose proof (resolve_extract_path_free (fs w) destination (stem p)) as Hfree.
  destruct (resolve_extract_path_below (fs w) destination (stem p)) as [c Hc].
  set (target := resolve_extract_path (fs w) destination (stem p)) in *.
  unfold mbind at 1, M_bind, gets. fold target.
  destruct (mkdirs_creates [] target
              {| fs := fs w; trace := trace w; tick := S (tick w) |})
    as (w1 & Hmk & Htr1 & Htick1 & _ & Hkeep & Hrest).
  { cbn. rewrite Hc. apply no_file_above_target; [done|by rewrite <- Hc]. }
  cbn in *.
  erewrite bind_ok; cycle 1.
  { unfold mkdir, syscall. run. rewrite Hio. cbn. exact Hmk. }
  erewrite bind_ok; cycle 1.
  { unfold ZipFile, syscall. run. rewrite Hio. cbn.
    rewrite Hkeep by by eexists. by rewrite Hp. }
  erewrite bind_ok by by apply extractall_supported.
  run. exists (fs w1). split; [|done]. f_equal. f_equal; [|lia].
  by rewrite Htr1, <- !app_assoc.
Qed.

Lemma missing_none (files : gmap Path node) l :
  (∀ q, q ∈ l → is_Some (files !! q)) → missing files l = [].
Proof.
  unfold missing. induction l as [|q l IH]; intros H; [done|].
  rewrite filter_cons_False.
  - apply IH. intros q' Hq'. apply H. by right.
  - intros Hnone. destruct (H q) as [x Hx]; [left|]. congruence.
Qed.

(** In a tree where the destination is a directory, the target is the one
    directory to make. *)
Lemma missing_below_directory (files : gmap Path node) destination c :
  tree files → files !! destination = Some Dir →
  files !! (destination // c) = None →
  missing files (descents [] (destination // c)) = [destination // c].
Proof.
  intros Htree Hdest Hfree. unfold joinpath at 1. rewrite descents_app.
  unfold missing. rewrite filter_app. fold (missing files (descents [] destination)).
  rewrite missing_none.
  - cbn [descents app]. rewrite filter_cons_True, filter_nil by done. done.
  - intros q Hq.
    apply elem_of_descents_split in Hq as (l1 & l2 & -> & Hl1 & ->). cbn.
    destruct l2 as [|c' l2].
    + rewrite app_nil_r in Hdest. by eexists.
    + rewrite (tree_ancestors files l1 (c' :: l2)); [by eexists|done| |done|done].
      by eexists.
Qed.

(** The data a file has after the extraction is that of the last member
    of its name. *)
Lemma extracted_last_member target files ms a d :
  last_of_its_name ms a d →
  extracted target files ms !! (target ++ a) = Some (File (Text d)).
Proof.
  intros (i & Hi & Hlater). revert files i Hi Hlater.
  induction ms as [|m ms IH]; intros files i Hi Hlater; [done|].
  destruct i as [|i].
  - injection Hi as ->. cbn.
    fold (extracted target (<[target ++ a:=File (Text d)]> files) ms).
    rewrite extracted_not_member; [apply lookup_insert_eq|].
    intros (m & Hm & Hin)%list_elem_of_fmap.
    apply list_elem_of_lookup in Hin as [j Hj].
    by apply (Hlater (S j) m); [lia| |].
  - cbn. unfold extracted in IH. apply (IH _ i); [done|].
    intros j m' Hj Hm'. apply (Hlater (S j) m'); [lia|done].
Qed.

(** C2, as amended.  For a readable archive with supported members whose
    path passes the readiness probe, in a tree where no regular file is at
    or above the destination, and when no call fails: [process_zip_file]
    makes the directories that are missing down to the extraction target,
    writes every member below the target at the member's own relative path
    (of two members of one name the later stays), then deletes the archive,
    then turns to the task document; these effects come in this order.  At
    the end the archive is gone, the members are in place and every other
    entry is as it was.  When the task document is a text without a heading
    for the target, exactly one entry is appended to it, after the deletion:
    a line feed, the line [## [<target>](<target>/)] and the line
    [- [ ] Review and determine next steps], each ended by a line feed; with
    a heading for the target, or without a task document, nothing is
    appended. *)
Theorem process_zip_file_extracts_deletes_records
    env w p destination todo_file retries delay w1 ms t :
  no_io_errors env →
  tree (fs w) →
  no_file_above (fs w) destination →
  fs w !! p = Some (File (Zip ms)) →
  Forall (λ m, supported m = true) ms →
  wait_for_file_ready env p retries delay w = (Ok true, w1) →
  t = resolve_extract_path (fs w) destination (stem p) →
  ∃ w' rest,
    process_zip_file env p destination todo_file retries delay w = (Ok tt, w')
    ∧ trace w'
      = trace w1
        ++ (Mkdir <$> missing (fs w) (descents [] t))
        ++ writes t ms
        ++ [Log (EXTRACTED p t); Unlink p; Log (DELETED p)]
        ++ rest
    ∧ (fs w !! destination = Some Dir → missing (fs w) (descents [] t) = [t])
    ∧ (∀ a d, last_of_its_name ms a d → t ++ a ≠ todo_file →
              fs w' !! (t ++ a) = Some (File (Text d)))
    ∧ fs w' !! p = None
    ∧ (∀ q x, fs w !! q = Some x → q ≠ p → q ≠ todo_file →
              fs w' !! q = Some x)
    ∧ Forall (λ ev, append_or_log ev = true) rest
    ∧ (∀ content,
         fs w !! todo_file = Some (File (Text content)) →
         if re_search (heading_pattern (name t)) content
         then rest = [] ∧ fs w' !! todo_file = Some (File (Text content))
         else
           rest = [Append todo_file
                     (nl +:+ "## [" +:+ name t +:+ "](" +:+ name t +:+ "/)"
                      +:+ nl +:+ "- [ ] Review and determine next steps"
                      +:+ nl);
                   Log (TODO (name t))]
           ∧ fs w' !! todo_file
             = Some (File (Text
                 (content +:+ nl
                  +:+ "## [" +:+ name t +:+ "](" +:+ name t +:+ "/)" +:+ nl
                  +:+ "- [ ] Review and determine next steps" +:+ nl)))
           ∧ (no_LF (name t) = true →
              lines (content +:+ nl
                     +:+ "## [" +:+ name t +:+ "](" +:+ name t +:+ "/)" +:+ nl
                     +:+ "- [ ] Review and determine next steps" +:+ nl)
              = lines content
                ++ ["## [" +:+ name t +:+ "](" +:+ name t +:+ "/)";
                    "- [ ] Review and determine next steps"; ""]))
    ∧ (fs w !! todo_file = None → todo_file ∉ descents [] t →
       (∀ a, todo_file ≠ t ++ a) →
       rest = [] ∧ fs w' !! todo_file = None).
Proof.
  intros Hio Htree Hdest Hp Hms Hwait ->.
  pose proof (wait_for_file_ready_true _ _ _ _ _ _ Hwait) as (Hfs1 & _ & _ & _).
  pose proof (resolve_extract_path_free (fs w) destination (stem p)) as Hfree.
  destruct (resolve_extract_path_below (fs w) destination (stem p)) as [c Hc].
  assert (resolve_extract_path (fs w) destination (stem p) ≠ []) as Hne.
  { rewrite Hc. apply joinpath_not_nil. }
  set (target := resolve_extract_path (fs w) destination (stem p)) in *.
  assert (∀ q, is_Some (fs w !! q) → ∀ a, q ≠ target ++ a) as Hout.
  { intros q Hq a. by apply (free_not_above (fs w)). }
  destruct (extraction_creates env w1 p destination ms)
    as (files1 & Hext & Hfiles1 & Hrest); rewrite ?Hfs1; try done.
  rewrite Hfs1 in Hext, Hfiles1, Hrest. fold target in Hext, Hrest.
  (* the world when the task document is reached *)
  set (w5 := {| fs := delete p (extracted target files1 ms);
                trace := trace w1
                         ++ (Mkdir <$> missing (fs w) (descents [] target))
                         ++ writes target ms
                         ++ [Log (EXTRACTED p target); Unlink p;
                             Log (DELETED p)];
                tick := S (tick w1 + 2 + length ms) |}).
  assert (∀ o w6,
            add_todo_entry env todo_file (name target) w5 = (o, w6) →
            process_zip_file env p destination todo_file retries delay w
            = match o with
              | Ok _ => (Ok tt, w6)
              | Raise e => (Ok tt, {| fs := fs w6;
                                     trace := trace w6 ++ [Log (ERROR p e)];
                                     tick := tick w6 |})
              end) as Hrun.
  { intros o w6 Htodo. unfold process_zip_file.
    erewrite bind_ok by exact Hwait. cbn [negb]. unfold try_except.
    rewrite try_block_after_extraction.
    erewrite bind_ok by exact Hext.
    erewrite bind_ok; cycle 1.
    { unfold unlink, syscall. run. rewrite Hio. cbn.
      rewrite extracted_other by (apply Hout; by eexists).
      rewrite Hfiles1 by by eexists.
      rewrite Hp. cbn. reflexivity. }
    erewrite bind_ok by reflexivity.
    unfold logger_info, emit. cbn [fs trace tick].
    match goal with
    | |- context [add_todo_entry _ _ _ ?x] => assert (x = w5) as ->
    end.
    { unfold w5. f_equal.
      rewrite <- ?app_assoc. cbn [app]. rewrite <- ?app_assoc. by cbn [app]. }
    rewrite Htodo. by destruct o as [[]|e]. }
  assert (fs w5 !! p = None) as Hgone by apply lookup_delete_eq.
  assert (∀ a d, last_of_its_name ms a d →
            fs w5 !! (target ++ a) = Some (File (Text d))) as Hmembers.
  { intros a d Hin. cbn [fs w5]. rewrite lookup_delete_ne.
    - by apply extracted_last_member.
    - apply Hout. by eexists. }
  assert (∀ q x, fs w !! q = Some x → q ≠ p → fs w5 !! q = Some x) as Hframe.
  { intros q x Hq Hqp. cbn [fs w5]. rewrite lookup_delete_ne by done.
    rewrite extracted_other by (apply Hout; by eexists).
    rewrite Hfiles1 by by eexists. done. }
  assert (∀ content, fs w !! todo_file = Some (File (Text content)) →
            fs w5 !! todo_file = Some (File (Text content))) as Hdoc.
  { intros content Hcontent. apply Hframe; [done|]. intros ->. congruence. }
  assert (fs w !! todo_file = None → todo_file ∉ descents [] target →
          (∀ a, todo_file ≠ target ++ a) →
          fs w5 !! todo_file = None) as Hnodoc.
  { intros Hnone Habove Houtside. cbn [fs w5].
    destruct (decide (todo_file = p)) as [->|Hnp]; [congruence|].
    rewrite lookup_delete_ne by done. rewrite extracted_other by done.
    by rewrite Hrest. }
  assert (entry (name target)
          = nl +:+ "## [" +:+ name target +:+ "](" +:+ name target +:+ "/)"
            +:+ nl +:+ "- [ ] Review and determine next steps" +:+ nl)
    as Hentry.
  { unfold entry, heading, checklist. by rewrite !string_app_assoc. }
  destruct (add_todo_entry env todo_file (name target) w5) as [o w6] eqn:Htodo.
  specialize (Hrun o w6 eq_refl).
  pose proof Htodo as Hcases. apply add_todo_entry_effects in Hcases.
  destruct Hcases as [[Hfs6 Htr6]|(content' & Hdoc' & -> & Hfs6 & Htr6)].
  - (* nothing was appended *)
    exists (match o with
            | Ok _ => w6
            | Raise e => {| fs := fs w6; trace := trace w6 ++ [Log (ERROR p e)];
                            tick := tick w6 |}
            end),
           (match o with Ok _ => [] | Raise e => [Log (ERROR p e)] end).
    split; [by destruct o|].
    assert (∀ q, fs match o with
                    | Ok _ => w6
                    | Raise e => {| fs := fs w6;
                                    trace := trace w6 ++ [Log (ERROR p e)];
                                    tick := tick w6 |}
                    end !! q = fs w5 !! q) as Hsame.
    { intros q. destruct o; cbn [fs]; by rewrite Hfs6. }
    split.
    { destruct o; cbn [trace]; rewrite Htr6; unfold w5; cbn [trace];
        by rewrite <- ?app_assoc, ?app_nil_r. }
    split.
    { intros Hdir. rewrite Hc. apply missing_below_directory; [done|done|].
      by rewrite <- Hc. }
    split; [intros a d Hin _; rewrite Hsame; by apply Hmembers|].
    split; [by rewrite Hsame|].
    split; [intros q x Hq Hqp _; rewrite Hsame; by apply Hframe|].
    split; [destruct o; by repeat constructor|].
    split.
    + intros content Hcontent.
      rewrite add_todo_entry_unfold, (Hdoc _ Hcontent) in Htodo.
      red_world. rewrite !Hio in Htodo.
      destruct (re_search _ content).
      * injection Htodo as <- <-. split; [done|].
        rewrite Hsame. by apply Hdoc.
      * exfalso. injection Htodo as <- <-.
        apply (f_equal length) in Htr6. unfold w5 in Htr6.
        cbn [trace] in Htr6. rewrite !length_app in Htr6. cbn in Htr6. lia.
    + intros Hnone Habove Houtside.
      rewrite add_todo_entry_unfold, (Hnodoc Hnone Habove Houtside) in Htodo.
      injection Htodo as <- <-. split; [done|]. by apply Hnodoc.
  - (* one entry was appended *)
    exists w6, [Append todo_file (entry (name target));
                Log (TODO (name target))].
    split; [done|]. split; [by rewrite Htr6; unfold w5; cbn [trace];
                              rewrite <- !app_assoc|].
    split.
    { intros Hdir. rewrite Hc. apply missing_below_directory; [done|done|].
      by rewrite <- Hc. }
    split.
    { intros a d Hin Hother. rewrite Hfs6, lookup_insert_ne by done.
      by apply Hmembers. }
    split.
    { rewrite Hfs6, lookup_insert_ne; [done|]. intros <-. congruence. }
    split.
    { intros q x Hq Hqp Hqt. rewrite Hfs6, lookup_insert_ne by done.
      by apply Hframe. }
    split; [by repeat constructor|].
    split.
    + intros content Hcontent. rewrite (Hdoc _ Hcontent) in Hdoc'.
      injection Hdoc' as <-.
      rewrite add_todo_entry_unfold, (Hdoc _ Hcontent) in Htodo.
      red_world. rewrite !Hio in Htodo.
      destruct (re_search _ content).
      * exfalso. injection Htodo as <-.
        apply (f_equal length) in Htr6. unfold w5 in Htr6.
        cbn [trace] in Htr6. rewrite !length_app in Htr6. cbn in Htr6. lia.
      * rewrite <- Hentry. split; [done|]. split.
        -- by rewrite Hfs6, lookup_insert_eq.
        -- intros Hname. by rewrite (lines_after_entry _ _ Hname).
    + intros Hnone Habove Houtside. exfalso.
      rewrite (Hnodoc Hnone Habove Houtside) in Hdoc'. done.
Qed.

Lemma process_zip_file_extracts_deletes_records_witness :
  ∃ w',
    process_zip_file settling_env site_zip destination_folder todo_md
      30 two_seconds example_world = (Ok tt, w')
    ∧ fs w' !! ["C:"; "Dev"; "site_2"; "css"; "site.css"]
      = Some (File (Text "body {}"))
    ∧ fs w' !! site_zip = None
    ∧ fs w' !! todo_md
      = Some (File (Text ("# Projects" +:+ nl +:+ "## [site_2](site_2/)" +:+ nl
                          +:+ "- [ ] Review and determine next steps" +:+ nl))).
Proof.
  destruct (process_zip_file_extracts_deletes_records settling_env
              example_world site_zip destination_folder todo_md 30 two_seconds
              (wait_for_file_ready settling_env site_zip 30 two_seconds
                 example_world).2
              site_members ["C:"; "Dev"; "site_2"])
    as (w' & rest & Hrun & _ & _ & Hmembers & Hgone & _ & _ & Hentry & _).
  - intros t. reflexivity.
  - apply (bool_decide_unpack _). vm_compute. exact I.
  - apply dir_no_file_above.
    + apply (bool_decide_unpack _). vm_compute. exact I.
    + vm_compute. reflexivity.
  - vm_compute. reflexivity.
  - repeat constructor.
  - vm_compute. reflexivity.
  - vm_compute. reflexivity.
  - exists w'. split; [exact Hrun|]. split.
    { apply (Hmembers ["css"; "site.css"] "body {}").
      - exists 1. split; [reflexivity|]. intros j m Hj Hm.
        destruct j as [|[|j]]; [lia|lia|]. by cbn in Hm.
      - discriminate. }
    split; [exact Hgone|].
    specialize (Hentry "# Projects" ltac:(vm_compute; reflexivity)).
    assert (re_search (heading_pattern (name ["C:"; "Dev"; "site_2"]))
              "# Projects" = false) as Hnew by (vm_compute; reflexivity).
    rewrite Hnew in Hentry. destruct Hentry as (_ & Hdoc & _). exact Hdoc.
Defined.

(** C2, as stated, fails: that the archive is readable and valid and that
    its path passes the probe does not make the extraction succeed.  Here
    the disk is full when the second member of [site.zip] is to be written:
    the call logs the error, the first member stays, and the archive is
    neither extracted whole nor deleted, and no entry is appended. *)
Lemma valid_archive_is_not_always_extracted :
  fs example_world !! site_zip = Some (File (Zip site_members))
  ∧ Forall (λ m, supported m = true) site_members
  ∧ (wait_for_file_ready (disk_full_at 4) site_zip 30 two_seconds
       example_world).1 = Ok true
  ∧ (process_zip_file (disk_full_at 4) site_zip destination_folder todo_md
       30 two_seconds example_world).1 = Ok tt
  ∧ log (process_zip_file (disk_full_at 4) site_zip destination_folder todo_md
           30 two_seconds example_world).2
    = [ERROR site_zip (OSError 28)]
  ∧ fs (process_zip_file (disk_full_at 4) site_zip destination_folder todo_md
          30 two_seconds example_world).2 !! site_zip
    = Some (File (Zip site_members))
  ∧ fs (process_zip_file (disk_full_at 4) site_zip destination_folder todo_md
          30 two_seconds example_world).2
      !! ["C:"; "Dev"; "site_2"; "index.html"]
    = Some (File (Text "<html></html>"))
  ∧ fs (process_zip_file (disk_full_at 4) site_zip destination_folder todo_md
          30 two_seconds example_world).2
      !! ["C:"; "Dev"; "site_2"; "css"; "site.css"]
    = None
  ∧ fs (process_zip_file (disk_full_at 4) site_zip destination_folder todo_md
          30 two_seconds example_world).2 !! todo_md
    = Some (File (Text "# Projects")).
Proof.
  split; [vm_compute; reflexivity|]. split; [by repeat constructor|].
  repeat split; vm_compute; reflexivity.
Qed.


(** ** Candidates *)

(** The event handler passes a path on exactly when the event is not a
    directory event and the suffix of the path is [.zip] in any case. *)
Lemma on_created_filter env self event w :
  on_created env self event w
  = if negb (is_directory event)
       && String.eqb (lower (suffix (src_path event))) ".zip"
    then (logger_info (DETECTED "Created" (src_path event));;
          sleep env (settle_delay self);;
          process_zip_file env (src_path event) (handler_destination self)
            (handler_todo_file self)
            (file_lock_retries (handler_config self))
            (file_lock_retry_delay_seconds (handler_config self))) w
    else (Ok tt, w).
Proof.
  unfold on_created, _handle. destruct (is_directory event); [done|].
  cbn [negb andb]. by destruct (String.eqb _ ".zip").
Qed.

Lemma on_moved_filter env self event w :
  on_moved env self event w
  = if negb (is_directory event)
       && String.eqb (lower (suffix (dest_path event))) ".zip"
    then (logger_info (DETECTED "Renamed" (dest_path event));;
          sleep env (settle_delay self);;
          process_zip_file env (dest_path event) (handler_destination self)
            (handler_todo_file self)
            (file_lock_retries (handler_config self))
            (file_lock_retry_delay_seconds (handler_config self))) w
    else (Ok tt, w).
Proof.
  unfold on_moved, _handle. destruct (is_directory event); [done|].
  cbn [negb andb]. by destruct (String.eqb _ ".zip").
Qed.

(** The scans pass on every entry of the watch folder whose name ends in
    [.zip] in any case, whatever kind of entry it is: nothing in them tells
    a directory from a file. *)
Lemma elem_of_sorted_glob (files : gmap Path node) watch p :
  p ∈ sorted (glob_star_zip files watch)
  ↔ is_Some (files !! p) ∧ p ≠ [] ∧ parent p = watch
    ∧ fnmatch_star_zip (name p) = true.
Proof.
  unfold sorted. rewrite merge_sort_Permutation.
  unfold glob_star_zip. rewrite list_elem_of_filter, list_elem_of_fmap.
  unfold is_child. rewrite andb_true_iff, bool_decide_eq_true. split.
  - intros ([[Hne Hparent] Hmatch] & [q x] & -> & Hin).
    apply elem_of_map_to_list in Hin. by repeat split; [eexists|..].
  - intros ([x Hx] & Hne & Hparent & Hmatch). split; [done|].
    exists (p, x). split; [done|]. by apply elem_of_map_to_list.
Qed.

Lemma scans_list_directories (files : gmap Path node) watch c :
  files !! (watch // c) = Some Dir →
  fnmatch_star_zip c = true →
  watch // c ∈ sorted (glob_star_zip files watch).
Proof.
  intros Hdir Hmatch. apply elem_of_sorted_glob.
  rewrite parent_joinpath, name_joinpath.
  split; [by eexists|]. split; [apply joinpath_not_nil|done].
Qed.

(** C8: the scans do not do what the event handler does.  [photos.zip] is
    a directory of the watch folder.  The handler ignores the event of its
    creation, but the start-up scan and the polling sweep list it, announce
    it and hand it to [process_zip_file], which probes it through the whole
    retry budget and logs a TIMEOUT. *)
Lemma scans_take_directories :
  fs example_world !! photos_zip = Some Dir
  ∧ on_created quiet_env example_handler
      {| is_directory := true; src_path := photos_zip; dest_path := [] |}
      example_world = (Ok tt, example_world)
  ∧ sorted (glob_star_zip (fs example_world) watch_folder)
    = [broken_zip; photos_zip; site_zip]
  ∧ log (startup_scan quiet_env watch_folder destination_folder todo_md
           example_config example_world).2
    = [FOUND_EXISTING broken_zip; ERROR broken_zip BadZipFile;
       FOUND_EXISTING photos_zip; TIMEOUT photos_zip 60;
       FOUND_EXISTING site_zip;
       EXTRACTED site_zip ["C:"; "Dev"; "site_2"]; DELETED site_zip;
       TODO "site_2"]
  ∧ log (poll_sweep quiet_env watch_folder destination_folder todo_md
           example_config example_world).2
    = [POLL broken_zip; ERROR broken_zip BadZipFile;
       POLL photos_zip; TIMEOUT photos_zip 60;
       POLL site_zip;
       EXTRACTED site_zip ["C:"; "Dev"; "site_2"]; DELETED site_zip;
       TODO "site_2"].
Proof. repeat split; vm_compute; reflexivity. Qed.

(** * Further properties of the code *)

(** ** [wait_for_file_ready] *)

Lemma exclusive_open_handle (env : environment) (files : gmap Path node) p t :
  is_handle (exclusive_open env files p t) = true →
  exclusive_open env files p t = Handle p.
Proof.
  unfold exclusive_open. destruct (files !! p) as [[|d]|]; try done.
  by destruct (locked env p t).
Qed.

Lemma exclusive_open_invalid (env : environment) (files : gmap Path node) p t :
  is_handle (exclusive_open env files p t) = false →
  exclusive_open env files p t = INVALID_HANDLE.
Proof. by destruct (exclusive_open env files p t). Qed.

Lemma wait_loop_first_success env p delay d n k w :
  k < n →
  (0 < k → sleep_length env delay = Ok d) →
  never_ready env w p k →
  is_handle (exclusive_open env (fs w) p (tick w + k)) = true →
  wait_loop env p n delay w
  = (Ok true, {| fs := fs w;
                 trace := trace w ++ failed_attempts p d k ++ [Probe p true];
                 tick := tick w + S k |}).
Proof.
  revert n w. induction k as [|k IH]; intros n w Hk Hsleep Hnever Hopen.
  - destruct n as [|n]; [lia|]. cbn [wait_loop]. unfold CreateFileW. run.
    rewrite Nat.add_0_r in Hopen. apply exclusive_open_handle in Hopen.
    rewrite Hopen. cbn. f_equal. f_equal. lia.
  - destruct n as [|n]; [lia|]. cbn [wait_loop]. unfold CreateFileW. run.
    pose proof (Hnever 0 ltac:(lia)) as H0. rewrite Nat.add_0_r in H0.
    rewrite H0. cbn. rewrite (sleep_ok _ _ d) by (apply Hsleep; lia).
    red_world. rewrite (IH n); cbn; [| lia | | |].
    + f_equal. f_equal; [|lia]. unfold failed_attempts. cbn.
      by rewrite <- !app_assoc.
    + intros _. apply Hsleep. lia.
    + intros i Hi. specialize (Hnever (S i) ltac:(lia)). cbn.
      by replace (S (tick w + i)) with (tick w + S i) by lia.
    + by replace (S (tick w + k)) with (tick w + S k) by lia.
Qed.

(** Within a budget, either every attempt fails or there is a first one
    that opens the file. *)
Lemma first_opening env w p n :
  never_ready env w p n
  ∨ ∃ k, k < n ∧ never_ready env w p k
         ∧ is_handle (exclusive_open env (fs w) p (tick w + k)) = true.
Proof.
  induction n as [|n [IH|(k & Hk & Hnever & Hopen)]].
  - left. intros i Hi. lia.
  - destruct (is_handle (exclusive_open env (fs w) p (tick w + n))) eqn:E.
    + right. exists n. by split; [lia|].
    + left. intros i Hi. destruct (decide (i = n)) as [->|];
        [by apply exclusive_open_invalid|apply IH; lia].
  - right. exists k. by split; [lia|].
Qed.

(** X1.  [wait_for_file_ready] answers [True] at the first attempt that
    opens the file: after [k] failed attempts, each followed by one sleep
    (of a length that [time.sleep] accepts, when there is one to take), the
    attempt number [k + 1] succeeds, and the function returns at once,
    without a further sleep and without looking at the file system again. *)
Theorem wait_for_file_ready_first_success env p retries delay d k w :
  (Z.of_nat k < retries)%Z →
  (0 < k → sleep_length env delay = Ok d) →
  never_ready env w p k →
  is_handle (exclusive_open env (fs w) p (tick w + k)) = true →
  wait_for_file_ready env p retries delay w
  = (Ok true, {| fs := fs w;
                 trace := trace w ++ failed_attempts p d k
                          ++ [Probe p true];
                 tick := tick w + S k |})
  ∧ (slept (failed_attempts p d k) == inject_Z (Z.of_nat k) * seconds d)%Q.
Proof.
  intros Hk Hsleep Hnever Hopen. split; [|apply failed_attempts_slept].
  unfold wait_for_file_ready.
  apply wait_loop_first_success; [lia|done|done|done].
Qed.

Lemma wait_for_file_ready_first_success_witness :
  wait_for_file_ready settling_env site_zip 30 two_seconds example_world
  = (Ok true,
     {| fs := example_fs;
        trace := [Probe site_zip false; Sleep (whole_seconds 2);
                  Probe site_zip false; Sleep (whole_seconds 2);
                  Probe site_zip true];
        tick := 3 |}).
Proof.
  apply (wait_for_file_ready_first_success settling_env site_zip 30
           two_seconds (whole_seconds 2) 2 example_world).
  - lia.
  - intros _. vm_compute. reflexivity.
  - intros i Hi. unfold exclusive_open.
    assert (fs example_world !! site_zip = Some (File (Zip site_members)))
      as -> by (vm_compute; reflexivity).
    assert (i = 0 ∨ i = 1) as [-> | ->] by lia; reflexivity.
  - vm_compute. reflexivity.
Defined.

(** X2.  [wait_for_file_ready] never changes the file system and makes at
    most [retries] probes.  With a delay that [time.sleep] accepts it
    returns, and its answer is [True] exactly when some attempt of the
    budget finds the file openable.  With a delay that [time.sleep] rejects
    the first attempt decides: when it opens the file the answer is [True];
    when it fails the exception of [time.sleep] leaves the function; and
    with no attempt to make the answer is [False]. *)
Theorem wait_for_file_ready_answer env p retries delay w :
  ∃ o w',
    wait_for_file_ready env p retries delay w = (o, w')
    ∧ fs w' = fs w
    ∧ tick w ≤ tick w' ≤ tick w + Z.to_nat retries
    ∧ match sleep_length env delay with
      | Ok _ =>
          ∃ b, o = Ok b
               ∧ (b = true
                  ↔ ∃ i, i < Z.to_nat retries
                         ∧ is_handle (exclusive_open env (fs w) p (tick w + i))
                           = true)
      | Raise e =>
          if bool_decide (0 < retries)%Z
          then if is_handle (exclusive_open env (fs w) p (tick w))
               then o = Ok true
               else o = Raise e
          else o = Ok false
      end.
Proof.
  unfold wait_for_file_ready.
  destruct (sleep_length env delay) as [d|e] eqn:Hsleep.
  - destruct (first_opening env w p (Z.to_nat retries))
      as [Hnever|(k & Hk & Hnever & Hopen)].
    + eexists _, _. split; [by apply (wait_loop_never_ready _ _ d)|]. cbn.
      split; [done|]. split; [lia|]. exists false. split; [done|].
      split; [done|].
      intros (i & Hi & Hopen). rewrite (Hnever i Hi) in Hopen. done.
    + eexists _, _. split; [by apply (wait_loop_first_success _ _ _ d)|]. cbn.
      split; [done|]. split; [lia|]. exists true. split; [done|].
      split; [|done]. intros _. by exists k.
  - case_bool_decide as Hr.
    + destruct (Z.to_nat retries) as [|n] eqn:En; [lia|].
      cbn [wait_loop]. unfold CreateFileW. run.
      destruct (exclusive_open env (fs w) p (tick w)) as [|q]; cbn.
      * rewrite (sleep_raise _ _ e) by done. eexists _, _.
        split; [done|]. cbn. split; [done|]. split; [lia|done].
      * eexists _, _. split; [done|]. cbn. split; [done|]. split; [lia|done].
    + replace (Z.to_nat retries) with 0 by lia. cbn. run.
      eexists _, _. split; [done|]. split; [done|]. split; [lia|done].
Qed.

(** X3.  With a retry count of zero or less the loop body never runs: the
    file is not probed at all and nothing is slept, so that a file that
    nothing holds is skipped and a delay that [time.sleep] would reject is
    not rejected.  The call logs the TIMEOUT line with the number that
    [int(retries * delay)] gives, the exact product for an [int] delay, and
    when that conversion raises, the exception leaves the call with nothing
    done. *)
Theorem process_zip_file_without_retries
    env w p destination todo_file retries delay :
  (retries ≤ 0)%Z →
  process_zip_file env p destination todo_file retries delay w
  = match timeout_seconds retries delay with
    | Ok t =>
        (Ok tt, {| fs := fs w; trace := trace w ++ [Log (TIMEOUT p t)];
                   tick := tick w |})
    | Raise e => (Raise e, w)
    end
  ∧ (∀ z, delay = PyInt z →
          timeout_seconds retries delay = Ok (retries * z)%Z).
Proof.
  intros Hr. split; [|by intros z ->].
  rewrite (process_zip_file_never_ready _ _ _ _ _ _ _ (whole_seconds 0)).
  - replace (Z.to_nat retries) with 0 by lia. cbn.
    rewrite app_nil_r, Nat.add_0_r.
    destruct (timeout_seconds retries delay); [done|]. by destruct w.
  - intros H0. lia.
  - replace (Z.to_nat retries) with 0 by lia. intros i Hi. lia.
Qed.

Lemma process_zip_file_without_retries_witness :
  process_zip_file quiet_env site_zip destination_folder todo_md
    0 (PyInt (-2)) example_world
  = (Ok tt, {| fs := example_fs; trace := [Log (TIMEOUT site_zip 0)];
               tick := 0 |}).
Proof.
  destruct (process_zip_file_without_retries quiet_env example_world site_zip
              destination_folder todo_md 0 (PyInt (-2))) as [Hrun _]; [lia|].
  exact Hrun.
Defined.

(** ** File names *)

Lemma string_length_app (a b : string) :
  String.length (a +:+ b) = String.length a + String.length b.
Proof.
  induction a as [|c a IH]; str; [done|]. cbn [String.length]. by rewrite IH.
Qed.

Lemma substring_prefix (a b : string) :
  String.substring 0 (String.length a) (a +:+ b) = a.
Proof.
  induction a as [|c a IH]; str; cbn [String.length String.substring].
  - by destruct b.
  - by rewrite IH.
Qed.

Lemma substring_all (b : string) :
  String.substring 0 (String.length b) b = b.
Proof.
  induction b as [|c b IH]; [done|].
  cbn [String.length String.substring]. by rewrite IH.
Qed.

Lemma substring_suffix (a b : string) :
  String.substring (String.length a) (String.length b) (a +:+ b) = b.
Proof.
  induction a as [|c a IH]; str; cbn [String.length String.substring].
  - apply substring_all.
  - done.
Qed.

Lemma substring_split (s : string) i :
  i ≤ String.length s →
  String.substring 0 i s +:+ String.substring i (String.length s - i) s = s.
Proof.
  revert i. induction s as [|c s IH]; intros i Hi.
  - cbn in Hi. by replace i with 0 by lia.
  - destruct i as [|i].
    + change (String.substring 0 0 (String c s)) with "". str.
      rewrite Nat.sub_0_r. apply substring_all.
    + cbn [String.length String.substring] in *. str.
      rewrite IH by lia. done.
Qed.

(** [rfind_dot] finds the dot after which there is no other dot. *)
Lemma rfind_dot_None s : rfind_dot s = None → no_dot s = true.
Proof.
  induction s as [|c s IH]; [done|]. cbn [rfind_dot no_dot].
  destruct (rfind_dot s); [done|].
  destruct (Ascii.eqb c "."); [done|]. intros _. by rewrite IH.
Qed.

Lemma rfind_dot_Some s i :
  rfind_dot s = Some i →
  ∃ a b, s = a +:+ String "." b ∧ String.length a = i ∧ no_dot b = true.
Proof.
  revert i. induction s as [|c s IH]; intros i; [done|]. cbn [rfind_dot].
  destruct (rfind_dot s) as [j|] eqn:E.
  - intros [= <-]. destruct (IH j eq_refl) as (a & b & -> & <- & Hb).
    by exists (String c a), b.
  - destruct (Ascii.eqb c ".") eqn:Ec; [|done]. intros [= <-].
    apply ascii_eqb_true in Ec as ->. exists "", s.
    split; [done|]. split; [done|]. by apply rfind_dot_None.
Qed.

Lemma rfind_dot_no_dot s : no_dot s = true → rfind_dot s = None.
Proof.
  induction s as [|c s IH]; [done|]. cbn [rfind_dot no_dot].
  intros [Hc Hs]%andb_true_iff. rewrite IH by done.
  by apply negb_true_iff in Hc as ->.
Qed.

Lemma rfind_dot_last a b :
  no_dot b = true → rfind_dot (a +:+ String "." b) = Some (String.length a).
Proof.
  intros Hb. induction a as [|c a IH]; str; cbn [rfind_dot String.length].
  - by rewrite rfind_dot_no_dot.
  - by rewrite IH.
Qed.

(** The two outcomes of [suffix] and [stem]: the name is cut at its last
    dot when that dot is neither first nor last, and is not cut otherwise. *)
Lemma suffix_stem_cut a b :
  no_dot b = true → a ≠ "" → b ≠ "" →
  suffix_of_name (a +:+ String "." b) = String "." b
  ∧ stem_of_name (a +:+ String "." b) = a.
Proof.
  intros Hb Ha Hnb. unfold suffix_of_name, stem_of_name.
  rewrite rfind_dot_last by done.
  rewrite string_length_app. cbn [String.length].
  assert (0 < String.length a) by (destruct a; [done|cbn; lia]).
  assert (0 < String.length b) by (destruct b; [done|cbn; lia]).
  replace (0 <? String.length a) with true by (symmetry; apply Nat.ltb_lt; lia).
  replace (String.length a <? String.length a + S (String.length b) - 1)
    with true by (symmetry; apply Nat.ltb_lt; lia).
  cbn [andb]. split.
  - replace (String.length a + S (String.length b) - String.length a)
      with (String.length (String "." b)) by (cbn; lia).
    apply substring_suffix.
  - apply substring_prefix.
Qed.

Lemma suffix_stem_cases n :
  (suffix_of_name n = "" ∧ stem_of_name n = n)
  ∨ ∃ a b, n = a +:+ String "." b ∧ no_dot b = true ∧ a ≠ "" ∧ b ≠ ""
           ∧ suffix_of_name n = String "." b ∧ stem_of_name n = a.
Proof.
  destruct (rfind_dot n) as [i|] eqn:E.
  - destruct (rfind_dot_Some _ _ E) as (a & b & -> & <- & Hb).
    destruct (decide (a = "")) as [->|Ha].
    { left. unfold suffix_of_name, stem_of_name. by rewrite E. }
    destruct (decide (b = "")) as [->|Hnb].
    { left. unfold suffix_of_name, stem_of_name. rewrite E.
      rewrite string_length_app. cbn [String.length].
      replace (String.length a <? String.length a + 1 - 1) with false;
        [by rewrite andb_false_r|].
      symmetry. apply Nat.ltb_ge. lia. }
    right. exists a, b. destruct (suffix_stem_cut a b) as [Hs Ht]; done.
  - left. unfold suffix_of_name, stem_of_name. by rewrite E.
Qed.

(** A name is its stem followed by its suffix.  The suffix is empty or it
    is a dot followed by at least one character and no further dot; the stem
    of a non-empty name is not empty. *)
Lemma stem_suffix_name n :
  stem_of_name n +:+ suffix_of_name n = n
  ∧ (suffix_of_name n = ""
     ∨ ∃ b, suffix_of_name n = String "." b ∧ b ≠ "" ∧ no_dot b = true)
  ∧ (n ≠ "" → stem_of_name n ≠ "").
Proof.
  destruct (suffix_stem_cases n)
    as [[-> ->]|(a & b & -> & Hb & Ha & Hnb & -> & ->)].
  - split; [apply string_app_nil_r|]. split; [by left|done].
  - split; [done|]. split; [right; by exists b|done].
Qed.

Lemma lower_app a b : lower (a +:+ b) = lower a +:+ lower b.
Proof. induction a as [|c a IH]; str; [done|]. cbn [lower]. str. by rewrite IH. Qed.

Lemma lower_length a : String.length (lower a) = String.length a.
Proof. induction a as [|c a IH]; [done|]. cbn [lower String.length]. by rewrite IH. Qed.

(** A text that lowers to [x +:+ y] is cut in two parts that lower to [x]
    and to [y]. *)
Lemma lower_app_inv n x y :
  lower n = x +:+ y → ∃ a t, n = a +:+ t ∧ lower a = x ∧ lower t = y.
Proof.
  revert n. induction x as [|c x IH]; intros n; str.
  - intros H. by exists "", n.
  - destruct n as [|c' n]; [done|]. cbn [lower]. intros [= Hc Hn].
    destruct (IH n Hn) as (a & t & -> & Ha & Ht).
    exists (String c' a), t. cbn [lower]. by rewrite Hc, Ha.
Qed.

(** Only the dot lowers to the dot. *)
Lemma lower_ascii_dot c : lower_ascii c = "."%char → c = "."%char.
Proof.
  destruct c as [[] [] [] [] [] [] [] []]; vm_compute; congruence.
Qed.

Lemma lower_zip_inv t :
  lower t = ".zip" →
  ∃ b, t = String "." b ∧ no_dot b = true ∧ String.length b = 3.
Proof.
  destruct t as [|c1 [|c2 [|c3 [|c4 [|c5 t]]]]]; try done.
  cbn [lower]. intros [= H1 H2 H3 H4]. apply lower_ascii_dot in H1 as ->.
  exists (String c2 (String c3 (String c4 ""))).
  split; [done|]. split; [|done]. cbn [no_dot].
  assert (∀ c x, lower_ascii c = x → x ≠ "."%char → Ascii.eqb c "." = false)
    as Hne.
  { intros c x Hc Hx. apply Ascii.eqb_neq. intros ->. by vm_compute in Hc. }
  by rewrite (Hne c2 "z"%char), (Hne c3 "i"%char), (Hne c4 "p"%char).
Qed.

Lemma ends_with_spec suf s :
  ends_with suf s = true ↔ ∃ a, s = a +:+ suf.
Proof.
  unfold ends_with. rewrite andb_true_iff, Nat.leb_le, String.eqb_eq. split.
  - intros [Hlen Hsub].
    exists (String.substring 0 (String.length s - String.length suf) s).
    pose proof (substring_split s (String.length s - String.length suf)
                  ltac:(lia)) as H.
    replace (String.length s - (String.length s - String.length suf))
      with (String.length suf) in H by lia.
    by rewrite Hsub in H.
  - intros [a ->]. rewrite string_length_app. split; [lia|].
    replace (String.length a + String.length suf - String.length suf)
      with (String.length a) by lia.
    apply substring_suffix.
Qed.

(** The test of [_handle], on the name as a whole. *)
Lemma suffix_test_agrees n :
  String.eqb (lower (suffix_of_name n)) ".zip"
  = ends_with ".zip" (lower n) && negb (String.length n =? 4).
Proof.
  apply eq_true_iff_eq.
  rewrite andb_true_iff, negb_true_iff, Nat.eqb_neq, String.eqb_eq.
  rewrite ends_with_spec. split.
  - intros Hsuffix.
    destruct (suffix_stem_cases n)
      as [[Hs _]|(a & b & -> & Hb & Ha & Hnb & Hs & _)].
    { by rewrite Hs in Hsuffix. }
    rewrite Hs in Hsuffix. split.
    + exists (lower a). by rewrite lower_app, Hsuffix.
    + rewrite string_length_app, <- (lower_length (String "." b)), Hsuffix.
      destruct a; [done|]. cbn. lia.
  - intros [[x Hx] Hlen].
    apply lower_app_inv in Hx as (a & t & -> & _ & Ht).
    destruct (lower_zip_inv t Ht) as (b & -> & Hb & Hlenb).
    destruct (suffix_stem_cut a b) as [-> _]; [done| | |done].
    + intros ->. apply Hlen. str. cbn [String.length]. by rewrite Hlenb.
    + intros ->. by cbn in Hlenb.
Qed.

(** The endings with another [i]: a dot and four bytes without a dot, which
    do not lower to [.zip]. *)
Lemma other_i_ending_shape suf :
  suf ∈ other_i_endings →
  ∃ b, suf = String "." b ∧ no_dot b = true ∧ String.length b = 4
       ∧ ends_with ".zip" (lower suf) = false.
Proof.
  intros H. apply list_elem_of_In in H. vm_compute in H.
  repeat (destruct H as [<-|H]; [eexists; by vm_compute|]). done.
Qed.

Lemma ends_with_other_i_spec n :
  ends_with_other_i n = true
  ↔ ∃ a suf, n = a +:+ suf ∧ suf ∈ other_i_endings.
Proof.
  unfold ends_with_other_i. rewrite existsb_exists. split.
  - intros (suf & Hin & [a ->]%ends_with_spec). exists a, suf.
    split; [done|]. by apply list_elem_of_In.
  - intros (a & suf & -> & Hin). exists suf.
    split; [by apply list_elem_of_In|]. apply ends_with_spec. by exists a.
Qed.





(** X4.  The folder name of an archive.  For a name that ends in [.zip]
    in some case of the ASCII letters and holds more than these four
    characters, the stem that [process_zip_file] takes as folder name is the
    name without its last four characters, and it is not empty; the suffix
    cut off is [.zip] in some case.  For the four-character name [.zip]
    itself nothing is cut off: the folder name is the whole name.  The names
    that the scans list with another [i] are cut in the same way, their
    ending being five bytes long. *)
Theorem folder_name_of_archive n :
  fnmatch_star_zip n = true →
  (ends_with_other_i n = false →
   (String.length n ≠ 4 →
    stem_of_name n +:+ suffix_of_name n = n
    ∧ lower (suffix_of_name n) = ".zip"
    ∧ String.length (stem_of_name n) + 4 = String.length n
    ∧ stem_of_name n ≠ "")
   ∧ (String.length n = 4 → stem_of_name n = n ∧ suffix_of_name n = ""))
  ∧ (ends_with_other_i n = true →
     (String.length n ≠ 5 →
      stem_of_name n +:+ suffix_of_name n = n
      ∧ suffix_of_name n ∈ other_i_endings
      ∧ String.length (stem_of_name n) + 5 = String.length n
      ∧ stem_of_name n ≠ "")
     ∧ (String.length n = 5 → stem_of_name n = n ∧ suffix_of_name n = "")).
Proof.
  intros Hglob. split.
  - intros Hother. unfold fnmatch_star_zip in Hglob.
    rewrite Hother, orb_false_r in Hglob. rename Hglob into Hmatch. split.
    + intros Hlen. destruct (stem_suffix_name n) as (Hcut & _ & _).
      assert (lower (suffix_of_name n) = ".zip") as Hsuffix.
      { apply String.eqb_eq. rewrite suffix_test_agrees, Hmatch.
        by apply negb_true_iff, Nat.eqb_neq. }
      split; [done|]. split; [done|].
      assert (String.length (suffix_of_name n) = 4) as Hfour.
      { by rewrite <- lower_length, Hsuffix. }
      assert (String.length (stem_of_name n) + 4 = String.length n) as Hsum.
      { rewrite <- Hcut at 2. by rewrite string_length_app, Hfour. }
      split; [done|]. intros Hempty. rewrite Hempty in Hsum. cbn in Hsum. lia.
    + intros Hlen. apply ends_with_spec in Hmatch as [x Hx].
      assert (x = "") as ->.
      { apply (f_equal String.length) in Hx.
        rewrite lower_length, string_length_app, Hlen in Hx.
        destruct x; [done|]. cbn in Hx. lia. }
      str. destruct (lower_zip_inv n Hx) as (b & -> & Hb & _).
      pose proof (rfind_dot_last "" b Hb) as Hlast. str.
      unfold stem_of_name, suffix_of_name. by rewrite Hlast.
  - intros (a & suf & -> & Hin)%ends_with_other_i_spec.
    destruct (other_i_ending_shape suf Hin) as (b & -> & Hb & Hlenb & _).
    rewrite string_length_app. cbn [String.length]. rewrite Hlenb.
    assert (b ≠ "") as Hnb by (intros ->; done).
    split.
    + intros Hlen. assert (a ≠ "") as Ha by (intros ->; by cbn in Hlen).
      destruct (suffix_stem_cut a b) as [-> ->]; [done..|].
      split; [done|]. split; [done|]. split; [lia|done].
    + intros Hlen. assert (a = "") as -> by (destruct a; [done|cbn in Hlen; lia]).
      str. pose proof (rfind_dot_last "" b Hb) as Hlast. str.
      unfold stem_of_name, suffix_of_name. by rewrite Hlast.
Qed.

Lemma folder_name_of_archive_witness :
  stem_of_name "Site.v2.ZIP" +:+ suffix_of_name "Site.v2.ZIP" = "Site.v2.ZIP"
  ∧ String.length (stem_of_name "Site.v2.ZIP") + 4 = 11.
Proof.
  destruct (folder_name_of_archive "Site.v2.ZIP") as [Hascii _].
  - vm_compute. reflexivity.
  - destruct Hascii as [Hlong _]; [vm_compute; reflexivity|].
    destruct Hlong as (Hcut & _ & Hlen & _); [vm_compute; discriminate|].
    split; [exact Hcut|exact Hlen].
Defined.

(** ** [resolve_extract_path], run after run *)

(** X6.  Once the resolved path is taken (the directory was made), the
    next resolution for the same base name gives another path, free as
    well, and always a numbered one; when the first path was numbered, the
    number of the second is larger.  Two archives with the same base name
    are never extracted into the same directory. *)
Theorem resolve_extract_path_next
    (files : gmap Path node) (destination : Path) (n : string) (x : node) :
  ∃ k,
    2 ≤ k
    ∧ resolve_extract_path
        (<[resolve_extract_path files destination n := x]> files)
        destination n
      = destination // suffixed n k
    ∧ destination // suffixed n k ≠ resolve_extract_path files destination n
    ∧ files !! (destination // suffixed n k) = None
    ∧ ∀ j, resolve_extract_path files destination n
           = destination // suffixed n j → j < k.
Proof.
  set (t := resolve_extract_path files destination n).
  set (files' := <[t := x]> files).
  assert (exists_ files' (destination // n) = true) as Hbase.
  { apply exists_true. unfold files'.
    destruct (decide (t = destination // n)) as [<-|Hne].
    - rewrite lookup_insert_eq. by eexists.
    - rewrite lookup_insert_ne by done. apply exists_true.
      destruct (exists_ files (destination // n)) eqn:E; [done|].
      exfalso. apply Hne. unfold t, resolve_extract_path. by rewrite E. }
  exists (resolve_loop files' destination n (S (size files')) 2).
  assert (resolve_extract_path files' destination n
          = destination // suffixed n
              (resolve_loop files' destination n (S (size files')) 2)) as Hres.
  { unfold resolve_extract_path. by rewrite Hbase. }
  pose proof (resolve_extract_path_free files' destination n) as Hfree.
  rewrite Hres in Hfree.
  assert (destination // suffixed n
            (resolve_loop files' destination n (S (size files')) 2) ≠ t)
    as Hne.
  { intros Heq. rewrite Heq in Hfree. unfold files' in Hfree.
    by rewrite lookup_insert_eq in Hfree. }
  split.
  { pose proof (resolve_loop_bounds files' destination n (S (size files')) 2).
    lia. }
  split; [done|]. split; [done|]. split.
  { unfold files' in Hfree. by rewrite lookup_insert_ne in Hfree. }
  intros j Hj.
  destruct (decide (j < resolve_loop files' destination n (S (size files')) 2))
    as [|Hge]; [done|]. exfalso.
  set (k := resolve_loop files' destination n (S (size files')) 2) in *.
  assert (k ≠ j) as Hkj by (intros ->; by apply Hne).
  assert (2 ≤ k).
  { pose proof (resolve_loop_bounds files' destination n (S (size files')) 2).
    unfold k. lia. }
  (* [t] came out of the loop, which passed over [k] *)
  destruct (exists_ files (destination // n)) eqn:E.
  - assert (t = destination // suffixed n
                  (resolve_loop files destination n (S (size files)) 2)) as Ht.
    { unfold t, resolve_extract_path. by rewrite E. }
    rewrite Ht in Hj. apply joinpath_inj, suffixed_inj in Hj. subst j.
    destruct (resolve_loop_passed files destination n (S (size files)) 2 k)
      as [y Hy]; [lia|].
    unfold files' in Hfree. rewrite lookup_insert_ne in Hfree by done.
    congruence.
  - assert (t = destination // n) as Ht.
    { unfold t, resolve_extract_path. by rewrite E. }
    rewrite Ht in Hj. apply joinpath_inj in Hj.
    apply (f_equal String.length) in Hj. unfold suffixed in Hj.
    rewrite !string_length_app in Hj. cbn in Hj. lia.
Qed.

(** ** [add_todo_entry], call after call *)

(** X7.  [add_todo_entry] only ever appends to the task document: whatever
    its outcome, every other path is as before, no entry is created or
    removed, and the text the document had is kept as the beginning of the
    text it has afterwards, followed by nothing or by the one entry. *)
Theorem add_todo_entry_append_only env todo_file folder_name w o w' :
  add_todo_entry env todo_file folder_name w = (o, w') →
  (∀ q, q ≠ todo_file → fs w' !! q = fs w !! q)
  ∧ dom (fs w') = dom (fs w)
  ∧ (∀ content,
       fs w !! todo_file = Some (File (Text content)) →
       ∃ more, fs w' !! todo_file = Some (File (Text (content +:+ more)))
               ∧ (more = "" ∨ more = entry folder_name))
  ∧ (∀ x, fs w !! todo_file = Some x → (∀ c, x ≠ File (Text c)) →
          fs w' = fs w).
Proof.
  intros Hrun. apply add_todo_entry_effects in Hrun
    as [[Hfs _]|(content' & Hdoc & _ & Hfs & _)]; rewrite Hfs.
  - split; [done|]. split; [done|]. split; [|done].
    intros content Hcontent. exists "". rewrite string_app_nil_r. by split; [|left].
  - split; [intros q Hq; by rewrite lookup_insert_ne|].
    split; [by apply dom_insert_lookup_L|]. split.
    + intros content Hcontent. exists (entry folder_name).
      rewrite lookup_insert_eq. split; [congruence|by right].
    + intros x Hx Hnot. rewrite Hdoc in Hx. injection Hx as <-.
      by destruct (Hnot content').
Qed.

Lemma add_todo_entry_append_only_witness :
  ∃ more,
    fs (add_todo_entry quiet_env todo_md "site_2" example_world).2 !! todo_md
    = Some (File (Text ("# Projects" +:+ more)))
    ∧ (more = "" ∨ more = entry "site_2").
Proof.
  destruct (add_todo_entry_append_only quiet_env todo_md "site_2" example_world
              (add_todo_entry quiet_env todo_md "site_2" example_world).1
              (add_todo_entry quiet_env todo_md "site_2" example_world).2)
    as (_ & _ & Hkept & _).
  - vm_compute. reflexivity.
  - apply Hkept. vm_compute. reflexivity.
Defined.

(** A heading that is found stays found when text is added at the end. *)
Lemma re_search_heading_app folder_name content more :
  re_search (heading_pattern folder_name) content = true →
  re_search (heading_pattern folder_name) (content +:+ more) = true.
Proof.
  rewrite !re_search_heading.
  intros (before & text & slash & after & -> & Hb & Ht & Hs).
  exists before, text, slash, (after +:+ more).
  by rewrite !string_app_assoc.
Qed.

Lemma add_todo_entries_run env todo_file names :
  no_io_errors env →
  Forall (λ n, no_LF n = true) names →
  ∀ w content,
    fs w !! todo_file = Some (File (Text content)) →
    ∃ added w',
      add_todo_entries env todo_file names w = (Ok tt, w')
      ∧ NoDup added
      ∧ added ⊆ names
      ∧ (∀ a, a ∈ added →
              re_search (heading_pattern a) content = false)
      ∧ fs w' !! todo_file = Some (File (Text (content +:+ entries added)))
      ∧ (∀ q, q ≠ todo_file → fs w' !! q = fs w !! q)
      ∧ ∀ a, a ∈ names →
             re_search (heading_pattern a) (content +:+ entries added) = true.
Proof.
  intros Hio. induction 1 as [|n names Hn Hnames IH]; intros w content Hdoc.
  - exists [], w. cbn. rewrite string_app_nil_r.
    split; [done|]. split; [constructor|]. split; [done|].
    split; [by intros a Ha%elem_of_nil|]. split; [done|]. split; [done|].
    by intros a Ha%elem_of_nil.
  - unfold add_todo_entries. cbn [for_each].
    fold (add_todo_entries env todo_file names).
    unfold mbind at 1, M_bind.
    rewrite add_todo_entry_unfold, Hdoc. red_world. rewrite !Hio.
    destruct (re_search (heading_pattern n) content) eqn:Hfound.
    + destruct (IH {| fs := fs w; trace := trace w; tick := S (tick w) |}
                  content Hdoc)
        as (added & w' & Hrun & Hnd & Hsub & Hnew & Hfinal & Hframe & Hall).
      exists added, w'. split; [done|]. split; [done|].
      split; [intros a Ha; right; by apply Hsub|].
      split; [done|]. split; [done|]. split; [done|].
      intros a [->|Ha]%elem_of_cons; [|by apply Hall].
      by apply re_search_heading_app.
    + destruct (IH {| fs := <[todo_file :=
                                File (Text (content +:+ entry n))]> (fs w);
                      trace := trace w ++ [Append todo_file (entry n);
                                           Log (TODO n)];
                      tick := S (S (tick w)) |}
                  (content +:+ entry n))
        as (added & w' & Hrun & Hnd & Hsub & Hnew & Hfinal & Hframe & Hall).
      { cbn. apply lookup_insert_eq. }
      exists (n :: added), w'. cbn [entries foldr]. fold (entries added).
      rewrite <- string_app_assoc.
      split; [done|]. split.
      { constructor; [|done]. intros Hin. apply Hnew in Hin.
        by rewrite entry_is_found in Hin. }
      split.
      { intros a [->|Ha]%elem_of_cons; [left|right; by apply Hsub]. }
      split.
      { intros a [->|Ha]%elem_of_cons; [done|].
        destruct (re_search (heading_pattern a) content) eqn:E; [|done].
        apply (re_search_heading_app _ _ (entry n)) in E.
        by rewrite (Hnew a Ha) in E. }
      split; [done|]. split.
      { intros q Hq. rewrite Hframe by done. cbn. by rewrite lookup_insert_ne. }
      intros a [->|Ha]%elem_of_cons; [|by apply Hall].
      apply re_search_heading_app. by apply entry_is_found.
Qed.

(** X8.  Over any sequence of calls for names without line feed, on a
    readable task document and without I/O errors, each name gets at most
    one entry: the document ends as its old text followed by the entries of
    distinct names, those that had no heading before, and afterwards every
    name of the sequence has a heading. *)
Theorem add_todo_entries_one_entry_per_name
    env todo_file names w content :
  no_io_errors env →
  Forall (λ n, no_LF n = true) names →
  fs w !! todo_file = Some (File (Text content)) →
  ∃ added w',
    add_todo_entries env todo_file names w = (Ok tt, w')
    ∧ NoDup added
    ∧ added ⊆ names
    ∧ (∀ a, a ∈ added → re_search (heading_pattern a) content = false)
    ∧ fs w' !! todo_file = Some (File (Text (content +:+ entries added)))
    ∧ (∀ q, q ≠ todo_file → fs w' !! q = fs w !! q)
    ∧ ∀ a, a ∈ names →
           re_search (heading_pattern a) (content +:+ entries added) = true.
Proof. intros Hio Hnames Hdoc. by apply add_todo_entries_run. Qed.

Lemma add_todo_entries_one_entry_per_name_witness :
  ∃ added,
    NoDup added
    ∧ fs (add_todo_entries quiet_env todo_md
            ["site_2"; "site"; "site_2"; "notes"] listed_world).2 !! todo_md
      = Some (File (Text (listed_todo +:+ entries added))).
Proof.
  destruct (add_todo_entries_one_entry_per_name quiet_env todo_md
              ["site_2"; "site"; "site_2"; "notes"] listed_world listed_todo)
    as (added & w' & Hrun & Hnd & _ & _ & Hfinal & _).
  - intros t. reflexivity.
  - repeat constructor.
  - vm_compute. reflexivity.
  - exists added. split; [exact Hnd|]. rewrite Hrun. exact Hfinal.
Defined.

(** ** The phases of [process_zip_file] *)

Lemma log_logged w m : log (logged w m) = log w ++ [m].
Proof. unfold log, logged. cbn. by rewrite omap_app. Qed.

Lemma unlink_effects env p w o w' :
  unlink env p w = (o, w') →
  (o = Ok tt ∧ (∃ d, fs w !! p = Some (File d))
   ∧ fs w' = delete p (fs w) ∧ trace w' = trace w ++ [Unlink p])
  ∨ (∃ e, o = Raise e ∧ fs w' = fs w ∧ trace w' = trace w).
Proof.
  unfold unlink, syscall. run. destruct (io_error env (tick w)); cbn.
  { intros [= <- <-]. right. by eexists. }
  destruct (fs w !! p) as [[|d]|] eqn:E; cbn; intros [= <- <-];
    [right; by eexists| |right; by eexists].
  left. split; [done|]. split; [by exists d|done].
Qed.

Lemma extracted_keeps (files : gmap Path node) target ms q :
  is_Some (files !! q) → is_Some (extracted target files ms !! q).
Proof.
  revert files. induction ms as [|m ms IH]; intros files Hq; [done|].
  cbn. apply IH. destruct m as [a d|a]; [|done].
  destruct (decide (target ++ a = q)) as [->|Hne].
  - rewrite lookup_insert_eq. by eexists.
  - by rewrite lookup_insert_ne.
Qed.

Lemma mkdirs_only_mkdir above below w o w' :
  mkdirs above below w = (o, w') →
  ∃ tr, trace w' = trace w ++ tr ∧ Forall (λ ev, is_mkdir ev = true) tr.
Proof.
  revert above w. induction below as [|c below IH]; intros above w.
  - intros [= <- <-]. exists []. by rewrite app_nil_r.
  - cbn [mkdirs]. run.
    destruct (fs w !! (above // c)) as [[|data]|] eqn:E; cbn.
    + apply IH.
    + intros [= <- <-]. exists []. by rewrite app_nil_r.
    + intros H. apply IH in H as (tr & Htr & Hq). cbn in *.
      exists (Mkdir (above // c) :: tr). rewrite Htr, <- app_assoc.
      split; [done|]. by constructor.
Qed.

(** A successful [extractall] met supported members only and wrote them
    all. *)
Lemma extractall_ok env ms target w w' :
  extractall env ms target w = (Ok tt, w') →
  Forall (λ m, supported m = true) ms
  ∧ fs w' = extracted target (fs w) ms
  ∧ trace w' = trace w ++ writes target ms.
Proof.
  revert w. induction ms as [|m ms IH]; intros w.
  - intros [= <-]. by rewrite app_nil_r.
  - cbn [extractall]. unfold syscall. run.
    destruct (io_error env (tick w)); cbn; [done|].
    destruct m as [a d|a]; cbn; [|done].
    intros H. apply IH in H as (Hms & Hfs & Htr). cbn in *.
    split; [by constructor|]. split; [done|]. by rewrite Htr, <- app_assoc.
Qed.

(** What a successful extraction step has done. *)
Lemma extraction_ok_effects env p destination w t w' :
  extraction env p destination w = (Ok t, w') →
  t = resolve_extract_path (fs w) destination (stem p)
  ∧ ∃ ms files1 tr1,
      Forall (λ m, supported m = true) ms
      ∧ files1 !! p = Some (File (Zip ms))
      ∧ (∀ q, is_Some (fs w !! q) → files1 !! q = fs w !! q)
      ∧ fs w' = extracted t files1 ms
      ∧ Forall (λ ev, is_mkdir ev = true) tr1
      ∧ trace w' = trace w ++ tr1 ++ writes t ms ++ [Log (EXTRACTED p t)].
Proof.
  unfold extraction.
  set (target := resolve_extract_path (fs w) destination (stem p)).
  unfold mbind at 1, M_bind, gets. fold target.
  unfold mbind at 1, M_bind.
  destruct (mkdir env target w) as [[[]|e1] w1] eqn:Hmkdir; [|done].
  unfold mbind at 1, M_bind.
  destruct (ZipFile env p w1) as [[zf|e2] w2] eqn:Hzip; [|done].
  unfold mbind at 1, M_bind.
  destruct (extractall env zf target w2) as [[[]|e3] w3] eqn:Hext; [|done].
  run. intros [= <- <-]. split; [done|].
  apply extractall_ok in Hext as (Hms & Hfs3 & Htr3).
  assert (fs w2 = fs w1 ∧ trace w2 = trace w1
          ∧ fs w1 !! p = Some (File (Zip zf))) as (Hfs2 & Htr2 & Hp).
  { revert Hzip. unfold ZipFile, syscall. run.
    destruct (io_error env (tick w1)); cbn; [done|].
    by destruct (fs w1 !! p) as [[|[]]|]; intros [= <- <-]. }
  pose proof Hmkdir as Hkeep. apply mkdir_effects in Hkeep as [Hkeep _].
  assert (∃ tr1, trace w1 = trace w ++ tr1
                 ∧ Forall (λ ev, is_mkdir ev = true) tr1) as (tr1 & Htr1 & Hq1).
  { revert Hmkdir. unfold mkdir, syscall. run.
    destruct (io_error env (tick w)); cbn; [done|].
    intros H. by apply mkdirs_only_mkdir in H. }
  exists zf, (fs w1), tr1. split; [done|]. split; [done|]. split; [done|].
  split; [by rewrite Hfs3, Hfs2|]. split; [done|].
  by rewrite Htr3, Htr2, Htr1, <- !app_assoc.
Qed.

Lemma process_zip_file_phases env w p destination todo_file retries delay :
  ∃ o w1 tr0,
    wait_for_file_ready env p retries delay w = (o, w1)
    ∧ fs w1 = fs w
    ∧ trace w1 = trace w ++ tr0
    ∧ Forall (λ ev, probe_or_sleep ev = true) tr0
    ∧ (∀ e, o = Raise e → sleep_length env delay = Raise e)
    ∧ process_zip_file env p destination todo_file retries delay w
      = match o with
        | Ok true =>
            match extraction env p destination w1 with
            | (Raise e, w2) => (Ok tt, logged w2 (ERROR p e))
            | (Ok t, w2) =>
                match unlink env p w2 with
                | (Raise e, w3) => (Ok tt, logged w3 (ERROR p e))
                | (Ok _, w3) =>
                    match add_todo_entry env todo_file (name t)
                            (logged w3 (DELETED p)) with
                    | (Raise e, w4) => (Ok tt, logged w4 (ERROR p e))
                    | (Ok _, w4) => (Ok tt, w4)
                    end
                end
            end
        | Ok false =>
            match timeout_seconds retries delay with
            | Ok t => (Ok tt, logged w1 (TIMEOUT p t))
            | Raise e => (Raise e, w1)
            end
        | Raise e => (Raise e, w1)
        end.
Proof.
  destruct (process_zip_file_by_probe env w p destination todo_file retries
              delay)
    as (o & w1 & tr0 & Hwait & Hfs1 & Htr1 & Hq0 & He & _ & ->).
  exists o, w1, tr0. split; [done|]. split; [done|]. split; [done|].
  split; [done|]. split; [done|].
  destruct o as [[]|e]; [|done|done].
  rewrite try_block_after_extraction.
  unfold mbind at 1, M_bind.
  destruct (extraction env p destination _) as [[t|e] w2]; [|done].
  unfold mbind at 1, M_bind.
  destruct (unlink env p w2) as [[[]|e] w3]; [|done].
  unfold mbind at 1, M_bind, logger_info, emit. fold (logged w3 (DELETED p)).
  by destruct (add_todo_entry env todo_file (name t) _) as [[[]|e] w4].
Qed.

Lemma extractall_keeps env ms target w o w' :
  extractall env ms target w = (o, w') →
  ∀ q, is_Some (fs w !! q) → is_Some (fs w' !! q).
Proof.
  revert w. induction ms as [|m ms IH]; intros w.
  - by intros [= <- <-].
  - cbn [extractall]. unfold syscall. run.
    destruct (io_error env (tick w)); cbn; [by intros [= <- <-]|].
    destruct m as [a d|a]; cbn; [|by intros [= <- <-]].
    intros H q Hq. apply (IH _ H). cbn.
    destruct (decide (target ++ a = q)) as [->|Hne].
    + rewrite lookup_insert_eq. by eexists.
    + by rewrite lookup_insert_ne.
Qed.

Lemma ZipFile_reads env p w o w' :
  ZipFile env p w = (o, w') → fs w' = fs w ∧ trace w' = trace w.
Proof.
  unfold ZipFile, syscall. run.
  destruct (io_error env (tick w)); cbn; [by intros [= <- <-]|].
  by destruct (fs w !! p) as [[|[]]|]; intros [= <- <-].
Qed.

Lemma extraction_keeps env p destination w o w' :
  extraction env p destination w = (o, w') →
  ∀ q, is_Some (fs w !! q) → is_Some (fs w' !! q).
Proof.
  unfold extraction.
  set (target := resolve_extract_path (fs w) destination (stem p)).
  unfold mbind at 1, M_bind, gets. fold target.
  unfold mbind at 1, M_bind.
  destruct (mkdir env target w) as [[[]|e1] w1] eqn:Hmkdir.
  2:{ intros [= <- <-] q Hq. apply mkdir_effects in Hmkdir as [Hkeep _].
      by rewrite Hkeep. }
  apply mkdir_effects in Hmkdir as [Hkeep1 _].
  unfold mbind at 1, M_bind.
  destruct (ZipFile env p w1) as [[zf|e2] w2] eqn:Hzip;
    apply ZipFile_reads in Hzip as [Hfs2 _].
  2:{ intros [= <- <-] q Hq. by rewrite Hfs2, Hkeep1. }
  unfold mbind at 1, M_bind.
  destruct (extractall env zf target w2) as [[[]|e3] w3] eqn:Hext.
  - run. intros [= <- <-] q Hq. cbn. apply (extractall_keeps _ _ _ _ _ _ Hext).
    by rewrite Hfs2, Hkeep1.
  - intros [= <- <-] q Hq. apply (extractall_keeps _ _ _ _ _ _ Hext).
    by rewrite Hfs2, Hkeep1.
Qed.

Ltac trace_eq :=
  rewrite <- ?app_assoc; cbn [app]; rewrite <- ?app_assoc; cbn [app];
  rewrite <- ?app_assoc; cbn [app]; try done.

(** Every call that returns ends in one of the four ways; the exception
    of a call that raises is that of [time.sleep] or that of the conversion
    of the product, and then the call has only probed and slept. *)
Lemma process_zip_file_ends env w p destination todo_file retries delay :
  ∃ o w',
    process_zip_file env p destination todo_file retries delay w = (o, w')
    ∧ match o with
      | Ok _ =>
          run_ends w p todo_file
            (resolve_extract_path (fs w) destination (stem p))
            (timeout_seconds retries delay) w'
      | Raise e =>
          (sleep_length env delay = Raise e
           ∨ timeout_seconds retries delay = Raise e)
          ∧ fs w' = fs w
          ∧ ∃ tr0, trace w' = trace w ++ tr0
                   ∧ Forall (λ ev, probe_or_sleep ev = true) tr0
      end.
Proof.
  destruct (process_zip_file_phases env w p destination todo_file retries delay)
    as (o & w1 & tr0 & _ & Hfs1 & Htr1 & Hq0 & He & ->).
  destruct o as [[]|e0].
  3:{ eexists _, _. split; [done|]. split; [left; by apply He|].
      split; [done|]. by exists tr0. }
  2:{ destruct (timeout_seconds retries delay) as [t|e] eqn:Htimeout.
      - eexists _, _. split; [done|].
        apply (ends_timeout _ _ _ _ _ _ tr0 t); [done|done|done|].
        cbn. rewrite Htr1. trace_eq.
      - eexists _, _. split; [done|]. split; [by right|].
        split; [done|]. by exists tr0. }
  destruct (extraction env p destination w1) as [[t|e] w2] eqn:Hext.
  2:{ eexists _, _. split; [done|].
      pose proof (extraction_keeps _ _ _ _ _ _ Hext) as Hstay.
      apply extraction_raise_effects in Hext as (Hkeep & tr & Htr & Hq).
      rewrite Hfs1 in Hkeep, Hstay.
      apply (ends_extraction_error _ _ _ _ _ _ tr0 tr e); [done|done| | |].
      - intros q Hq1 Hout. by apply Hkeep.
      - done.
      - cbn. rewrite Htr, Htr1. trace_eq. }
  apply extraction_ok_effects in Hext
    as (-> & ms & files1 & tr1 & Hms & Hp & Hfiles1 & Hfs2 & Hq1 & Htr2).
  rewrite Hfs1 in *.
  set (t := resolve_extract_path (fs w) destination (stem p)) in *.
  destruct (unlink env p w2) as [o3 w3] eqn:Hunlink.
  apply unlink_effects in Hunlink
    as [(-> & _ & Hfs3 & Htr3)|(e & -> & Hfs3 & Htr3)].
  2:{ eexists _, _. split; [done|].
      apply (ends_deletion_error _ _ _ _ _ _ tr0 tr1 ms files1 e);
        try done; cbn; [by rewrite Hfs3|].
      rewrite Htr3, Htr2, Htr1. trace_eq. }
  destruct (add_todo_entry env todo_file (name t) (logged w3 (DELETED p)))
    as [o4 w4] eqn:Htodo.
  assert (trace (logged w3 (DELETED p))
          = trace w ++ tr0 ++ tr1 ++ writes t ms
            ++ [Log (EXTRACTED p t); Unlink p; Log (DELETED p)]) as Htr3'.
  { cbn. rewrite Htr3, Htr2, Htr1. trace_eq. }
  assert (fs (logged w3 (DELETED p)) = delete p (extracted t files1 ms))
    as Hfs3' by (cbn; by rewrite Hfs3, Hfs2).
  apply add_todo_entry_effects in Htodo
    as [[Hfs4 Htr4]|(content & Hdoc & -> & Hfs4 & Htr4)].
  - destruct o4 as [[]|e]; eexists _, _; (split; [done|]).
    + apply (ends_deleted _ _ _ _ _ _ tr0 tr1 ms files1 []); try done.
      * by rewrite Htr4, Htr3', app_nil_r.
      * left. split; [done|]. by rewrite Hfs4.
    + apply (ends_deleted _ _ _ _ _ _ tr0 tr1 ms files1 [Log (ERROR p e)]);
        try done.
      * cbn [logged trace]. rewrite Htr4, Htr3'. trace_eq.
      * right. left. exists e. split; [done|]. cbn. by rewrite Hfs4.
  - eexists _, _. split; [done|].
    apply (ends_deleted _ _ _ _ _ _ tr0 tr1 ms files1
             [Append todo_file (entry (name t)); Log (TODO (name t))]);
      try done.
    + rewrite Htr4, Htr3'. trace_eq.
    + right. right. exists content. rewrite <- Hfs3'. by rewrite Hfs4.
Qed.

(** A call that has returned. *)
Lemma process_zip_file_returns
    env w p destination todo_file retries delay w' :
  process_zip_file env p destination todo_file retries delay w = (Ok tt, w') →
  run_ends w p todo_file (resolve_extract_path (fs w) destination (stem p))
    (timeout_seconds retries delay) w'.
Proof.
  intros Hrun.
  destruct (process_zip_file_ends env w p destination todo_file retries delay)
    as (o & w'' & Hrun' & Hends).
  rewrite Hrun in Hrun'. by injection Hrun' as <- <-.
Qed.

(** ** What a call logs *)

Lemma log_logs w : log w = logs (trace w).
Proof. done. Qed.

Lemma logs_app tr1 tr2 : logs (tr1 ++ tr2) = logs tr1 ++ logs tr2.
Proof. apply omap_app. Qed.

Lemma logs_probes tr :
  Forall (λ ev, probe_or_sleep ev = true) tr → logs tr = [].
Proof. apply log_of_probes. Qed.

Lemma logs_writes_or_mkdirs tr :
  Forall (λ ev, mkdir_or_write ev = true) tr → logs tr = [].
Proof. apply log_of_writes. Qed.

Lemma logs_mkdirs tr : Forall (λ ev, is_mkdir ev = true) tr → logs tr = [].
Proof.
  induction 1 as [|ev tr Hev _ IH]; [done|]. cbn. fold (logs tr).
  rewrite IH. by destruct ev.
Qed.

Lemma logs_writes target ms : logs (writes target ms) = [].
Proof.
  induction ms as [|[a d|a] ms IH]; [done| |]; cbn; by fold (logs (writes target ms)).
Qed.

(** The lines of one call, by the way it ends. *)
Lemma run_ends_log w p todo_file t timeout w' :
  run_ends w p todo_file t timeout w' →
  (∃ seconds, timeout = Ok seconds ∧ log w' = log w ++ [TIMEOUT p seconds])
  ∨ (∃ e, log w' = log w ++ [ERROR p e])
  ∨ (∃ e, log w' = log w ++ [EXTRACTED p t; ERROR p e])
  ∨ log w' = log w ++ [EXTRACTED p t; DELETED p]
  ∨ log w' = log w ++ [EXTRACTED p t; DELETED p; TODO (name t)]
  ∨ (∃ e, log w' = log w ++ [EXTRACTED p t; DELETED p; ERROR p e]).
Proof.
  intros [tr0 seconds Hseconds Hq0 _ Htr|tr0 tr e Hq0 Hq _ _ Htr
         |tr0 tr1 ms files1 e Hq0 Hq1 _ _ _ _ Htr
         |tr0 tr1 ms files1 rest Hq0 Hq1 _ _ _ Htr Hrest];
    rewrite !log_logs, Htr, !logs_app, ?logs_writes, (logs_probes tr0) by done.
  - left. by exists seconds.
  - rewrite (logs_writes_or_mkdirs tr) by done. right. left. by exists e.
  - rewrite (logs_mkdirs tr1) by done. right. right. left. by exists e.
  - rewrite (logs_mkdirs tr1) by done.
    destruct Hrest as [[-> _]|[(e & -> & _)|(content & _ & -> & _)]].
    + do 3 right. left. done.
    + do 5 right. by exists e.
    + do 4 right. left. done.
Qed.

(** X9.  A call of [process_zip_file] that returns has added to the log
    one of six runs of lines: a TIMEOUT; an ERROR (the extraction failed);
    EXTRACTED and an ERROR (the deletion failed); EXTRACTED and DELETED;
    these two and TODO; or these two and an ERROR (the task document could
    not be read or written, after the archive was deleted).  A call that
    raises has logged nothing and changed no file, and its exception is
    that of [time.sleep] on the delay or that of [int] on the product. *)
Theorem process_zip_file_log_lines
    env w p destination todo_file retries delay :
  ∃ o w',
    process_zip_file env p destination todo_file retries delay w = (o, w')
    ∧ match o with
      | Ok _ =>
          (∃ t, timeout_seconds retries delay = Ok t
                ∧ log w' = log w ++ [TIMEOUT p t])
          ∨ (∃ e, log w' = log w ++ [ERROR p e])
          ∨ (∃ e, log w'
                  = log w
                    ++ [EXTRACTED p
                          (resolve_extract_path (fs w) destination (stem p));
                        ERROR p e])
          ∨ log w'
            = log w ++ [EXTRACTED p
                          (resolve_extract_path (fs w) destination (stem p));
                        DELETED p]
          ∨ log w'
            = log w ++ [EXTRACTED p
                          (resolve_extract_path (fs w) destination (stem p));
                        DELETED p;
                        TODO (name (resolve_extract_path (fs w) destination
                                      (stem p)))]
          ∨ (∃ e, log w'
                  = log w
                    ++ [EXTRACTED p
                          (resolve_extract_path (fs w) destination (stem p));
                        DELETED p; ERROR p e])
      | Raise e =>
          log w' = log w
          ∧ fs w' = fs w
          ∧ (sleep_length env delay = Raise e
             ∨ timeout_seconds retries delay = Raise e)
      end.
Proof.
  destruct (process_zip_file_ends env w p destination todo_file retries delay)
    as (o & w' & Hrun & Hends).
  exists o, w'. split; [done|]. destruct o as [[]|e].
  - by apply (run_ends_log _ _ todo_file).
  - destruct Hends as (Hwhy & Hfs & tr0 & Htr & Hq0).
    split; [|done].
    by rewrite !log_logs, Htr, logs_app, (logs_probes tr0), app_nil_r.
Qed.

(** ** What a call does to the files *)

(** X10.  The archive is deleted only after it was extracted whole: when a
    file that existed before the call is gone after it, the file was a
    readable archive, every member of it was supported and written below the
    target, and only then, after the EXTRACTED line, the file was unlinked. *)
Theorem archive_deleted_only_after_extraction
    env w p destination todo_file retries delay w' x :
  process_zip_file env p destination todo_file retries delay w = (Ok tt, w') →
  fs w !! p = Some x →
  fs w' !! p = None →
  ∃ ms tr0 tr1 rest,
    x = File (Zip ms)
    ∧ Forall (λ m, supported m = true) ms
    ∧ Forall (λ ev, probe_or_sleep ev = true) tr0
    ∧ Forall (λ ev, is_mkdir ev = true) tr1
    ∧ trace w'
      = trace w ++ tr0 ++ tr1
        ++ writes (resolve_extract_path (fs w) destination (stem p)) ms
        ++ [Log (EXTRACTED p (resolve_extract_path (fs w) destination (stem p)));
            Unlink p; Log (DELETED p)]
        ++ rest.
Proof.
  intros Hrun Hx Hgone.
  pose proof (process_zip_file_returns _ _ _ _ _ _ _ _ Hrun) as Hends.
  destruct Hends as [tr0 seconds _ _ Hfs _|tr0 tr e _ _ _ Hstay _
                    |tr0 tr1 ms files1 e _ _ _ Hp _ Hfs _
                    |tr0 tr1 ms files1 rest Hq0 Hq1 Hms Hp Hfiles1 Htr _].
  - rewrite Hfs, Hx in Hgone. done.
  - destruct (Hstay p) as [y Hy]; [by eexists|]. congruence.
  - destruct (extracted_keeps files1
                (resolve_extract_path (fs w) destination (stem p)) ms p)
      as [y Hy]; [by eexists|]. rewrite Hfs in Hgone. congruence.
  - exists ms, tr0, tr1, rest. rewrite Hfiles1, Hx in Hp by by eexists.
    injection Hp as ->. done.
Qed.

Lemma archive_deleted_only_after_extraction_witness :
  ∃ tr0 tr1 rest,
    trace (process_zip_file settling_env site_zip destination_folder todo_md
             30 two_seconds example_world).2
    = trace example_world ++ tr0 ++ tr1
      ++ writes (resolve_extract_path (fs example_world) destination_folder
                   (stem site_zip)) site_members
      ++ [Log (EXTRACTED site_zip
                 (resolve_extract_path (fs example_world) destination_folder
                    (stem site_zip)));
          Unlink site_zip; Log (DELETED site_zip)]
      ++ rest.
Proof.
  destruct (archive_deleted_only_after_extraction settling_env example_world
              site_zip destination_folder todo_md 30 two_seconds
              (process_zip_file settling_env site_zip destination_folder
                 todo_md 30 two_seconds example_world).2
              (File (Zip site_members)))
    as (ms & tr0 & tr1 & rest & Hms & _ & _ & _ & Htrace).
  - vm_compute. reflexivity.
  - vm_compute. reflexivity.
  - vm_compute. reflexivity.
  - injection Hms as <-. by exists tr0, tr1, rest.
Defined.

(** X11.  In a file system that is a tree, a call never overwrites what
    exists: whatever the environment does, every entry that existed before
    the call is afterwards as it was, except that the archive may be gone
    and the task document may have one entry more at its end. *)
Theorem process_zip_file_overwrites_nothing
    env w p destination todo_file retries delay w' q x :
  tree (fs w) →
  process_zip_file env p destination todo_file retries delay w = (Ok tt, w') →
  fs w !! q = Some x →
  fs w' !! q = Some x
  ∨ (q = p ∧ fs w' !! q = None)
  ∨ (q = todo_file
     ∧ ∃ content,
         x = File (Text content)
         ∧ fs w' !! q
           = Some (File (Text (content +:+
               entry (name (resolve_extract_path (fs w) destination
                              (stem p))))))).
Proof.
  intros Htree Hrun Hx.
  pose proof (process_zip_file_returns _ _ _ _ _ _ _ _ Hrun) as Hends.
  pose proof (resolve_extract_path_free (fs w) destination (stem p)) as Hfree.
  destruct (resolve_extract_path_below (fs w) destination (stem p)) as [c Hc].
  set (t := resolve_extract_path (fs w) destination (stem p)) in *.
  assert (∀ a, q ≠ t ++ a) as Hout.
  { intros a. apply (free_not_above (fs w)); [done|done| |by eexists].
    rewrite Hc. apply joinpath_not_nil. }
  assert (∀ files1 ms, (∀ q, is_Some (fs w !! q) → files1 !! q = fs w !! q) →
            extracted t files1 ms !! q = Some x) as Hext.
  { intros files1 ms Hfiles1. rewrite extracted_other by done.
    rewrite Hfiles1 by by eexists. done. }
  destruct Hends as [tr0 seconds _ _ Hfs _|tr0 tr e _ _ Hkeep _ _
                    |tr0 tr1 ms files1 e _ _ _ _ Hfiles1 Hfs _
                    |tr0 tr1 ms files1 rest _ _ _ _ Hfiles1 _ Hrest].
  - left. by rewrite Hfs.
  - left. rewrite Hkeep; [done|by eexists|done].
  - left. rewrite Hfs. by apply Hext.
  - destruct (decide (q = p)) as [->|Hqp].
    + right. left. split; [done|].
      destruct Hrest as [[_ ->]|[(e & _ & ->)|(content & Hdoc & _ & ->)]].
      * apply lookup_delete_eq.
      * apply lookup_delete_eq.
      * rewrite lookup_insert_ne; [apply lookup_delete_eq|].
        intros <-. by rewrite lookup_delete_eq in Hdoc.
    + assert (delete p (extracted t files1 ms) !! q = Some x) as Hq.
      { rewrite lookup_delete_ne by done. by apply Hext. }
      destruct Hrest as [[_ ->]|[(e & _ & ->)|(content & Hdoc & _ & ->)]];
        [by left|by left|].
      destruct (decide (q = todo_file)) as [->|Hqt].
      * right. right. split; [done|]. exists content.
        rewrite Hq in Hdoc. injection Hdoc as ->.
        split; [done|]. apply lookup_insert_eq.
      * left. by rewrite lookup_insert_ne.
Qed.

Lemma process_zip_file_overwrites_nothing_witness :
  fs (process_zip_file settling_env site_zip destination_folder todo_md
        30 two_seconds example_world).2 !! ["C:"; "Dev"; "site"]
  = Some Dir.
Proof.
  destruct (process_zip_file_overwrites_nothing settling_env example_world
              site_zip destination_folder todo_md 30 two_seconds
              (process_zip_file settling_env site_zip destination_folder
                 todo_md 30 two_seconds example_world).2
              ["C:"; "Dev"; "site"] Dir)
    as [H|[[H _]|[H _]]].
  - apply (bool_decide_unpack _). vm_compute. exact I.
  - vm_compute. reflexivity.
  - vm_compute. reflexivity.
  - exact H.
  - discriminate H.
  - discriminate H.
Defined.

(** X12.  When the deletion fails, nothing is rolled back.  A call whose
    lines are EXTRACTED and then ERROR has written every member of the
    archive below the target, has left the archive in place and has not
    touched the task document: it has neither deleted nor appended. *)
Theorem deletion_failure_keeps_everything
    env w p destination todo_file retries delay w' e ms :
  tree (fs w) →
  process_zip_file env p destination todo_file retries delay w = (Ok tt, w') →
  log w' = log w ++ [EXTRACTED p (resolve_extract_path (fs w) destination
                                    (stem p));
                     ERROR p e] →
  fs w !! p = Some (File (Zip ms)) →
  fs w' !! p = Some (File (Zip ms))
  ∧ (NoDup (arcname_of <$> ms) →
     ∀ a d, Member a d ∈ ms →
            fs w' !! (resolve_extract_path (fs w) destination (stem p) ++ a)
            = Some (File (Text d)))
  ∧ (∀ x, fs w !! todo_file = Some x → fs w' !! todo_file = Some x)
  ∧ ∃ tr, trace w' = trace w ++ tr
          ∧ Forall (λ ev, deletes_or_appends ev = false) tr.
Proof.
  intros Htree Hrun Hlog Hp.
  pose proof (process_zip_file_returns _ _ _ _ _ _ _ _ Hrun) as Hends.
  pose proof (resolve_extract_path_free (fs w) destination (stem p)) as Hfree.
  destruct (resolve_extract_path_below (fs w) destination (stem p)) as [c Hc].
  set (t := resolve_extract_path (fs w) destination (stem p)) in *.
  assert (∀ q, is_Some (fs w !! q) → ∀ a, q ≠ t ++ a) as Hout.
  { intros q Hq a. apply (free_not_above (fs w)); [done|done| |done].
    rewrite Hc. apply joinpath_not_nil. }
  destruct Hends as [tr0 seconds _ Hq0 _ Htr|tr0 tr e' Hq0 Hq _ _ Htr
                    |tr0 tr1 ms' files1 e' Hq0 Hq1 _ Hp' Hfiles1 Hfs Htr
                    |tr0 tr1 ms' files1 rest Hq0 Hq1 _ _ _ Htr Hrest];
    rewrite !log_logs, Htr, !logs_app, ?logs_writes, (logs_probes tr0) in Hlog
      by done.
  - by apply app_inv_head in Hlog.
  - rewrite (logs_writes_or_mkdirs tr) in Hlog by done.
    by apply app_inv_head in Hlog.
  - rewrite Hfiles1, Hp in Hp' by by eexists. injection Hp' as <-.
    split; [|split; [|split]].
    + rewrite Hfs, extracted_other by (apply Hout; by eexists).
      rewrite Hfiles1 by by eexists. done.
    + intros Hnd a d Hin. rewrite Hfs. by apply extracted_member.
    + intros x Hx. rewrite Hfs, extracted_other by (apply Hout; by eexists).
      rewrite Hfiles1 by by eexists. done.
    + eexists. split; [exact Htr|].
      apply Forall_app. split.
      { eapply Forall_impl; [exact Hq0|]. by intros []. }
      apply Forall_app. split.
      { eapply Forall_impl; [exact Hq1|]. by intros []. }
      apply Forall_app. split; [|by repeat constructor].
      clear. induction ms as [|[a d|a] ms IH]; cbn; [done| |done].
      by constructor.
  - rewrite (logs_mkdirs tr1) in Hlog by done.
    apply app_inv_head in Hlog.
    destruct Hrest as [[-> _]|[(e' & -> & _)|(content & _ & -> & _)]];
      by cbn in Hlog.
Qed.

Lemma deletion_failure_keeps_everything_witness :
  fs (process_zip_file (denied_at 5) site_zip destination_folder todo_md
        30 two_seconds example_world).2 !! site_zip
  = Some (File (Zip site_members))
  ∧ fs (process_zip_file (denied_at 5) site_zip destination_folder todo_md
          30 two_seconds example_world).2
      !! ["C:"; "Dev"; "site_2"; "index.html"]
    = Some (File (Text "<html></html>")).
Proof.
  destruct (deletion_failure_keeps_everything (denied_at 5) example_world
              site_zip destination_folder todo_md 30 two_seconds
              (process_zip_file (denied_at 5) site_zip destination_folder
                 todo_md 30 two_seconds example_world).2
              PermissionError site_members)
    as (Hkept & Hmembers & _).
  - apply (bool_decide_unpack _). vm_compute. exact I.
  - vm_compute. reflexivity.
  - vm_compute. reflexivity.
  - vm_compute. reflexivity.
  - split; [exact Hkept|].
    apply (Hmembers ltac:(apply (bool_decide_unpack _); vm_compute; exact I)
             ["index.html"] "<html></html>").
    apply list_elem_of_In. cbn. by left.
Defined.

(** X13.  A directory handed to [process_zip_file], as the scans do with a
    directory named like an archive, is never opened: with a delay that
    [time.sleep] accepts and a product that [int] converts, the call probes
    it through the whole budget, logs one TIMEOUT and changes nothing. *)
Theorem process_zip_file_on_directory
    env w p destination todo_file retries delay d t :
  fs w !! p = Some Dir →
  sleep_length env delay = Ok d →
  timeout_seconds retries delay = Ok t →
  process_zip_file env p destination todo_file retries delay w
  = (Ok tt,
     {| fs := fs w;
        trace := trace w ++ failed_attempts p d (Z.to_nat retries)
                 ++ [Log (TIMEOUT p t)];
        tick := tick w + Z.to_nat retries |})
  ∧ ((0 ≤ retries)%Z →
     (slept (failed_attempts p d (Z.to_nat retries))
      == inject_Z retries * seconds d)%Q).
Proof.
  intros Hdir Hsleep Htimeout. split.
  - rewrite (process_zip_file_never_ready _ _ _ _ _ _ _ d), Htimeout;
      [done|done|].
    intros i _. unfold exclusive_open. by rewrite Hdir.
  - intros Hr. rewrite failed_attempts_slept. by rewrite Z2Nat.id.
Qed.

Lemma process_zip_file_on_directory_witness :
  log (process_zip_file quiet_env photos_zip destination_folder todo_md
         30 two_seconds example_world).2
  = [TIMEOUT photos_zip 60].
Proof.
  destruct (process_zip_file_on_directory quiet_env example_world photos_zip
              destination_folder todo_md 30 two_seconds (whole_seconds 2)
              60%Z) as [Hrun _].
  - vm_compute. reflexivity.
  - vm_compute. reflexivity.
  - vm_compute. reflexivity.
  - rewrite Hrun. vm_compute. reflexivity.
Defined.

(** ** The event handler *)

Lemma _handle_cases env self file_path change_type w :
  _handle env self file_path change_type w
  = if ends_with ".zip" (lower (name file_path))
       && negb (String.length (name file_path) =? 4)
    then
      match sleep_length env (settle_delay self) with
      | Ok d =>
          process_zip_file env file_path (handler_destination self)
            (handler_todo_file self)
            (file_lock_retries (handler_config self))
            (file_lock_retry_delay_seconds (handler_config self))
            (detected w change_type file_path d)
      | Raise e => (Raise e, logged w (DETECTED change_type file_path))
      end
    else (Ok tt, w).
Proof.
  unfold _handle, suffix. rewrite suffix_test_agrees.
  destruct (ends_with _ _ && _); [|done].
  cbn [negb]. unfold logger_info. run. unfold sleep.
  destruct (sleep_length env (settle_delay self)) as [d|e]; [|done].
  run. unfold detected. by rewrite <- app_assoc.
Qed.

(** X14.  The event handler acts on an event exactly when the event is not
    a directory event and the name of the path (the source path of a
    creation, the destination path of a move) ends in [.zip] in some case of
    the ASCII letters and is longer than that suffix.  It then logs
    DETECTED, lets the settle delay pass and only then runs
    [process_zip_file]; a settle delay that [time.sleep] rejects makes it
    raise after the DETECTED line, before any file is looked at.  On any
    other event it does nothing at all. *)
Theorem handler_acts_on_archives_only env self event w :
  on_created env self event w
  = (if negb (is_directory event)
        && ends_with ".zip" (lower (name (src_path event)))
        && negb (String.length (name (src_path event)) =? 4)
     then
       match sleep_length env (settle_delay self) with
       | Ok d =>
           process_zip_file env (src_path event) (handler_destination self)
             (handler_todo_file self)
             (file_lock_retries (handler_config self))
             (file_lock_retry_delay_seconds (handler_config self))
             (detected w "Created" (src_path event) d)
       | Raise e => (Raise e, logged w (DETECTED "Created" (src_path event)))
       end
     else (Ok tt, w))
  ∧ on_moved env self event w
    = (if negb (is_directory event)
          && ends_with ".zip" (lower (name (dest_path event)))
          && negb (String.length (name (dest_path event)) =? 4)
       then
         match sleep_length env (settle_delay self) with
         | Ok d =>
             process_zip_file env (dest_path event) (handler_destination self)
               (handler_todo_file self)
               (file_lock_retries (handler_config self))
               (file_lock_retry_delay_seconds (handler_config self))
               (detected w "Renamed" (dest_path event) d)
         | Raise e =>
             (Raise e, logged w (DETECTED "Renamed" (dest_path event)))
         end
       else (Ok tt, w))
  ∧ (∀ e w',
       on_created env self event w = (Raise e, w')
       ∨ on_moved env self event w = (Raise e, w') →
       sleep_length env (settle_delay self) = Raise e
       ∨ sleep_length env
           (file_lock_retry_delay_seconds (handler_config self)) = Raise e
       ∨ timeout_seconds (file_lock_retries (handler_config self))
           (file_lock_retry_delay_seconds (handler_config self)) = Raise e).
Proof.
  assert (∀ p c e w',
            (if ends_with ".zip" (lower (name p))
                && negb (String.length (name p) =? 4)
             then
               match sleep_length env (settle_delay self) with
               | Ok d =>
                   process_zip_file env p (handler_destination self)
                     (handler_todo_file self)
                     (file_lock_retries (handler_config self))
                     (file_lock_retry_delay_seconds (handler_config self))
                     (detected w c p d)
               | Raise e => (Raise e, logged w (DETECTED c p))
               end
             else (Ok tt, w)) = (Raise e, w') →
            sleep_length env (settle_delay self) = Raise e
            ∨ sleep_length env
                (file_lock_retry_delay_seconds (handler_config self)) = Raise e
            ∨ timeout_seconds (file_lock_retries (handler_config self))
                (file_lock_retry_delay_seconds (handler_config self)) = Raise e)
    as Hwhy.
  { intros p c e w'. destruct (ends_with _ _ && _); [|done].
    destruct (sleep_length env (settle_delay self)) as [d|e'] eqn:Hsettle.
    - destruct (process_zip_file_ends env (detected w c p d) p
                  (handler_destination self) (handler_todo_file self)
                  (file_lock_retries (handler_config self))
                  (file_lock_retry_delay_seconds (handler_config self)))
        as (o & w'' & -> & Hends).
      intros [= -> <-].
      destruct Hends as ([H|H] & _); [right; by left|right; by right].
    - intros [= <- <-]. by left. }
  unfold on_created, on_moved.
  destruct (is_directory event); cbn [negb andb].
  - split; [done|]. split; [done|]. by intros e w' [|].
  - rewrite !_handle_cases. split; [done|]. split; [done|].
    intros e w' [H|H]; by apply Hwhy in H.
Qed.

(** ** The scans *)








Lemma sorted_glob_nil (files : gmap Path node) (watch : Path) :
  (∀ c, is_Some (files !! (watch // c)) → fnmatch_star_zip c = false) →
  sorted (glob_star_zip files watch) = [].
Proof.
  intros Hnone.
  destruct (sorted (glob_star_zip files watch)) as [|p l] eqn:E; [done|].
  assert (p ∈ sorted (glob_star_zip files watch)) as Hin
    by (rewrite E; left).
  apply elem_of_sorted_glob in Hin as (Hp & Hne & Hparent & Hmatch).
  assert (p = watch // name p) as Heq.
  { unfold joinpath, name. rewrite <- Hparent. unfold parent.
    by apply app_removelast_last. }
  rewrite Heq in Hp. apply Hnone in Hp. congruence.
Qed.

(** X17.  A scan of a watch folder without any entry named like an
    archive does nothing: no line is logged, no file is probed, the world is
    as before, and the list returned is empty. *)
Theorem scan_of_nothing env watch destination todo_file cfg w :
  (∀ c, is_Some (fs w !! (watch // c)) → fnmatch_star_zip c = false) →
  startup_scan env watch destination todo_file cfg w = (Ok [], w)
  ∧ poll_sweep env watch destination todo_file cfg w = (Ok [], w).
Proof.
  intros Hnone. unfold startup_scan, poll_sweep.
  split; unfold mbind at 1, M_bind, gets;
    by rewrite (sorted_glob_nil _ _ Hnone).
Qed.

Lemma scan_of_nothing_witness :
  startup_scan quiet_env destination_folder destination_folder todo_md
    example_config example_world = (Ok [], example_world).
Proof.
  apply scan_of_nothing. intros c [x Hx].
  destruct (decide (c = "todo.md")) as [->|Hc1]; [reflexivity|].
  destruct (decide (c = "site")) as [->|Hc2]; [reflexivity|].
  exfalso. revert Hx.
  assert (fs example_world !! (destination_folder // c) = None) as ->; [|done].
  unfold example_world, example_fs, destination_folder, joinpath. cbn [fs app].
  rewrite !lookup_insert_ne by
    (unfold site_zip, broken_zip, photos_zip, watch_folder, todo_md,
       destination_folder; congruence).
  apply lookup_empty.
Defined.

(** X18.  A candidate is listed again by the next sweep exactly when the
    call did not delete it: after [process_zip_file] on a path of the
    listing, the path is in the new listing unless the lines of the call
    hold DELETED.  A file that timed out, a corrupt archive and an archive
    that could not be deleted are retried at every sweep. *)
Theorem candidate_again_unless_deleted
    env w p watch destination todo_file retries delay w' :
  p ∈ sorted (glob_star_zip (fs w) watch) →
  process_zip_file env p destination todo_file retries delay w = (Ok tt, w') →
  ∃ l, log w' = log w ++ l
       ∧ (p ∈ sorted (glob_star_zip (fs w') watch) ↔ DELETED p ∉ l).
Proof.
  intros Hin Hrun.
  pose proof (process_zip_file_returns _ _ _ _ _ _ _ _ Hrun) as Hends.
  apply elem_of_sorted_glob in Hin as (Hp & Hne & Hparent & Hmatch).
  assert (p ∈ sorted (glob_star_zip (fs w') watch) ↔ is_Some (fs w' !! p))
    as Hiff.
  { rewrite elem_of_sorted_glob. split; [by intros [? _]|by intros ?]. }
  set (t := resolve_extract_path (fs w) destination (stem p)) in *.
  destruct Hends as [tr0 seconds _ Hq0 Hfs Htr|tr0 tr e Hq0 Hq _ Hstay Htr
                    |tr0 tr1 ms files1 e Hq0 Hq1 _ Hp' _ Hfs Htr
                    |tr0 tr1 ms files1 rest Hq0 Hq1 _ _ _ Htr Hrest];
    eexists; (split;
      [rewrite !log_logs, Htr, !logs_app, ?logs_writes, (logs_probes tr0)
         by done; reflexivity|]);
    rewrite Hiff.
  - rewrite Hfs. split; [|done]. intros _. cbn. by intros ?%list_elem_of_singleton.
  - rewrite (logs_writes_or_mkdirs tr) by done. split; [|by intros; apply Hstay].
    intros _. cbn. by intros ?%list_elem_of_singleton.
  - rewrite (logs_mkdirs tr1) by done. split.
    + intros _. cbn. intros [?|?%list_elem_of_singleton]%elem_of_cons; done.
    + intros _. rewrite Hfs. apply extracted_keeps. by eexists.
  - rewrite (logs_mkdirs tr1) by done.
    assert (fs w' !! p = None) as Hgone.
    { destruct Hrest as [[_ ->]|[(e & _ & ->)|(content & Hdoc & _ & ->)]].
      - apply lookup_delete_eq.
      - apply lookup_delete_eq.
      - rewrite lookup_insert_ne; [apply lookup_delete_eq|].
        intros <-. by rewrite lookup_delete_eq in Hdoc. }
    rewrite Hgone. split; [by intros []|].
    intros Hnot. exfalso. apply Hnot. cbn. right. left.
Qed.

Lemma candidate_again_unless_deleted_witness :
  ∃ l,
    log (process_zip_file quiet_env broken_zip destination_folder todo_md
           30 two_seconds example_world).2 = log example_world ++ l
    ∧ (broken_zip
         ∈ sorted (glob_star_zip
                     (fs (process_zip_file quiet_env broken_zip
                            destination_folder todo_md 30 two_seconds
                            example_world).2) watch_folder)
       ↔ DELETED broken_zip ∉ l).
Proof.
  apply (candidate_again_unless_deleted quiet_env example_world broken_zip
           watch_folder destination_folder todo_md 30 two_seconds).
  - apply list_elem_of_In. vm_compute. by left.
  - vm_compute. reflexivity.
Defined.

(** ** [check_drive_mounted] *)

(** X19.  In a file system that is a tree, the drive test answers [True]
    whenever the watch folder exists; when it answers [False] the watch
    folder is missing and there is nothing a scan could list, so the early
    return of [main] skips no file. *)
Theorem check_drive_mounted_sound (files : gmap Path node) (watch : Path) :
  tree files → watch ≠ [] →
  (is_Some (files !! watch) → check_drive_mounted files watch = true)
  ∧ (check_drive_mounted files watch = false →
     files !! watch = None ∧ sorted (glob_star_zip files watch) = []).
Proof.
  intros Htree Hne.
  assert (∀ q, is_Some (files !! q) → take 1 watch `prefix_of` q →
            check_drive_mounted files watch = true) as Hup.
  { intros q Hq [r ->]. unfold check_drive_mounted, anchor.
    apply exists_true. destruct r as [|c r]; [by rewrite app_nil_r in Hq|].
    rewrite (tree_ancestors files (take 1 watch) (c :: r)).
    - by eexists.
    - done.
    - done.
    - by destruct watch.
    - done. }
  split.
  - intros Hw. apply (Hup watch Hw). apply prefix_take.
  - intros Hfalse. split.
    + destruct (files !! watch) eqn:E; [|done].
      rewrite (Hup watch) in Hfalse; [done|by eexists|apply prefix_take].
    + apply sorted_glob_nil. intros c Hc. exfalso.
      rewrite (Hup (watch // c)) in Hfalse; [done|done|].
      unfold joinpath. etrans; [apply prefix_take|]. by apply prefix_app_r.
Qed.

Lemma check_drive_mounted_sound_witness :
  check_drive_mounted example_fs watch_folder = true.
Proof.
  destruct (check_drive_mounted_sound example_fs watch_folder) as [Hup _].
  - apply (bool_decide_unpack _). vm_compute. exact I.
  - discriminate.
  - apply Hup. apply exists_true. vm_compute. reflexivity.
Defined.

(** ** [load_config] *)

(** X20.  Whatever JSON object the configuration file holds, and when
    there is no such file, every key that [main] and
    the event handler read is bound in the configuration they get, so none
    of their lookups fails.  A value comes from the command line if given
    there (the polling interval only), else from the file if the file binds
    the key, else from the defaults; the keys of the file that are no
    defaults are kept. *)
Theorem load_config_precedence
    (file : option (gmap string json)) (poll_interval : option Z) (k : string) :
  (k ∈ config_keys →
   is_Some (override_poll_interval poll_interval (load_config file) !! k))
  ∧ (∀ n, poll_interval = Some n →
          override_poll_interval poll_interval (load_config file)
            !! "poll_interval_seconds" = Some (JInt n))
  ∧ (k ≠ "poll_interval_seconds" ∨ poll_interval = None →
     override_poll_interval poll_interval (load_config file) !! k
     = match file with
       | Some loaded =>
           match loaded !! k with
           | Some v => Some v
           | None => defaults !! k
           end
       | None => defaults !! k
       end).
Proof.
  assert (load_config file !! k
          = match file with
            | Some loaded =>
                match loaded !! k with
                | Some v => Some v
                | None => defaults !! k
                end
            | None => defaults !! k
            end) as Hload.
  { destruct file as [loaded|]; [|done]. unfold load_config.
    rewrite lookup_union. by destruct (loaded !! k), (defaults !! k). }
  assert (k ∈ config_keys → is_Some (defaults !! k)) as Hdefault.
  { intros Hk. unfold config_keys in Hk.
    repeat (apply elem_of_cons in Hk as [->|Hk]; [by eexists|]).
    by apply elem_of_nil in Hk. }
  split; [|split].
  - intros Hk. destruct poll_interval as [n|]; cbn [override_poll_interval].
    + destruct (decide (k = "poll_interval_seconds")) as [->|Hne].
      * rewrite lookup_insert_eq. by eexists.
      * rewrite lookup_insert_ne, Hload by done.
        destruct file as [loaded|]; [|by apply Hdefault].
        destruct (loaded !! k); [by eexists|by apply Hdefault].
    + rewrite Hload. destruct file as [loaded|]; [|by apply Hdefault].
      destruct (loaded !! k); [by eexists|by apply Hdefault].
  - intros n ->. apply lookup_insert_eq.
  - rewrite <- Hload. intros [Hne| ->]; [|done].
    destruct poll_interval as [n|]; [|done]. cbn [override_poll_interval].
    by rewrite lookup_insert_ne.
Qed.

Lemma load_config_precedence_witness :
  override_poll_interval (Some 300%Z)
    (load_config (Some {[ "file_lock_retries" := JInt 5 ]}))
    !! "file_lock_retries" = Some (JInt 5).
Proof.
  destruct (load_config_precedence (Some {[ "file_lock_retries" := JInt 5 ]})
              (Some 300%Z) "file_lock_retries") as (_ & _ & Hvalue).
  rewrite Hvalue; [reflexivity|]. left. discriminate.
Defined.

(** ** The task document is missing, or is no file *)

Lemma unlink_file env p w d :
  io_error env (tick w) = None →
  fs w !! p = Some (File d) →
  unlink env p w
  = (Ok tt, {| fs := delete p (fs w); trace := trace w ++ [Unlink p];
               tick := S (tick w) |}).
Proof.
  intros Hio Hp. unfold unlink, syscall. run. rewrite Hio. cbn.
  by rewrite Hp.
Qed.

(** X21.  On the successful path (as in C2: the probe passes, the archive
    is readable, no call fails, the destination is a directory of a tree),
    a task document that does not exist is passed over in silence, the lines
    of the call being EXTRACTED and DELETED only; a task document that is a
    directory makes the call end with an ERROR line, after the archive was
    extracted and deleted. *)
Theorem task_document_missing_or_directory
    env w p destination todo_file retries delay w1 ms :
  no_io_errors env →
  tree (fs w) →
  fs w !! destination = Some Dir →
  fs w !! p = Some (File (Zip ms)) →
  Forall (λ m, supported m = true) ms →
  wait_for_file_ready env p retries delay w = (Ok true, w1) →
  (∀ a, todo_file
        ≠ resolve_extract_path (fs w) destination (stem p) ++ a) →
  ∃ w',
    process_zip_file env p destination todo_file retries delay w = (Ok tt, w')
    ∧ fs w' !! p = None
    ∧ (fs w !! todo_file = None →
       fs w' !! todo_file = None
       ∧ log w' = log w ++ [EXTRACTED p (resolve_extract_path (fs w)
                                           destination (stem p));
                            DELETED p])
    ∧ (fs w !! todo_file = Some Dir →
       fs w' !! todo_file = Some Dir
       ∧ log w' = log w ++ [EXTRACTED p (resolve_extract_path (fs w)
                                           destination (stem p));
                            DELETED p; ERROR p PermissionError]).
Proof.
  intros Hio Htree Hdest Hp Hms Hwait Houtside.
  pose proof (wait_for_file_ready_true _ _ _ _ _ _ Hwait)
    as (Hfs1 & _ & Hlog1 & _).
  pose proof (resolve_extract_path_free (fs w) destination (stem p)) as Hfree.
  destruct (resolve_extract_path_below (fs w) destination (stem p)) as [c Hc].
  set (t := resolve_extract_path (fs w) destination (stem p)) in *.
  assert (∀ a, p ≠ t ++ a) as Hp_out.
  { intros a. apply (free_not_above (fs w)); [done|done| |by eexists].
    rewrite Hc. apply joinpath_not_nil. }
  destruct (process_zip_file_phases env w p destination todo_file retries delay)
    as (o & w1' & tr0 & Hwait' & _ & _ & _ & _ & ->).
  rewrite Hwait in Hwait'. injection Hwait' as <- <-.
  rewrite (extraction_succeeds env w1 p destination ms)
    by (rewrite ?Hfs1; done).
  rewrite Hfs1. fold t.
  erewrite unlink_file; cycle 1.
  { apply Hio. }
  { cbn [fs]. rewrite extracted_other by done.
    rewrite lookup_insert_ne; [exact Hp|]. intros Heq.
    apply (Hp_out []). by rewrite app_nil_r. }
  cbn [fs trace tick].
  set (w3 := logged _ (DELETED p)).
  assert (fs w3 = delete p (extracted t (<[t:=Dir]> (fs w)) ms)) as Hfs3
    by done.
  assert (log w3 = log w ++ [EXTRACTED p t; DELETED p]) as Hlog3.
  { unfold w3. rewrite log_logged, log_logs. cbn [trace].
    rewrite !logs_app, logs_writes. cbn. fold (logs (trace w1)).
    rewrite <- log_logs, Hlog1, <- !app_assoc. done. }
  assert (p ≠ todo_file → fs w3 !! todo_file = fs w !! todo_file) as Hdoc.
  { intros Hne. rewrite Hfs3, lookup_delete_ne by done.
    rewrite extracted_other by done.
    rewrite lookup_insert_ne; [done|]. intros Heq.
    apply (Houtside []). by rewrite app_nil_r. }
  assert (fs w3 !! p = None) as Hgone by (rewrite Hfs3; apply lookup_delete_eq).
  rewrite add_todo_entry_unfold.
  destruct (fs w3 !! todo_file) as [node|] eqn:Hnode.
  - (* the document is there *)
    assert (p ≠ todo_file) as Hne by (intros <-; congruence).
    pose proof (Hdoc Hne) as Hsame. clear Hdoc.
    red_world. rewrite !Hio.
    destruct node as [|[content| |]].
    + eexists. split; [done|]. cbn [logged fs]. split; [done|].
      split; [congruence|]. intros _. split; [done|].
      rewrite log_logged.
      change (log {| fs := fs w3; trace := trace w3; tick := S (tick w3) |})
        with (log w3).
      by rewrite Hlog3, <- app_assoc.
    + destruct (re_search _ content); eexists; (split; [done|]).
      * cbn [fs]. split; [done|].
        split; intros Hx; rewrite Hx in Hsame; discriminate.
      * cbn [logged fs]. split.
        { rewrite lookup_insert_ne by (intros <-; congruence). done. }
        split; intros Hx; rewrite Hx in Hsame; discriminate.
    + eexists. split; [done|]. cbn [logged fs]. split; [done|].
      split; intros Hx; rewrite Hx in Hsame; discriminate.
    + eexists. split; [done|]. cbn [logged fs]. split; [done|].
      split; intros Hx; rewrite Hx in Hsame; discriminate.
  - eexists. split; [done|]. split; [done|].
    assert (p ≠ todo_file → fs w !! todo_file = None) as Hsame
      by (intros Hne; symmetry; auto).
    split.
    + intros _. split; [done|]. done.
    + intros Hx. destruct (decide (p = todo_file)) as [<-|Hne].
      * rewrite Hx in Hp. discriminate.
      * rewrite (Hsame Hne) in Hx. discriminate.
Qed.

Lemma task_document_missing_or_directory_witness :
  ∃ w',
    process_zip_file quiet_env site_zip destination_folder
      ["C:"; "Dev"; "site"] 30 two_seconds example_world = (Ok tt, w')
    ∧ log w' = [EXTRACTED site_zip ["C:"; "Dev"; "site_2"]; DELETED site_zip;
                ERROR site_zip PermissionError].
Proof.
  destruct (task_document_missing_or_directory quiet_env example_world
              site_zip destination_folder ["C:"; "Dev"; "site"]
              30 two_seconds
              (wait_for_file_ready quiet_env site_zip 30 two_seconds
                 example_world).2
              site_members)
    as (w' & Hrun & _ & _ & Hdir).
  - intros t. reflexivity.
  - apply (bool_decide_unpack _). vm_compute. exact I.
  - vm_compute. reflexivity.
  - vm_compute. reflexivity.
  - repeat constructor.
  - vm_compute. reflexivity.
  - intros a.
    assert (resolve_extract_path (fs example_world) destination_folder
              (stem site_zip) = ["C:"; "Dev"; "site_2"]) as ->
      by (vm_compute; reflexivity).
    discriminate.
  - exists w'. split; [exact Hrun|].
    destruct Hdir as [_ Hlog]; [vm_compute; reflexivity|].
    rewrite Hlog. vm_compute. reflexivity.
Defined.
